(** * The SQLite-backed data store of the experiment manager

    A shallow embedding of [src/nni_manager/core/sqlDatabase.ts] (class
    [SqlDB], its three row loaders and the DDL script) together with the
    part of its environment that the store's behaviour depends on: the
    [JSON] built-in, [ts-deferred], and the [sqlite3] driver restricted to
    the thirteen statements the store issues. *)

From Stdlib Require Import ZArith NArith List String Ascii Lia Bool Decimal DecimalN.
From Stdlib Require Import Sorting.Sorted Sorting.Permutation.
From stdpp Require Import base option list gmap.

Local Open Scope N_scope.

(** ** JavaScript preliminaries *)

(** A JavaScript string is a sequence of UTF-16 code units. *)
Definition jstring := list N.

Definition js (s : string) : jstring := map N_of_ascii (list_ascii_of_string s).

Definition jstring_eqb (a b : jstring) : bool := bool_decide (a = b).

(** The exceptions and driver errors that flow through the store. *)
Inductive Error :=
| SyntaxError                       (* thrown by JSON.parse *)
| TypeError                         (* property read on null, iteration over undefined *)
| AssertionError                    (* thrown by assert *)
| SqliteError (code : jstring).     (* delivered by the driver's callbacks *)

#[global] Instance Error_eq_dec : EqDecision Error.
Proof. solve_decision. Defined.

(** Synchronous code either returns or throws. *)
Inductive except (A : Type) :=
| Return (a : A)
| Throw (e : Error).
Arguments Return {A} a.
Arguments Throw {A} e.

Definition bind_except {A B} (m : except A) (k : A -> except B) : except B :=
  match m with
  | Return a => k a
  | Throw e => Throw e
  end.

Notation "x <-! m ;; k" := (bind_except m (fun x => k))
  (at level 100, m at next level, right associativity).

(** ** The JSON built-in *)

Module JSON.

(** A finite number in its shortest decimal form: the value is
    [0.d1 d2 ... dk * 10 ^ point], written [s * 10 ^ (n - k)] by
    ECMAScript's Number::toString with [s] the integer of digits [d1 ... dk]
    and [n = point].  Zero has no digits.  Numbers are exact here: the
    rounding of a literal to binary64 is outside the model. *)
Record number := Num { negative : bool; digits : list N; point : Z }.

Unset Elimination Schemes.
Inductive value :=
| JNull
| JBool (b : bool)
| JNum (n : number)
| JStr (s : jstring)
| JArr (elements : list value)
| JObj (members : list (jstring * value)).
Set Elimination Schemes.

(** Own properties in enumeration order, taken to be creation order. *)

(** *** Serialisation: JSON.stringify *)

Definition hex_digit (d : N) : N := if d <? 10 then 48 + d else 87 + d.

(** QuoteJSONString, one code unit. *)
Definition quote_unit (c : N) : list N :=
  if c =? 8 then js "\b"
  else if c =? 9 then js "\t"
  else if c =? 10 then js "\n"
  else if c =? 12 then js "\f"
  else if c =? 13 then js "\r"
  else if c =? 34 then [92; 34]
  else if c =? 92 then [92; 92]
  else if c <? 32 then js "\u00" ++ [hex_digit (c / 16); hex_digit (c mod 16)]
  else [c].

Definition quote (s : jstring) : jstring :=
  34 :: concat (map quote_unit s) ++ [34].

Fixpoint digits_of_uint (u : uint) : list N :=
  match u with
  | Nil => []
  | D0 u => 0 :: digits_of_uint u
  | D1 u => 1 :: digits_of_uint u
  | D2 u => 2 :: digits_of_uint u
  | D3 u => 3 :: digits_of_uint u
  | D4 u => 4 :: digits_of_uint u
  | D5 u => 5 :: digits_of_uint u
  | D6 u => 6 :: digits_of_uint u
  | D7 u => 7 :: digits_of_uint u
  | D8 u => 8 :: digits_of_uint u
  | D9 u => 9 :: digits_of_uint u
  end.

Definition uint_digit (d : N) : uint -> uint :=
  if d =? 0 then D0 else if d =? 1 then D1 else if d =? 2 then D2
  else if d =? 3 then D3 else if d =? 4 then D4 else if d =? 5 then D5
  else if d =? 6 then D6 else if d =? 7 then D7 else if d =? 8 then D8
  else D9.

Fixpoint uint_of_digits (ds : list N) : uint :=
  match ds with
  | [] => Nil
  | d :: ds => uint_digit d (uint_of_digits ds)
  end.

(** Decimal digits of a natural number, most significant first. *)
Definition decimal_digits (n : N) : list N := digits_of_uint (N.to_uint n).

(** The natural number written by a digit sequence. *)
Definition decimal_value (ds : list N) : N := N.of_uint (uint_of_digits ds).

Definition digit_chars (ds : list N) : jstring := map (N.add 48) ds.

Definition zeros (n : Z) : list N := repeat 0 (Z.to_nat n).

Definition exponent_text (e : Z) : jstring :=
  js "e" ++ (if (e <? 0)%Z then js "-" else js "+")
  ++ digit_chars (decimal_digits (Z.to_N (Z.abs e))).

(** Number::toString, radix 10, for a finite number. *)
Definition number_to_string (x : number) : jstring :=
  let ds := digits x in
  let k := Z.of_nat (length ds) in
  let n := point x in
  match ds with
  | [] => js "0"
  | d1 :: rest =>
    (if negative x then js "-" else []) ++
    (if ((k <=? n) && (n <=? 21))%Z then
       digit_chars (ds ++ zeros (n - k))
     else if ((0 <? n) && (n <=? 21))%Z then
       digit_chars (take (Z.to_nat n) ds) ++ js "." ++ digit_chars (drop (Z.to_nat n) ds)
     else if ((-6 <? n) && (n <=? 0))%Z then
       js "0." ++ digit_chars (zeros (- n) ++ ds)
     else
       match rest with
       | [] => digit_chars [d1] ++ exponent_text (n - 1)
       | _ => digit_chars [d1] ++ js "." ++ digit_chars rest ++ exponent_text (n - 1)
       end)
  end.

Fixpoint join (sep : jstring) (parts : list jstring) : jstring :=
  match parts with
  | [] => []
  | [p] => p
  | p :: ps => p ++ sep ++ join sep ps
  end.

(** One property of an object, given the text of its value. *)
Definition member_text (text : value -> jstring) (kv : jstring * value) : jstring :=
  quote (fst kv) ++ js ":" ++ text (snd kv).

(** JSON.stringify of a value of the JSON data model, without indentation. *)
Fixpoint stringify (v : value) : jstring :=
  match v with
  | JNull => js "null"
  | JBool true => js "true"
  | JBool false => js "false"
  | JNum n => number_to_string n
  | JStr s => quote s
  | JArr vs => js "[" ++ join (js ",") (map stringify vs) ++ js "]"
  | JObj kvs =>
    js "{" ++ join (js ",") (map (member_text stringify) kvs) ++ js "}"
  end.

(** *** Parsing: JSON.parse *)

Definition is_ws (c : N) : bool := (c =? 32) || (c =? 9) || (c =? 10) || (c =? 13).

Fixpoint skip_ws (s : jstring) : jstring :=
  match s with
  | c :: r => if is_ws c then skip_ws r else s
  | [] => []
  end.

Definition hex_val (c : N) : option N :=
  if (48 <=? c) && (c <=? 57) then Some (c - 48)
  else if (97 <=? c) && (c <=? 102) then Some (c - 87)
  else if (65 <=? c) && (c <=? 70) then Some (c - 55)
  else None.

Definition unescape (c : N) : option N :=
  if c =? 34 then Some 34
  else if c =? 92 then Some 92
  else if c =? 47 then Some 47
  else if c =? 98 then Some 8
  else if c =? 102 then Some 12
  else if c =? 110 then Some 10
  else if c =? 114 then Some 13
  else if c =? 116 then Some 9
  else None.

(** The characters of a string literal after its opening quote. *)
Fixpoint parse_string_body (s : jstring) : option (jstring * jstring) :=
  match s with
  | [] => None
  | c :: r =>
    if c =? 34 then Some ([], r)
    else if c =? 92 then
      match r with
      | [] => None
      | e :: r1 =>
        if e =? 117 then
          match r1 with
          | h1 :: h2 :: h3 :: h4 :: r2 =>
            match hex_val h1, hex_val h2, hex_val h3, hex_val h4 with
            | Some a, Some b, Some c', Some d =>
              match parse_string_body r2 with
              | Some (t, r3) => Some ((((a * 16 + b) * 16 + c') * 16 + d) :: t, r3)
              | None => None
              end
            | _, _, _, _ => None
            end
          | _ => None
          end
        else
          match unescape e with
          | Some u =>
            match parse_string_body r1 with
            | Some (t, r2) => Some (u :: t, r2)
            | None => None
            end
          | None => None
          end
      end
    else if c <? 32 then None
    else
      match parse_string_body r with
      | Some (t, r1) => Some (c :: t, r1)
      | None => None
      end
  end.

Definition is_digit (c : N) : bool := (48 <=? c) && (c <=? 57).

(** The longest prefix of decimal digits, as digit values. *)
Fixpoint span_digits (s : jstring) : list N * jstring :=
  match s with
  | c :: r =>
    if is_digit c then let '(ds, r') := span_digits r in ((c - 48) :: ds, r')
    else ([], s)
  | [] => ([], [])
  end.

Fixpoint strip_zeros (ds : list N) : list N :=
  match ds with
  | d :: r => if d =? 0 then strip_zeros r else ds
  | [] => []
  end.

Definition strip_trailing_zeros (ds : list N) : list N := rev (strip_zeros (rev ds)).

(** The number denoted by a literal with integer digits [int], fraction
    digits [frac] and exponent [ex]. *)
Definition number_of_literal (neg : bool) (int frac : list N) (ex : Z) : number :=
  let all := int ++ frac in
  let sig := strip_zeros all in
  let lead := (Z.of_nat (length all) - Z.of_nat (length sig))%Z in
  match strip_trailing_zeros sig with
  | [] => Num false [] 0
  | ds => Num neg ds (Z.of_nat (length int) + ex - lead)
  end.

Definition parse_exponent (s : jstring) : option (Z * jstring) :=
  match s with
  | c :: r =>
    if (c =? 101) || (c =? 69) then
      let '(sign, r1) :=
        match r with
        | c1 :: r' => if c1 =? 45 then (-1, r')%Z else if c1 =? 43 then (1%Z, r') else (1%Z, r)
        | [] => (1%Z, r)
        end in
      match span_digits r1 with
      | ([], _) => None
      | (ds, r2) => Some ((sign * Z.of_N (decimal_value ds))%Z, r2)
      end
    else Some (0%Z, s)
  | [] => Some (0%Z, s)
  end.

Definition parse_fraction (s : jstring) : option (list N * jstring) :=
  match s with
  | c :: r =>
    if c =? 46 then
      match span_digits r with
      | ([], _) => None
      | (ds, r1) => Some (ds, r1)
      end
    else Some ([], s)
  | [] => Some ([], s)
  end.

Definition parse_int_part (s : jstring) : option (list N * jstring) :=
  match s with
  | c :: r =>
    if c =? 48 then Some ([0], r)
    else match span_digits s with
         | ([], _) => None
         | (ds, r1) => Some (ds, r1)
         end
  | [] => None
  end.

Definition parse_unsigned (neg : bool) (s : jstring) : option (number * jstring) :=
  match parse_int_part s with
  | None => None
  | Some (int, s2) =>
    match parse_fraction s2 with
    | None => None
    | Some (frac, s3) =>
      match parse_exponent s3 with
      | None => None
      | Some (ex, s4) => Some (number_of_literal neg int frac ex, s4)
      end
    end
  end.

Definition parse_number (s : jstring) : option (number * jstring) :=
  match s with
  | c :: r => if c =? 45 then parse_unsigned true r else parse_unsigned false s
  | [] => None
  end.

(** Defining property [k] on an object under construction: an existing
    property keeps its place and takes the new value. *)
Fixpoint define (kvs : list (jstring * value)) (k : jstring) (v : value) :=
  match kvs with
  | [] => [(k, v)]
  | (k', v') :: r => if jstring_eqb k' k then (k', v) :: r else (k', v') :: define r k v
  end.

Definition object_of (kvs : list (jstring * value)) : value :=
  JObj (fold_left (fun o kv => define o (fst kv) (snd kv)) kvs []).

Definition strip_prefix (p s : jstring) : option jstring :=
  if bool_decide (take (length p) s = p) then Some (drop (length p) s) else None.

(** Recursive descent over the JSON grammar.  Every call consumes a code
    unit before it recurses twice, so [fuel] bounds the nesting. *)
Fixpoint parse_value (fuel : nat) (s : jstring) : option (value * jstring) :=
  match fuel with
  | O => None
  | S fuel =>
    match skip_ws s with
    | [] => None
    | c :: r =>
      if c =? 123 then
        match skip_ws r with
        | c1 :: r1 =>
          if c1 =? 125 then Some (JObj [], r1)
          else match parse_members fuel r with
               | Some (kvs, r2) => Some (object_of kvs, r2)
               | None => None
               end
        | [] => None
        end
      else if c =? 91 then
        match skip_ws r with
        | c1 :: r1 =>
          if c1 =? 93 then Some (JArr [], r1)
          else match parse_elements fuel r with
               | Some (vs, r2) => Some (JArr vs, r2)
               | None => None
               end
        | [] => None
        end
      else if c =? 34 then
        match parse_string_body r with
        | Some (t, r1) => Some (JStr t, r1)
        | None => None
        end
      else if c =? 116 then
        match strip_prefix (js "rue") r with Some r1 => Some (JBool true, r1) | None => None end
      else if c =? 102 then
        match strip_prefix (js "alse") r with Some r1 => Some (JBool false, r1) | None => None end
      else if c =? 110 then
        match strip_prefix (js "ull") r with Some r1 => Some (JNull, r1) | None => None end
      else
        match parse_number (c :: r) with
        | Some (n, r1) => Some (JNum n, r1)
        | None => None
        end
    end
  end
with parse_elements (fuel : nat) (s : jstring) : option (list value * jstring) :=
  match fuel with
  | O => None
  | S fuel =>
    match parse_value fuel s with
    | None => None
    | Some (v, r) =>
      match skip_ws r with
      | c :: r1 =>
        if c =? 44 then
          match parse_elements fuel r1 with
          | Some (vs, r2) => Some (v :: vs, r2)
          | None => None
          end
        else if c =? 93 then Some ([v], r1)
        else None
      | [] => None
      end
    end
  end
with parse_members (fuel : nat) (s : jstring) : option (list (jstring * value) * jstring) :=
  match fuel with
  | O => None
  | S fuel =>
    match skip_ws s with
    | c :: r =>
      if c =? 34 then
        match parse_string_body r with
        | None => None
        | Some (k, r1) =>
          match skip_ws r1 with
          | c1 :: r2 =>
            if c1 =? 58 then
              match parse_value fuel r2 with
              | None => None
              | Some (v, r3) =>
                match skip_ws r3 with
                | c2 :: r4 =>
                  if c2 =? 44 then
                    match parse_members fuel r4 with
                    | Some (kvs, r5) => Some ((k, v) :: kvs, r5)
                    | None => None
                    end
                  else if c2 =? 125 then Some ([(k, v)], r4)
                  else None
                | [] => None
                end
              end
            else None
          | [] => None
          end
        end
      else None
    | [] => None
    end
  end.

(** JSON.parse of a string: one value, surrounded by white space only. *)
Definition parse (text : jstring) : except value :=
  match parse_value (2 * length text + 2) text with
  | Some (v, r) =>
    match skip_ws r with
    | [] => Return v
    | _ => Throw SyntaxError
    end
  | None => Throw SyntaxError
  end.

(** *** The values that JSON text denotes *)

(** A number is in shortest form when its digit sequence has neither a
    leading nor a trailing zero; zero is the empty sequence. *)
Definition number_ok (x : number) : bool :=
  forallb (fun d => d <? 10) (digits x)
  && bool_decide (strip_zeros (digits x) = digits x)
  && bool_decide (strip_trailing_zeros (digits x) = digits x)
  && match digits x with
     | [] => negb (negative x) && (point x =? 0)%Z
     | _ => true
     end.

(** A value as JSON.parse can build it: numbers in shortest form and no
    object with the same property twice. *)
Fixpoint well_formed (v : value) : bool :=
  match v with
  | JNum n => number_ok n
  | JArr vs => forallb well_formed vs
  | JObj kvs =>
    bool_decide (NoDup (map fst kvs)) && forallb (fun kv => well_formed (snd kv)) kvs
  | _ => true
  end.

End JSON.


(** ** Domain records *)

(** A valid [Date]: its time value, milliseconds since the epoch. *)
Record Date := new_Date { getTime : Z }.

(** Modelled from the spec: the string-literal unions [TrialJobEvent] and
    [MetricType] of [common/datastore]; their members are strings at run
    time. *)
Definition TrialJobEvent := jstring.
Definition MetricType := jstring.

Module ExperimentProfile.
(** Modelled from the spec: the interface [ExperimentProfile] of
    [common/manager], with the fields [loadExperimentProfile] fills in;
    [params] is structured configuration, a JSON value. *)
Record t := mk {
  params : JSON.value;
  id : jstring;
  execDuration : Z;
  startTime : option Date;
  endTime : option Date;
  revision : Z
}.
End ExperimentProfile.

Module TrialJobEventRecord.
(** Modelled from the spec: the interface [TrialJobEventRecord] of
    [common/datastore], with the fields [loadTrialJobEvent] fills in. *)
Record t := mk {
  timestamp : Date;
  trialJobId : jstring;
  event : TrialJobEvent;
  data : option jstring;
  logPath : option jstring
}.
End TrialJobEventRecord.

Module MetricDataRecord.
(** Modelled from the spec: the interface [MetricDataRecord] of
    [common/datastore], with the fields [loadMetricData] fills in.  The
    loader copies five columns as the driver returns them, so they hold
    run-time values: null, a number or a string. *)
Record t := mk {
  timestamp : Date;
  trialJobId : JSON.value;
  parameterId : JSON.value;
  type : JSON.value;
  sequence : JSON.value;
  data : JSON.value
}.
End MetricDataRecord.

(** ** The sqlite3 driver *)

Module Sqlite.

(** A stored or bound value. *)
Inductive sqlvalue :=
| SqlNull
| SqlInteger (z : Z)
| SqlReal (x : JSON.number)
| SqlText (s : jstring).

#[global] Instance number_eq_dec : EqDecision JSON.number.
Proof. solve_decision. Defined.

#[global] Instance sqlvalue_eq_dec : EqDecision sqlvalue.
Proof. solve_decision. Defined.

(** The integer a number in shortest form denotes, when it is one. *)
Definition integer_of (x : JSON.number) : option Z :=
  let k := Z.of_nat (length (JSON.digits x)) in
  if (k <=? JSON.point x)%Z then
    let m := Z.of_N (JSON.decimal_value (JSON.digits x ++ JSON.zeros (JSON.point x - k))) in
    Some (if JSON.negative x then (- m)%Z else m)
  else None.

Definition number_of_integer (z : Z) : JSON.number :=
  JSON.number_of_literal (z <? 0)%Z (JSON.decimal_digits (Z.to_N (Z.abs z))) [] 0.

(** How the driver binds one element of the parameter array: a string as
    text, a number as integer or real, a boolean as 0 or 1, null as NULL;
    for undefined, an array or an object it binds nothing, and an unbound
    parameter is NULL.  The value is stored as bound: the conversion that a
    column's declared type applies to a value of another type (a number
    bound to a text column) is outside the model. *)
Definition bind (arg : option JSON.value) : sqlvalue :=
  match arg with
  | Some (JSON.JStr s) => SqlText s
  | Some (JSON.JNum x) =>
    match integer_of x with
    | Some z => SqlInteger z
    | None => SqlReal x
    end
  | Some (JSON.JBool b) => SqlInteger (if b then 1 else 0)
  | Some JSON.JNull => SqlNull
  | Some (JSON.JArr _) | Some (JSON.JObj _) => SqlNull
  | None => SqlNull
  end.

(** The run-time value of a cell in a row object. *)
Definition cell_value (v : sqlvalue) : JSON.value :=
  match v with
  | SqlNull => JSON.JNull
  | SqlInteger z => JSON.JNum (number_of_integer z)
  | SqlReal x => JSON.JNum x
  | SqlText s => JSON.JStr s
  end.

(** Rows of the three tables of [createTables].  A column the store always
    binds from a typed argument has that type; a nullable column is an
    [option]; the columns of MetricData that come out of the parsed
    envelope hold whatever was bound. *)
Module ExperimentProfileRow.
Record t := mk {
  params : jstring;
  id : jstring;
  execDuration : Z;
  startTime : option Z;
  endTime : option Z;
  revision : Z
}.
End ExperimentProfileRow.

Module TrialJobEventRow.
Record t := mk {
  timestamp : Z;
  trialJobId : jstring;
  event : jstring;
  data : option jstring;
  logPath : option jstring
}.
End TrialJobEventRow.

Module MetricDataRow.
Record t := mk {
  timestamp : Z;
  trialJobId : sqlvalue;
  parameterId : sqlvalue;
  type : sqlvalue;
  sequence : sqlvalue;
  data : option jstring
}.
End MetricDataRow.

(** The tables of a database that has the schema, rows in insertion order. *)
Record Tables := mkTables {
  TrialJobEventTable : list TrialJobEventRow.t;
  MetricDataTable : list MetricDataRow.t;
  ExperimentProfileTable : list ExperimentProfileRow.t
}.

Definition no_rows : Tables := mkTables [] [] [].

(** A database file: [None] before any table is created. *)
Definition Database := option Tables.

(** The statements the store prepares, with their bound parameters. *)
Inductive insert_statement :=
| InsertExperimentProfile (row : ExperimentProfileRow.t)
    (* insert into ExperimentProfile values (?,?,?,?,?,?) *)
| InsertTrialJobEvent (row : TrialJobEventRow.t)
    (* insert into TrialJobEvent values (?,?,?,?,?) *)
| InsertMetricData (row : MetricDataRow.t).
    (* insert into MetricData values (?,?,?,?,?,?) *)

Inductive select_profile :=
| ProfileById (id : jstring)
    (* select * from ExperimentProfile where id=? order by revision DESC *)
| ProfileByIdRevision (id : jstring) (revision : Z).
    (* select * from ExperimentProfile where id=? and revision=? *)

Inductive select_event :=
| EventAll
    (* select * from TrialJobEvent *)
| EventByEvent (event : jstring)
    (* select * from TrialJobEvent where event=? *)
| EventByTrialJobId (trialJobId : jstring)
    (* select * from TrialJobEvent where trialJobId=? *)
| EventByTrialJobIdEvent (trialJobId : jstring) (event : jstring).
    (* select * from TrialJobEvent where trialJobId=? and event=? *)

Inductive select_metric :=
| MetricAll
    (* select * from MetricData *)
| MetricByType (type : jstring)
    (* select * from MetricData where type=? *)
| MetricByTrialJobId (trialJobId : jstring)
    (* select * from MetricData where trialJobId=? *)
| MetricByTrialJobIdType (trialJobId : jstring) (type : jstring).
    (* select * from MetricData where trialJobId=? and type=? *)

(** [column = ?] with a text parameter: NULL and numbers never match. *)
Definition text_eq (cell : sqlvalue) (arg : jstring) : bool :=
  match cell with
  | SqlText s => jstring_eqb s arg
  | _ => false
  end.

(** [order by key DESC] as a stable insertion sort: rows with equal keys
    stay in insertion order. *)
Fixpoint insert_desc {A} (key : A -> Z) (r : A) (sorted : list A) : list A :=
  match sorted with
  | [] => [r]
  | r' :: rest =>
    if (key r' <? key r)%Z then r :: r' :: rest else r' :: insert_desc key r rest
  end.

Definition order_by_desc {A} (key : A -> Z) (rows : list A) : list A :=
  fold_right (insert_desc key) [] rows.

Definition run_insert (stmt : insert_statement) (t : Tables) : Tables :=
  match stmt with
  | InsertExperimentProfile row =>
    mkTables (TrialJobEventTable t) (MetricDataTable t) (ExperimentProfileTable t ++ [row])
  | InsertTrialJobEvent row =>
    mkTables (TrialJobEventTable t ++ [row]) (MetricDataTable t) (ExperimentProfileTable t)
  | InsertMetricData row =>
    mkTables (TrialJobEventTable t) (MetricDataTable t ++ [row]) (ExperimentProfileTable t)
  end.

Definition all_profile (q : select_profile) (t : Tables) : list ExperimentProfileRow.t :=
  match q with
  | ProfileById id =>
    order_by_desc ExperimentProfileRow.revision
      (List.filter (fun r => jstring_eqb (ExperimentProfileRow.id r) id) (ExperimentProfileTable t))
  | ProfileByIdRevision id revision =>
    List.filter (fun r => jstring_eqb (ExperimentProfileRow.id r) id
                          && (ExperimentProfileRow.revision r =? revision)%Z)
                (ExperimentProfileTable t)
  end.

Definition all_event (q : select_event) (t : Tables) : list TrialJobEventRow.t :=
  match q with
  | EventAll => TrialJobEventTable t
  | EventByEvent event =>
    List.filter (fun r => jstring_eqb (TrialJobEventRow.event r) event) (TrialJobEventTable t)
  | EventByTrialJobId trialJobId =>
    List.filter (fun r => jstring_eqb (TrialJobEventRow.trialJobId r) trialJobId)
                (TrialJobEventTable t)
  | EventByTrialJobIdEvent trialJobId event =>
    List.filter (fun r => jstring_eqb (TrialJobEventRow.trialJobId r) trialJobId
                          && jstring_eqb (TrialJobEventRow.event r) event)
                (TrialJobEventTable t)
  end.

Definition all_metric (q : select_metric) (t : Tables) : list MetricDataRow.t :=
  match q with
  | MetricAll => MetricDataTable t
  | MetricByType type =>
    List.filter (fun r => text_eq (MetricDataRow.type r) type) (MetricDataTable t)
  | MetricByTrialJobId trialJobId =>
    List.filter (fun r => text_eq (MetricDataRow.trialJobId r) trialJobId) (MetricDataTable t)
  | MetricByTrialJobIdType trialJobId type =>
    List.filter (fun r => text_eq (MetricDataRow.trialJobId r) trialJobId
                          && text_eq (MetricDataRow.type r) type)
                (MetricDataTable t)
  end.

Definition OPEN_READWRITE : Z := 2.
Definition OPEN_CREATE : Z := 4.

Definition SQLITE_CANTOPEN : Error := SqliteError (js "SQLITE_CANTOPEN").
Definition SQLITE_ERROR : Error := SqliteError (js "SQLITE_ERROR").
Definition SQLITE_MISUSE : Error := SqliteError (js "SQLITE_MISUSE").

End Sqlite.

(** ** ts-deferred *)

Module Deferred.

Inductive state (V : Type) :=
| Pending
| Fulfilled (value : V)
| Rejected (reason : Error).
Arguments Pending {V}.
Arguments Fulfilled {V} value.
Arguments Rejected {V} reason.

(** [deferred.resolve(value)] and [deferred.reject(reason)]: a promise
    settles once. *)
Definition resolve {V} (value : V) (d : state V) : state V :=
  match d with
  | Pending => Fulfilled value
  | _ => d
  end.

Definition reject {V} (reason : Error) (d : state V) : state V :=
  match d with
  | Pending => Rejected reason
  | _ => d
  end.

End Deferred.

(** ** The store *)

Module SqlDB.
Import Sqlite.

(** The schema-creation script. *)
Definition createTables : jstring := js "
create table TrialJobEvent (timestamp integer, trialJobId text, event text, data text, logPath text);
create index TrialJobEvent_trialJobId on TrialJobEvent(trialJobId);
create index TrialJobEvent_event on TrialJobEvent(event);

create table MetricData (timestamp integer, trialJobId text, parameterId text, type text, sequence integer, data text);
create index MetricData_trialJobId on MetricData(trialJobId);
create index MetricData_type on MetricData(type);

create table ExperimentProfile (
    params text,
    id text,
    execDuration integer,
    startTime integer,
    endTime integer,
    revision integer);
create index ExperimentProfile_id on ExperimentProfile(id);
".

(** *** Row loaders *)

(** A loader takes the row object the driver built and returns the record
    or throws; of the three, only [loadExperimentProfile] can throw, in
    [JSON.parse]. *)
Definition loadExperimentProfile (row : ExperimentProfileRow.t) : except ExperimentProfile.t :=
  params <-! JSON.parse (ExperimentProfileRow.params row) ;;
  Return {|
    ExperimentProfile.params := params;
    ExperimentProfile.id := ExperimentProfileRow.id row;
    ExperimentProfile.execDuration := ExperimentProfileRow.execDuration row;
    ExperimentProfile.startTime :=
      match ExperimentProfileRow.startTime row with
      | None => None
      | Some t => Some (new_Date t)
      end;
    ExperimentProfile.endTime :=
      match ExperimentProfileRow.endTime row with
      | None => None
      | Some t => Some (new_Date t)
      end;
    ExperimentProfile.revision := ExperimentProfileRow.revision row
  |}.

Definition loadTrialJobEvent (row : TrialJobEventRow.t) : TrialJobEventRecord.t :=
  {|
    TrialJobEventRecord.timestamp := new_Date (TrialJobEventRow.timestamp row);
    TrialJobEventRecord.trialJobId := TrialJobEventRow.trialJobId row;
    TrialJobEventRecord.event := TrialJobEventRow.event row;
    TrialJobEventRecord.data :=
      match TrialJobEventRow.data row with
      | None => None
      | Some d => Some d
      end;
    TrialJobEventRecord.logPath :=
      match TrialJobEventRow.logPath row with
      | None => None
      | Some l => Some l
      end
  |}.

Definition text_cell (c : option jstring) : JSON.value :=
  match c with
  | None => JSON.JNull
  | Some s => JSON.JStr s
  end.

Definition loadMetricData (row : MetricDataRow.t) : MetricDataRecord.t :=
  {|
    MetricDataRecord.timestamp := new_Date (MetricDataRow.timestamp row);
    MetricDataRecord.trialJobId := cell_value (MetricDataRow.trialJobId row);
    MetricDataRecord.parameterId := cell_value (MetricDataRow.parameterId row);
    MetricDataRecord.type := cell_value (MetricDataRow.type row);
    MetricDataRecord.sequence := cell_value (MetricDataRow.sequence row);
    MetricDataRecord.data := text_cell (MetricDataRow.data row)
  |}.

(** A loader that always returns. *)
Definition returns {R T} (f : R -> T) (row : R) : except T := Return (f row).

(** *** The generic resolution routine *)

(** What a [Deferred<T[]> | Deferred<void>] is resolved with. *)
Inductive resolution (T : Type) :=
| Void
| Data (data : list T).
Arguments Void {T}.
Arguments Data {T} data.

(** The loop [for (const row of rows) data.push(rowLoader(row))]. *)
Fixpoint load_rows {R T} (rowLoader : R -> except T) (rows : list R) (data : list T)
  : except (list T) :=
  match rows with
  | [] => Return data
  | row :: rows => x <-! rowLoader row ;; load_rows rowLoader rows (data ++ [x])
  end.

(** [resolve(deferred, error, rows?, rowLoader?)]: the deferred after the
    call, or the exception that leaves it.  [error] is [None] for null;
    [rows] and [rowLoader] are [None] for undefined; [as_value] is the cast
    of [deferred] to the kind of deferred that takes the value. *)
Definition resolve {R T V} (as_value : resolution T -> V) (deferred : Deferred.state V)
    (error : option Error) (rows : option (list R)) (rowLoader : option (R -> except T))
  : except (Deferred.state V) :=
  match error with
  | Some error => Return (Deferred.reject error deferred)
  | None =>
    match rowLoader with
    | None => Return (Deferred.resolve (as_value Void) deferred)
    | Some rowLoader =>
      match rows with
      | None => Throw TypeError
      | Some rows =>
        data <-! load_rows rowLoader rows [] ;;
        Return (Deferred.resolve (as_value (Data data)) deferred)
      end
    end
  end.

(** *** The store and its environment as one state *)

(** What the promises handed out by the store are fulfilled with. *)
Inductive result :=
| RVoid
| RProfiles (profiles : list ExperimentProfile.t)
| REvents (events : list TrialJobEventRecord.t)
| RMetrics (metrics : list MetricDataRecord.t)
| RProfile (profile : option ExperimentProfile.t).

Definition held {T} (inj : list T -> result) (v : resolution T) : result :=
  match v with
  | Void => RVoid
  | Data data => inj data
  end.

(** Work given to the driver, each with the callback passed along; the
    variables a callback closes over are the job's arguments. *)
Inductive job :=
| JobOpen (filename : jstring) (mode : Z) (createNew : bool)
    (* new sqlite3.Database(dbFileName, mode, (err) => { ... }) *)
| JobExec (sql : jstring) (err : option Error)
    (* this.db.exec(createTables, (error) => { this.resolve(this.initTask, err); }) *)
| JobClose (deferred : nat)
    (* this.db.close((err) => { this.resolve(deferred, err); }) *)
| JobRun (stmt : insert_statement) (deferred : nat)
    (* this.db.run(sql, args, (err) => { this.resolve(deferred, err); }) *)
| JobAllProfile (q : select_profile) (deferred : nat)
    (* this.db.all(sql, args, (err, rows) => { this.resolve(deferred, err, rows, loadExperimentProfile); }) *)
| JobAllEvent (q : select_event) (deferred : nat)
    (* ... this.resolve(deferred, err, rows, loadTrialJobEvent) *)
| JobAllMetric (q : select_metric) (deferred : nat).
    (* ... this.resolve(deferred, err, rows, loadMetricData) *)

Record World := mkWorld {
  (* the Deferred objects created so far, by identity *)
  promises : gmap nat (Deferred.state result);
  next_promise : nat;
  (* async functions suspended at an await: the awaited promise and their own *)
  awaiting : list (nat * nat);
  (* the fields of the SqlDB instance; None is undefined *)
  db : option jstring;
  initTask : option nat;
  (* the file system *)
  directories : list jstring;
  disk : gmap jstring Database;
  (* the driver: whether the handle is open, its queue, oldest first *)
  opened : bool;
  queue : list job;
  (* every job ever given to the driver, and the exceptions that left a callback *)
  submitted : list job;
  uncaught : list Error
}.

Definition set_promises (f : gmap nat (Deferred.state result) -> gmap nat (Deferred.state result))
    (W : World) : World :=
  mkWorld (f (promises W)) (next_promise W) (awaiting W) (db W) (initTask W) (directories W)
          (disk W) (opened W) (queue W) (submitted W) (uncaught W).

Definition set_next_promise (n : nat) (W : World) : World :=
  mkWorld (promises W) n (awaiting W) (db W) (initTask W) (directories W)
          (disk W) (opened W) (queue W) (submitted W) (uncaught W).

Definition set_awaiting (a : list (nat * nat)) (W : World) : World :=
  mkWorld (promises W) (next_promise W) a (db W) (initTask W) (directories W)
          (disk W) (opened W) (queue W) (submitted W) (uncaught W).

Definition set_db (h : option jstring) (W : World) : World :=
  mkWorld (promises W) (next_promise W) (awaiting W) h (initTask W) (directories W)
          (disk W) (opened W) (queue W) (submitted W) (uncaught W).

Definition set_initTask (t : option nat) (W : World) : World :=
  mkWorld (promises W) (next_promise W) (awaiting W) (db W) t (directories W)
          (disk W) (opened W) (queue W) (submitted W) (uncaught W).

Definition set_disk (d : gmap jstring Database) (W : World) : World :=
  mkWorld (promises W) (next_promise W) (awaiting W) (db W) (initTask W) (directories W)
          d (opened W) (queue W) (submitted W) (uncaught W).

Definition set_opened (o : bool) (W : World) : World :=
  mkWorld (promises W) (next_promise W) (awaiting W) (db W) (initTask W) (directories W)
          (disk W) o (queue W) (submitted W) (uncaught W).

Definition set_queue (q : list job) (W : World) : World :=
  mkWorld (promises W) (next_promise W) (awaiting W) (db W) (initTask W) (directories W)
          (disk W) (opened W) q (submitted W) (uncaught W).

Definition set_submitted (l : list job) (W : World) : World :=
  mkWorld (promises W) (next_promise W) (awaiting W) (db W) (initTask W) (directories W)
          (disk W) (opened W) (queue W) l (uncaught W).

Definition set_uncaught (l : list Error) (W : World) : World :=
  mkWorld (promises W) (next_promise W) (awaiting W) (db W) (initTask W) (directories W)
          (disk W) (opened W) (queue W) (submitted W) l.

(** A store just constructed, no call made yet, in a given file system. *)
Definition fresh (dirs : list jstring) (files : gmap jstring Database) : World :=
  mkWorld ∅ 0 [] None None dirs files false [] [] [].

(** Code that runs against the state and returns or throws. *)
Definition M (A : Type) := World -> except A * World.

Definition ret {A} (a : A) : M A := fun W => (Return a, W).
Definition throw {A} (e : Error) : M A := fun W => (Throw e, W).
Definition bind {A B} (m : M A) (k : A -> M B) : M B :=
  fun W => match m W with
           | (Return a, W') => k a W'
           | (Throw e, W') => (Throw e, W')
           end.
Definition modify (f : World -> World) : M unit := fun W => (Return tt, f W).
Definition read {A} (f : World -> A) : M A := fun W => (Return (f W), W).

Notation "x <- m ; k" := (bind m (fun x => k))
  (at level 100, m at next level, right associativity).
Notation "m ;; k" := (bind m (fun _ => k))
  (at level 100, right associativity).

(** [new Deferred()]: a pending promise under a new identity. *)
Definition allocate (W : World) : World :=
  set_next_promise (S (next_promise W))
    (set_promises (insert (next_promise W) Deferred.Pending) W).

Definition new_Deferred : M nat := fun W => (Return (next_promise W), allocate W).

(** The continuation of [queryLatestExperimentProfile] after its await:
    [return profiles[0]], or the rejection passed on. *)
Definition resume_latest (awaited : Deferred.state result) (own : Deferred.state result)
  : Deferred.state result :=
  match awaited with
  | Deferred.Fulfilled (RProfiles profiles) => Deferred.resolve (RProfile (head profiles)) own
  | Deferred.Fulfilled _ => own
  | Deferred.Rejected reason => Deferred.reject reason own
  | Deferred.Pending => own
  end.

(** Settling promise [d] runs the async functions that await it. *)
Definition run_reactions (d : nat) (W : World) : World :=
  match promises W !! d with
  | Some (Deferred.Pending) | None => W
  | Some st =>
    let ready := List.filter (fun a => Nat.eqb (fst a) d) (awaiting W) in
    let rest := List.filter (fun a => negb (Nat.eqb (fst a) d)) (awaiting W) in
    set_awaiting rest
      (set_promises (fun ps => fold_left (fun ps a => alter (resume_latest st) (snd a) ps) ready ps) W)
  end.

Definition update_promise (d : nat) (f : Deferred.state result -> Deferred.state result)
  : M unit :=
  modify (fun W => run_reactions d (set_promises (alter f d) W)).

(** [this.resolve(deferred, error, rows, rowLoader)] on the deferred with
    identity [d]; calling a method of an undefined deferred is a
    TypeError. *)
Definition this_resolve {R T} (d : nat) (inj : list T -> result) (error : option Error)
    (rows : option (list R)) (rowLoader : option (R -> except T)) : M unit :=
  fun W => match promises W !! d with
           | Some deferred =>
             match resolve (held inj) deferred error rows rowLoader with
             | Return deferred' => update_promise d (fun _ => deferred') W
             | Throw e => (Throw e, W)
             end
           | None => (Throw TypeError, W)
           end.

(** A method call on [this.db]: a TypeError while the field is undefined,
    otherwise the job joins the driver's queue. *)
Definition enqueue (j : job) (W : World) : World :=
  set_submitted (submitted W ++ [j]) (set_queue (queue W ++ [j]) W).

Definition submit (j : job) : M unit := fun W =>
  match db W with
  | None => (Throw TypeError, W)
  | Some _ => (Return tt, enqueue j W)
  end.

(** [path.join(dbDir, name)], without normalisation. *)
Definition path_join (dir name : jstring) : jstring := dir ++ js "/" ++ name.

(** *** The methods of SqlDB *)

Definition init (createNew : bool) (dbDir : jstring) : M nat :=
  task <- read initTask ;
  match task with
  | Some t => ret t
  | None =>
    t <- new_Deferred ;
    modify (set_initTask (Some t)) ;;
    dirs <- read directories ;
    if negb (bool_decide (dbDir ∈ dirs)) then throw AssertionError
    else
      let mode := if createNew then Z.lor OPEN_CREATE OPEN_READWRITE else OPEN_READWRITE in
      let dbFileName := path_join dbDir (js "nni.sqlite") in
      modify (set_db (Some dbFileName)) ;;
      submit (JobOpen dbFileName mode createNew) ;;
      ret t
  end.

Definition close : M nat :=
  deferred <- new_Deferred ;
  submit (JobClose deferred) ;;
  ret deferred.

(** The parameter array of [storeExperimentProfile]. *)
Definition storeExperimentProfile_args (exp : ExperimentProfile.t) : ExperimentProfileRow.t :=
  {|
    ExperimentProfileRow.params := JSON.stringify (ExperimentProfile.params exp);
    ExperimentProfileRow.id := ExperimentProfile.id exp;
    ExperimentProfileRow.execDuration := ExperimentProfile.execDuration exp;
    ExperimentProfileRow.startTime :=
      match ExperimentProfile.startTime exp with
      | None => None
      | Some d => Some (getTime d)
      end;
    ExperimentProfileRow.endTime :=
      match ExperimentProfile.endTime exp with
      | None => None
      | Some d => Some (getTime d)
      end;
    ExperimentProfileRow.revision := ExperimentProfile.revision exp
  |}.

Definition storeExperimentProfile (exp : ExperimentProfile.t) : M nat :=
  let args := storeExperimentProfile_args exp in
  deferred <- new_Deferred ;
  submit (JobRun (InsertExperimentProfile args) deferred) ;;
  ret deferred.

Definition queryExperimentProfile (experimentId : jstring) (revision : option Z) : M nat :=
  let sql :=
    match revision with
    | None => ProfileById experimentId
    | Some revision => ProfileByIdRevision experimentId revision
    end in
  deferred <- new_Deferred ;
  submit (JobAllProfile sql deferred) ;;
  ret deferred.

(** An async function: it returns its own promise, and an exception before
    the await rejects that promise. *)
Definition queryLatestExperimentProfile (experimentId : jstring) : M nat := fun W =>
  let own := next_promise W in
  let W := allocate W in
  match queryExperimentProfile experimentId None W with
  | (Return profiles, W) => (Return own, set_awaiting (awaiting W ++ [(profiles, own)]) W)
  | (Throw e, W) => (Return own, set_promises (alter (Deferred.reject e) own) W)
  end.

(** [now] is what [Date.now()] returns during the call. *)
Definition storeTrialJobEvent (now : Z) (event : TrialJobEvent) (trialJobId : jstring)
    (data logPath : option jstring) : M nat :=
  let args := {|
    TrialJobEventRow.timestamp := now;
    TrialJobEventRow.trialJobId := trialJobId;
    TrialJobEventRow.event := event;
    TrialJobEventRow.data := data;
    TrialJobEventRow.logPath := logPath
  |} in
  deferred <- new_Deferred ;
  submit (JobRun (InsertTrialJobEvent args) deferred) ;;
  ret deferred.

Definition queryTrialJobEvent (trialJobId : option jstring) (event : option TrialJobEvent)
  : M nat :=
  let sql :=
    match trialJobId, event with
    | None, None => EventAll
    | None, Some event => EventByEvent event
    | Some trialJobId, None => EventByTrialJobId trialJobId
    | Some trialJobId, Some event => EventByTrialJobIdEvent trialJobId event
    end in
  deferred <- new_Deferred ;
  submit (JobAllEvent sql deferred) ;;
  ret deferred.

(** The own property [name] of an object, undefined ([None]) when it has
    none. *)
Definition own_property (members : list (jstring * JSON.value)) (name : jstring)
  : option JSON.value :=
  match List.find (fun kv => jstring_eqb (fst kv) name) members with
  | Some kv => Some (snd kv)
  | None => None
  end.

(** Reading property [name] of a value: a TypeError on null, the own
    property on an object, undefined on anything else (the names read here
    are on no prototype). *)
Definition get (v : JSON.value) (name : jstring) : except (option JSON.value) :=
  match v with
  | JSON.JNull => Throw TypeError
  | JSON.JObj members => Return (own_property members name)
  | _ => Return None
  end.

(** [JSON.stringify(x)] where [x] may be undefined. *)
Definition stringify_any (x : option JSON.value) : option jstring :=
  match x with
  | None => None
  | Some v => Some (JSON.stringify v)
  end.

(** The parameter array of [storeMetricData], or the exception thrown
    while it is computed. *)
Definition storeMetricData_args (now : Z) (data : jstring) : except MetricDataRow.t :=
  json <-! JSON.parse data ;;
  j_trialJobId <-! get json (js "trialJobId") ;;
  j_parameterId <-! get json (js "parameterId") ;;
  j_type <-! get json (js "type") ;;
  j_sequence <-! get json (js "sequence") ;;
  j_data <-! get json (js "data") ;;
  Return {|
    MetricDataRow.timestamp := now;
    MetricDataRow.trialJobId := Sqlite.bind j_trialJobId;
    MetricDataRow.parameterId := Sqlite.bind j_parameterId;
    MetricDataRow.type := Sqlite.bind j_type;
    MetricDataRow.sequence := Sqlite.bind j_sequence;
    MetricDataRow.data := stringify_any j_data
  |}.

Definition storeMetricData (now : Z) (trialJobId : jstring) (data : jstring) : M nat :=
  fun W =>
  match storeMetricData_args now data with
  | Throw e => (Throw e, W)
  | Return args =>
    (deferred <- new_Deferred ;
     submit (JobRun (InsertMetricData args) deferred) ;;
     ret deferred) W
  end.

Definition queryMetricData (trialJobId : option jstring) (metricType : option MetricType)
  : M nat :=
  let sql :=
    match metricType, trialJobId with
    | None, None => MetricAll
    | Some metricType, None => MetricByType metricType
    | None, Some trialJobId => MetricByTrialJobId trialJobId
    | Some metricType, Some trialJobId => MetricByTrialJobIdType trialJobId metricType
    end in
  deferred <- new_Deferred ;
  submit (JobAllMetric sql deferred) ;;
  ret deferred.

(** *** The driver at work *)

(** The file and tables behind the handle, once it is open on a database
    that has the schema. *)
Definition current_tables (W : World) : option Tables :=
  if opened W then
    match db W with
    | Some f => match disk W !! f with
                | Some (Some t) => Some t
                | _ => None
                end
    | None => None
    end
  else None.

(** Each operation takes the fault the environment injects, if any (an
    I/O error, a lock); without one its outcome follows from the state. *)
Definition sqlite_open (filename : jstring) (mode : Z) (fault : option Error) (W : World)
  : option Error * World :=
  match fault with
  | Some e => (Some e, W)
  | None =>
    match disk W !! filename with
    | Some _ => (None, set_opened true W)
    | None =>
      if negb (Z.land mode OPEN_CREATE =? 0)%Z
      then (None, set_opened true (set_disk (<[filename := None]> (disk W)) W))
      else (Some SQLITE_CANTOPEN, W)
    end
  end.

(** Of all scripts only [createTables] is modelled: it fails when the
    tables exist already. *)
Definition sqlite_exec (sql : jstring) (fault : option Error) (W : World)
  : option Error * World :=
  match fault with
  | Some e => (Some e, W)
  | None =>
    if negb (opened W) then (Some SQLITE_MISUSE, W)
    else if negb (jstring_eqb sql createTables) then (Some SQLITE_ERROR, W)
    else
      match db W with
      | Some f =>
        match disk W !! f with
        | Some None => (None, set_disk (<[f := Some no_rows]> (disk W)) W)
        | _ => (Some SQLITE_ERROR, W)
        end
      | None => (Some SQLITE_MISUSE, W)
      end
  end.

Definition sqlite_run (stmt : insert_statement) (fault : option Error) (W : World)
  : option Error * World :=
  match fault with
  | Some e => (Some e, W)
  | None =>
    match db W, current_tables W with
    | Some f, Some t => (None, set_disk (<[f := Some (run_insert stmt t)]> (disk W)) W)
    | _, _ => (Some (if opened W then SQLITE_ERROR else SQLITE_MISUSE), W)
    end
  end.

Definition sqlite_all {R} (q : Tables -> list R) (fault : option Error) (W : World)
  : option Error * option (list R) :=
  match fault with
  | Some e => (Some e, None)
  | None =>
    match current_tables W with
    | Some t => (None, Some (q t))
    | None => (Some (if opened W then SQLITE_ERROR else SQLITE_MISUSE), None)
    end
  end.

Definition sqlite_close (fault : option Error) (W : World) : option Error * World :=
  match fault with
  | Some e => (Some e, W)
  | None => if opened W then (None, set_opened false W) else (Some SQLITE_MISUSE, W)
  end.

(** [this.resolve(this.initTask, err)]. *)
Definition resolve_initTask (err : option Error) : M unit :=
  task <- read initTask ;
  match task with
  | Some t => this_resolve (R := unit) (T := unit) t (fun _ => RVoid) err None None
  | None => throw TypeError
  end.

(** The callback of [new sqlite3.Database] in [init]. *)
Definition on_open (createNew : bool) (err : option Error) : M unit :=
  match err with
  | Some _ => resolve_initTask err
  | None =>
    if createNew then submit (JobExec createTables err)
    else
      task <- read initTask ;
      match task with
      | Some t => update_promise t (Deferred.resolve RVoid)
      | None => throw TypeError
      end
  end.

(** The callback of [this.db.exec] in [init]: its own parameter is
    [error]; what it passes on is [err], the variable of the enclosing
    callback. *)
Definition on_exec (err : option Error) (error : option Error) : M unit :=
  resolve_initTask err.

(** The callback [(err) => { this.resolve(deferred, err); }]. *)
Definition on_done (deferred : nat) (err : option Error) : M unit :=
  this_resolve (R := unit) (T := unit) deferred (fun _ => RVoid) err None None.

(** The driver takes its oldest job, carries it out and calls back. *)
Definition run_job (fault : option Error) (j : job) : M unit := fun W =>
  match j with
  | JobOpen filename mode createNew =>
    let '(err, W) := sqlite_open filename mode fault W in on_open createNew err W
  | JobExec sql err =>
    let '(error, W) := sqlite_exec sql fault W in on_exec err error W
  | JobClose deferred =>
    let '(err, W) := sqlite_close fault W in on_done deferred err W
  | JobRun stmt deferred =>
    let '(err, W) := sqlite_run stmt fault W in on_done deferred err W
  | JobAllProfile q deferred =>
    let '(err, rows) := sqlite_all (all_profile q) fault W in
    this_resolve deferred RProfiles err rows (Some loadExperimentProfile) W
  | JobAllEvent q deferred =>
    let '(err, rows) := sqlite_all (all_event q) fault W in
    this_resolve deferred REvents err rows (Some (returns loadTrialJobEvent)) W
  | JobAllMetric q deferred =>
    let '(err, rows) := sqlite_all (all_metric q) fault W in
    this_resolve deferred RMetrics err rows (Some (returns loadMetricData)) W
  end.

Definition complete (fault : option Error) (W : World) : World :=
  match queue W with
  | [] => W
  | j :: rest =>
    match run_job fault j (set_queue rest W) with
    | (Return _, W) => W
    | (Throw e, W) => set_uncaught (uncaught W ++ [e]) W
    end
  end.

(** The driver works off its whole queue without a fault. *)
Fixpoint drain (fuel : nat) (W : World) : World :=
  match fuel with
  | O => W
  | S fuel => match queue W with
              | [] => W
              | _ => drain fuel (complete None W)
              end
  end.

(** *** Runs of the program *)

Inductive call :=
| Init (createNew : bool) (dbDir : jstring)
| Close
| StoreExperimentProfile (exp : ExperimentProfile.t)
| QueryExperimentProfile (experimentId : jstring) (revision : option Z)
| QueryLatestExperimentProfile (experimentId : jstring)
| StoreTrialJobEvent (now : Z) (event : TrialJobEvent) (trialJobId : jstring)
    (data logPath : option jstring)
| QueryTrialJobEvent (trialJobId : option jstring) (event : option TrialJobEvent)
| StoreMetricData (now : Z) (trialJobId : jstring) (data : jstring)
| QueryMetricData (trialJobId : option jstring) (metricType : option MetricType).

Definition perform (c : call) : M nat :=
  match c with
  | Init createNew dbDir => init createNew dbDir
  | Close => close
  | StoreExperimentProfile exp => storeExperimentProfile exp
  | QueryExperimentProfile experimentId revision => queryExperimentProfile experimentId revision
  | QueryLatestExperimentProfile experimentId => queryLatestExperimentProfile experimentId
  | StoreTrialJobEvent now event trialJobId data logPath =>
    storeTrialJobEvent now event trialJobId data logPath
  | QueryTrialJobEvent trialJobId event => queryTrialJobEvent trialJobId event
  | StoreMetricData now trialJobId data => storeMetricData now trialJobId data
  | QueryMetricData trialJobId metricType => queryMetricData trialJobId metricType
  end.

(** What happens next: the program calls a method, or the driver finishes
    a job, possibly with a fault. *)
Inductive event :=
| Call (c : call)
| Complete (fault : option Error).

(** A run: the calls made with what each returned or threw, and the state
    reached. *)
Fixpoint run (events : list event) (W : World) : list (call * except nat) * World :=
  match events with
  | [] => ([], W)
  | Call c :: events =>
    let '(r, W) := perform c W in
    let '(rs, W) := run events W in
    ((c, r) :: rs, W)
  | Complete fault :: events => run events (complete fault W)
  end.

End SqlDB.

(** * Vocabulary of the properties *)

(** ** Shapes of JSON text *)

Module JSONShape.
Import JSON.

(** What may follow the text of a number without being read as part of
    it. *)
Definition number_stop (rest : jstring) : bool :=
  match rest with
  | [] => true
  | c :: _ => negb (is_digit c) && negb (c =? 46) && negb (c =? 101) && negb (c =? 69)
  end.

(** The text ahead does not start with a digit. *)
Definition no_digit_ahead (rest : jstring) : Prop :=
  match rest with [] => True | c :: _ => is_digit c = false end.

(** Fuel that [parse_value] needs to read back the text of [v]. *)
Fixpoint size (v : value) : nat :=
  match v with
  | JArr vs => S (fold_right (fun v n => S (size v) + n)%nat O vs)
  | JObj kvs => S (fold_right (fun kv n => S (size (snd kv)) + n)%nat O kvs)
  | _ => 1
  end.

(** The code units that follow a value inside the output of [stringify]. *)
Definition value_stop (rest : jstring) : bool :=
  match rest with
  | [] => true
  | c :: _ => (c =? 44) || (c =? 93) || (c =? 125)
  end.

(** The first code unit of a number's text. *)
Definition number_start (c : N) : bool := (c =? 45) || is_digit c.

(** The first code unit of the text of any value. *)
Definition value_start (c : N) : bool :=
  number_start c || (c =? 123) || (c =? 91) || (c =? 34) || (c =? 116) || (c =? 102)
  || (c =? 110).

(** [v] is read back from its text, whatever follows it in the output. *)
Definition reads_back (v : value) : Prop :=
  well_formed v = true ->
  forall fuel rest, (size v <= fuel)%nat -> value_stop rest = true ->
  parse_value fuel (stringify v ++ rest) = Some (v, rest).

(** The same for the elements of an array and the members of an object. *)
Definition elements_size (vs : list value) : nat :=
  fold_right (fun v n => S (size v) + n)%nat O vs.

Definition members_size (kvs : list (jstring * value)) : nat :=
  fold_right (fun kv n => S (size (snd kv)) + n)%nat O kvs.

End JSONShape.

Import Sqlite SqlDB.

(** ** States of the store *)

(** Every suspended async function awaits a promise created after its own,
    and both exist. *)
Definition consistent (W : World) : bool :=
  forallb (fun a => (snd a <? fst a)%nat && (fst a <? next_promise W)%nat) (awaiting W).

(** A step that creates no promise and suspends no function. *)
Definition keeps_awaiting (W W' : World) : Prop :=
  next_promise W' = next_promise W /\ incl (awaiting W') (awaiting W).

(** The connection is open on a database with tables [t] and the driver has
    nothing left to do. *)
Definition quiescent (W : World) (t : Tables) : Prop :=
  consistent W = true /\ queue W = [] /\ current_tables W = Some t.

(** Calling [m] returns a promise, and when the driver then completes its
    job without a fault the promise is fulfilled with [v]. *)
Definition resolves_with (m : M nat) (W : World) (v : result) : Prop :=
  exists d W1, m W = (Return d, W1)
               /\ promises (complete None W1) !! d = Some (Deferred.Fulfilled v).

(** Adjacent rows of a result in descending order of [key]. *)
Definition descending {A} (key : A -> Z) (a b : A) : Prop := (key b <= key a)%Z.

(** ** Experiment profiles *)

(** The profiles stored for [id], and those stored for [id] at [revision]. *)
Definition with_id (id : jstring) (ps : list ExperimentProfile.t) : list ExperimentProfile.t :=
  List.filter (fun p => jstring_eqb (ExperimentProfile.id p) id) ps.

Definition with_id_revision (id : jstring) (revision : Z) (ps : list ExperimentProfile.t)
  : list ExperimentProfile.t :=
  List.filter (fun p => jstring_eqb (ExperimentProfile.id p) id
                        && (ExperimentProfile.revision p =? revision)%Z) ps.

(** The table holds the rows that storing [ps], in this order, put there. *)
Definition stored (t : Tables) (ps : list ExperimentProfile.t) : Prop :=
  ExperimentProfileTable t = map storeExperimentProfile_args ps
  /\ Forall (fun p => JSON.well_formed (ExperimentProfile.params p) = true) ps.

(** *** A store with three revisions of one experiment *)

Definition data_dir : jstring := js "/data".

(** [init(true, "/data")] on an empty directory, run to completion. *)
Definition opened_store : World :=
  snd (run [Call (Init true data_dir); Complete None; Complete None] (fresh [data_dir] ∅)).

(** The parameters of the example experiment. *)
Definition lr_params : JSON.value :=
  JSON.JObj [(js "lr", JSON.JNum (JSON.Num false [1] 0));
             (js "layers", JSON.JArr [JSON.JNum (JSON.Num false [1] 1);
                                      JSON.JNum (JSON.Num false [2] 1);
                                      JSON.JNum (JSON.Num false [3] 1)])].

Definition exp1 (revision : Z) : ExperimentProfile.t :=
  ExperimentProfile.mk lr_params (js "exp1") 60 (Some (new_Date 1000)) None revision.

Definition other_exp : ExperimentProfile.t :=
  ExperimentProfile.mk JSON.JNull (js "exp2") 0 None None 7.

Definition store_all (ps : list ExperimentProfile.t) (W : World) : World :=
  snd (run (flat_map (fun p => [Call (StoreExperimentProfile p); Complete None]) ps) W).

Definition three_revisions : list ExperimentProfile.t := [exp1 2; other_exp; exp1 3; exp1 1].

Definition three_revisions_store : World := store_all three_revisions opened_store.

Definition three_revisions_tables : Tables :=
  mkTables [] [] (map storeExperimentProfile_args three_revisions).

(** Two profiles stored under the same id and revision. *)
Definition twice_revision_1 : list ExperimentProfile.t :=
  [exp1 1; ExperimentProfile.mk JSON.JNull (js "exp1") 90 None None 1].

(** ** Trial job events and metric data *)

(** A filter that was not given matches every row. *)
Definition matches {A} (eqb : A -> jstring -> bool) (given : option jstring) (cell : A) : bool :=
  match given with
  | None => true
  | Some x => eqb cell x
  end.

(** *** A store with three trial job events and two metrics *)

(** The text of a metric envelope. *)
Definition envelope (trialJobId : jstring) (type : jstring) (sequence : JSON.number)
    (payload : JSON.value) : jstring :=
  JSON.stringify
    (JSON.JObj [(js "parameterId", JSON.JStr (js "0"));
                (js "trialJobId", JSON.JStr trialJobId);
                (js "type", JSON.JStr type);
                (js "sequence", JSON.JNum sequence);
                (js "data", payload)]).

Definition accuracy : JSON.value :=
  JSON.JObj [(js "default", JSON.JNum (JSON.Num false [9; 3] 0))].

Definition busy_store : World :=
  snd (run [Call (StoreTrialJobEvent 100 (js "RUNNING") (js "t1") None None);
            Complete None;
            Call (StoreTrialJobEvent 200 (js "SUCCEEDED") (js "t1") (Some (js "done")) None);
            Complete None;
            Call (StoreTrialJobEvent 300 (js "RUNNING") (js "t2") None (Some (js "/log/t2")));
            Complete None;
            Call (StoreMetricData 400 (js "ignored")
                    (envelope (js "t1") (js "PERIODICAL") (JSON.Num false [1] 1) accuracy));
            Complete None;
            Call (StoreMetricData 500 (js "ignored")
                    (envelope (js "t2") (js "FINAL") (JSON.Num false [] 0) (JSON.JStr (js "0.9"))));
            Complete None]
           opened_store).

Definition busy_tables : Tables :=
  mkTables
    [TrialJobEventRow.mk 100 (js "t1") (js "RUNNING") None None;
     TrialJobEventRow.mk 200 (js "t1") (js "SUCCEEDED") (Some (js "done")) None;
     TrialJobEventRow.mk 300 (js "t2") (js "RUNNING") None (Some (js "/log/t2"))]
    [MetricDataRow.mk 400 (SqlText (js "t1")) (SqlText (js "0")) (SqlText (js "PERIODICAL"))
                      (SqlInteger 1) (Some (JSON.stringify accuracy));
     MetricDataRow.mk 500 (SqlText (js "t2")) (SqlText (js "0")) (SqlText (js "FINAL"))
                      (SqlInteger 0) (Some (JSON.stringify (JSON.JStr (js "0.9"))))]
    [].

(** The row bound for an envelope that parses to an object. *)
Definition envelope_row (now : Z) (members : list (jstring * JSON.value)) : MetricDataRow.t :=
  {|
    MetricDataRow.timestamp := now;
    MetricDataRow.trialJobId := Sqlite.bind (own_property members (js "trialJobId"));
    MetricDataRow.parameterId := Sqlite.bind (own_property members (js "parameterId"));
    MetricDataRow.type := Sqlite.bind (own_property members (js "type"));
    MetricDataRow.sequence := Sqlite.bind (own_property members (js "sequence"));
    MetricDataRow.data := stringify_any (own_property members (js "data"))
  |}.

(** The properties a parsed envelope offers to [storeMetricData]: the
    members of an object, none for an array, a string, a number or a
    boolean. *)
Definition members_of (json : JSON.value) : list (jstring * JSON.value) :=
  match json with
  | JSON.JObj members => members
  | _ => []
  end.

(** ** Initialisation *)

Definition is_open (j : job) : bool :=
  match j with
  | JobOpen _ _ _ => true
  | _ => false
  end.

Definition is_exec (j : job) : bool :=
  match j with
  | JobExec _ _ => true
  | _ => false
  end.

(** How many times the file was given to the driver to open, and the
    schema script to execute. *)
Definition opens (jobs : list job) : nat := length (List.filter is_open jobs).
Definition execs (jobs : list job) : nat := length (List.filter is_exec jobs).

(** The calls of [init] in a run, each with its arguments and outcome. *)
Fixpoint init_calls (trace : list (call * except nat)) : list (bool * jstring * except nat) :=
  match trace with
  | [] => []
  | (Init createNew dbDir, r) :: trace => (createNew, dbDir, r) :: init_calls trace
  | _ :: trace => init_calls trace
  end.

(** One open at most, one script at most and only after that open, and
    nothing of the kind before [init] was called. *)
Definition single_flight (W : World) : Prop :=
  (opens (submitted W) <= 1)%nat
  /\ (execs (submitted W) + opens (queue W) <= 1)%nat
  /\ (initTask W = None ->
      opens (submitted W) = 0%nat /\ execs (submitted W) = 0%nat /\ opens (queue W) = 0%nat).

(** What no step but the first [init] changes. *)
Definition same_init (W W' : World) : Prop :=
  initTask W' = initTask W /\ directories W' = directories W.

(** What the driver's own work and the callbacks that settle promises
    leave alone. *)
Definition same_jobs (W W' : World) : Prop :=
  initTask W' = initTask W /\ directories W' = directories W
  /\ submitted W' = submitted W /\ queue W' = queue W.

(** Three calls of [init] with the driver at work in between. *)
Definition three_inits : list event :=
  [Call (Init true data_dir); Call (Init false (js "/elsewhere")); Complete None;
   Call (QueryTrialJobEvent None None); Complete None; Call (Init true data_dir);
   Complete None].

(** The state right after the first [init(createNew, dbDir)] on an
    existing directory. *)
Definition initialising (createNew : bool) (dbDir : jstring) (dirs : list jstring)
    (files : gmap jstring Database) : World :=
  let dbFileName := path_join dbDir (js "nni.sqlite") in
  let mode := if createNew then Z.lor OPEN_CREATE OPEN_READWRITE else OPEN_READWRITE in
  mkWorld (<[0%nat := Deferred.Pending]> ∅) 1 [] (Some dbFileName) (Some 0%nat)
          (dbDir :: dirs) files false
          [JobOpen dbFileName mode createNew] [JobOpen dbFileName mode createNew] [].

(** The driver's own work changes files and the connection only. *)
Definition driver_only (W W' : World) : Prop :=
  promises W' = promises W /\ awaiting W' = awaiting W /\ initTask W' = initTask W
  /\ queue W' = queue W.

(** ** Files and failures *)

(** The tables [t'] hold the rows of [t], in place, and possibly more
    after them. *)
Definition extends (t t' : Tables) : Prop :=
  TrialJobEventTable t `prefix_of` TrialJobEventTable t'
  /\ MetricDataTable t `prefix_of` MetricDataTable t'
  /\ ExperimentProfileTable t `prefix_of` ExperimentProfileTable t'.

(** No file is removed, no table dropped and no row changed or deleted. *)
Definition only_grows (files files' : gmap jstring Database) : Prop :=
  forall f, match files !! f with
            | Some (Some t) => exists t', files' !! f = Some (Some t') /\ extends t t'
            | Some None => is_Some (files' !! f)
            | None => True
            end.

(** What the callbacks leave alone: the files and the connection. *)
Definition same_files (W W' : World) : Prop :=
  disk W' = disk W /\ db W' = db W /\ opened W' = opened W.

(** The driver refuses the next job with [e]: it is the fault that strikes,
    or the connection is closed. *)
Definition refuses (fault : option Error) (W : World) (e : Error) : Prop :=
  fault = Some e \/ (fault = None /\ opened W = false /\ e = SQLITE_MISUSE).

(** The store after an [init] whose directory was missing: the init task
    is set and pending, and there is no connection and no job. *)
Definition stuck (files : gmap jstring Database) (W : World) : Prop :=
  initTask W = Some 0%nat /\ db W = None /\ queue W = [] /\ submitted W = []
  /\ promises W !! 0%nat = Some Deferred.Pending /\ (0 < next_promise W)%nat
  /\ disk W = files.

(** ** Health and liveness of a running store *)

(** The promise of a job's callback, for the jobs that have one of their
    own. *)
Definition deferred_of (j : job) : option nat :=
  match j with
  | JobOpen _ _ _ | JobExec _ _ => None
  | JobClose d | JobRun _ d | JobAllProfile _ d | JobAllEvent _ d | JobAllMetric _ d => Some d
  end.


(** The params column of every row is JSON text. *)
Definition readable_rows (rows : list ExperimentProfileRow.t) : Prop :=
  Forall (fun row => exists v, JSON.parse (ExperimentProfileRow.params row) = Return v) rows.

(** The same of every database in the file system. *)
Definition readable (files : gmap jstring Database) : Prop :=
  forall f t, files !! f = Some (Some t) -> readable_rows (ExperimentProfileTable t).

(** A job that will leave the files readable. *)
Definition writes_readable (j : job) : Prop :=
  match j with
  | JobRun (InsertExperimentProfile row) _ =>
    exists v, JSON.parse (ExperimentProfileRow.params row) = Return v
  | _ => True
  end.

(** The profiles a run stores have parameters that JSON text denotes. *)
Definition stores_well_formed (events : list event) : Prop :=
  Forall (fun ev => match ev with
                    | Call (StoreExperimentProfile exp) =>
                      JSON.well_formed (ExperimentProfile.params exp) = true
                    | _ => True
                    end) events.

(** What makes every callback return: no exception so far, readable
    files, a queue that keeps them readable, and the fields and promises
    that the queued callbacks will use. *)
Definition healthy (W : World) : Prop :=
  uncaught W = []
  /\ readable (disk W)
  /\ Forall writes_readable (queue W)
  /\ (queue W <> [] -> db W <> None)
  /\ (db W <> None -> exists t, initTask W = Some t /\ (t < next_promise W)%nat)
  /\ (forall d, (d < next_promise W)%nat -> is_Some (promises W !! d))
  /\ Forall (fun j => forall d, deferred_of j = Some d -> (d < next_promise W)%nat) (queue W).

(** A step that settles promises and nothing else. *)
Definition only_settles (W W' : World) : Prop :=
  next_promise W' = next_promise W /\ db W' = db W /\ initTask W' = initTask W
  /\ disk W' = disk W /\ opened W' = opened W /\ queue W' = queue W
  /\ uncaught W' = uncaught W
  /\ forall d, is_Some (promises W !! d) -> is_Some (promises W' !! d).

(** What the driver's own part of a job leaves alone: everything but the
    files and the connection. *)
Definition only_files (W W' : World) : Prop :=
  promises W' = promises W /\ next_promise W' = next_promise W /\ awaiting W' = awaiting W
  /\ db W' = db W /\ initTask W' = initTask W /\ queue W' = queue W
  /\ submitted W' = submitted W /\ uncaught W' = uncaught W.




(** *** Further example data *)

(** The database file of the example directory. *)
Definition data_file : jstring := path_join data_dir (js "nni.sqlite").

(** An error the driver may report for any job. *)
Definition SQLITE_BUSY : Error := SqliteError (js "SQLITE_BUSY").

(** A database file written by another program: the second profile's
    parameters are not JSON. *)
Definition foreign_tables : Tables :=
  mkTables [] []
    [ExperimentProfileRow.mk (js "{}") (js "exp1") 10 None None 1;
     ExperimentProfileRow.mk (js "{lr: 0.1}") (js "exp1") 20 None None 2].

(** A new instance that has opened it. *)
Definition foreign_store : World :=
  snd (run [Call (Init false data_dir); Complete None]
           (fresh [data_dir] {[ data_file := Some foreign_tables ]})).

(** A session: the store is created, one profile stored and the latest
    asked for. *)
Definition session : list event :=
  [Call (Init true data_dir); Complete None; Complete None;
   Call (StoreExperimentProfile (exp1 1)); Complete None;
   Call (QueryLatestExperimentProfile (js "exp1")); Complete None].

(** * Properties *)

(** ** JSON.parse inverts JSON.stringify *)

Module JSONFacts.
Import JSON JSONShape.

(** Structural induction on values, with the hypothesis for every element
    of an array and every member of an object. *)
Lemma value_ind (P : value -> Prop) :
  P JNull ->
  (forall b, P (JBool b)) ->
  (forall n, P (JNum n)) ->
  (forall s, P (JStr s)) ->
  (forall vs, Forall P vs -> P (JArr vs)) ->
  (forall kvs, Forall (fun kv => P (snd kv)) kvs -> P (JObj kvs)) ->
  forall v, P v.
Proof.
  intros Hnull Hbool Hnum Hstr Harr Hobj.
  fix IH 1. intros [ | b | n | s | vs | kvs ].
  - exact Hnull.
  - apply Hbool.
  - apply Hnum.
  - apply Hstr.
  - apply Harr. induction vs as [ | v vs IHvs ]; constructor; [ apply IH | exact IHvs ].
  - apply Hobj. induction kvs as [ | [k v] kvs IHkvs ]; constructor; [ apply IH | exact IHkvs ].
Qed.

Lemma hex_val_hex_digit d : d < 16 -> hex_val (hex_digit d) = Some d.
Proof.
  intros Hd. unfold hex_val, hex_digit.
  destruct (N.ltb_spec d 10).
  - replace ((48 <=? 48 + d) && (48 + d <=? 57)) with true.
    + f_equal. lia.
    + symmetry. apply andb_true_iff. split; apply N.leb_le; lia.
  - replace ((48 <=? 87 + d) && (87 + d <=? 57)) with false.
    + replace ((97 <=? 87 + d) && (87 + d <=? 102)) with true.
      * f_equal. lia.
      * symmetry. apply andb_true_iff. split; apply N.leb_le; lia.
    + symmetry. apply andb_false_iff. right. apply N.leb_gt. lia.
Qed.

Lemma parse_string_body_unit c t :
  parse_string_body (quote_unit c ++ t) =
  match parse_string_body t with
  | Some (u, r) => Some (c :: u, r)
  | None => None
  end.
Proof.
  unfold quote_unit.
  destruct (N.eqb_spec c 8) as [-> | H8]; [ reflexivity | ].
  destruct (N.eqb_spec c 9) as [-> | H9]; [ reflexivity | ].
  destruct (N.eqb_spec c 10) as [-> | H10]; [ reflexivity | ].
  destruct (N.eqb_spec c 12) as [-> | H12]; [ reflexivity | ].
  destruct (N.eqb_spec c 13) as [-> | H13]; [ reflexivity | ].
  destruct (N.eqb_spec c 34) as [-> | H34]; [ reflexivity | ].
  destruct (N.eqb_spec c 92) as [-> | H92]; [ reflexivity | ].
  destruct (N.ltb_spec c 32) as [Hlt | Hge].
  - change (js "\u00" ++ [hex_digit (c / 16); hex_digit (c mod 16)])
      with [92; 117; 48; 48; hex_digit (c / 16); hex_digit (c mod 16)].
    cbn [app parse_string_body].
    change (92 =? 34) with false. change (92 =? 92) with true.
    change (117 =? 117) with true. cbv iota.
    change (hex_val 48) with (Some 0).
    rewrite !hex_val_hex_digit.
    + replace (((0 * 16 + 0) * 16 + c / 16) * 16 + c mod 16) with c; [ reflexivity | ].
      pose proof (N.div_mod c 16). lia.
    + apply N.mod_lt. lia.
    + apply N.Div0.div_lt_upper_bound. lia.
  - cbn [app parse_string_body].
    destruct (N.eqb_spec c 34); [ contradiction | ].
    destruct (N.eqb_spec c 92); [ contradiction | ].
    destruct (N.ltb_spec c 32); [ lia | ]. reflexivity.
Qed.

Lemma parse_string_body_quote s rest :
  parse_string_body (concat (map quote_unit s) ++ 34 :: rest) = Some (s, rest).
Proof.
  induction s as [ | c s IH ].
  - reflexivity.
  - cbn [map concat]. rewrite <- app_assoc, parse_string_body_unit, IH. reflexivity.
Qed.

Lemma is_digit_char d : d < 10 -> is_digit (48 + d) = true.
Proof.
  intros Hd. unfold is_digit. apply andb_true_iff. split; apply N.leb_le; lia.
Qed.

Lemma span_digits_stop rest :
  match rest with [] => True | c :: _ => is_digit c = false end ->
  span_digits rest = ([], rest).
Proof.
  destruct rest as [ | c r ]; [ reflexivity | ]. cbn. intros ->. reflexivity.
Qed.

Lemma span_digits_chars ds rest :
  forallb (fun d => d <? 10) ds = true ->
  match rest with [] => True | c :: _ => is_digit c = false end ->
  span_digits (digit_chars ds ++ rest) = (ds, rest).
Proof.
  intros Hds Hrest. induction ds as [ | d ds IH ].
  - apply span_digits_stop, Hrest.
  - cbn in Hds. apply andb_true_iff in Hds as [Hd Hds]. apply N.ltb_lt in Hd.
    cbn [digit_chars map app span_digits]. rewrite is_digit_char by exact Hd.
    fold (digit_chars ds). rewrite (IH Hds). f_equal. f_equal. lia.
Qed.

Lemma strip_zeros_repeat m ds : strip_zeros (repeat 0 m ++ ds) = strip_zeros ds.
Proof. induction m as [ | m IH ]; [ reflexivity | exact IH ]. Qed.

Lemma rev_repeat_zero m : rev (repeat 0 m) = repeat 0 m.
Proof.
  induction m as [ | m IH ]; [ reflexivity | ].
  cbn [repeat rev]. rewrite IH. symmetry. apply repeat_cons.
Qed.

Lemma strip_trailing_zeros_repeat ds m :
  strip_trailing_zeros (ds ++ repeat 0 m) = strip_trailing_zeros ds.
Proof.
  unfold strip_trailing_zeros. rewrite rev_app_distr, rev_repeat_zero, strip_zeros_repeat.
  reflexivity.
Qed.

Lemma uint_of_digits_of_uint u : uint_of_digits (digits_of_uint u) = u.
Proof. induction u; cbn; rewrite ?IHu; reflexivity. Qed.

Lemma decimal_value_digits n : decimal_value (decimal_digits n) = n.
Proof.
  unfold decimal_value, decimal_digits. rewrite uint_of_digits_of_uint.
  apply DecimalN.Unsigned.of_to.
Qed.

Lemma digits_of_uint_ok u : forallb (fun d => d <? 10) (digits_of_uint u) = true.
Proof. induction u; cbn; auto. Qed.

Lemma decimal_digits_nonempty n : decimal_digits n <> [].
Proof.
  unfold decimal_digits. destruct n as [ | p ]; [ discriminate | ].
  cbn. pose proof (DecimalPos.Unsigned.to_uint_nonnil p) as Hnil.
  destruct (Pos.to_uint p); [ contradiction | discriminate .. ].
Qed.
Ltac js_norm :=
  repeat match goal with
         | |- context [js ?s] =>
           let v := eval vm_compute in (js s) in change (js s) with v
         end.

Lemma number_stop_no_digit rest : number_stop rest = true -> no_digit_ahead rest.
Proof.
  destruct rest as [ | c r ]; [ exact (fun _ => I) | ]. cbn.
  destruct (is_digit c); [ discriminate | reflexivity ].
Qed.

Lemma number_stop_no_point rest : number_stop rest = true -> parse_fraction rest = Some ([], rest).
Proof.
  destruct rest as [ | c r ]; [ reflexivity | ]. cbn.
  destruct (c =? 46); [ | reflexivity ].
  rewrite andb_false_r. discriminate.
Qed.

Lemma number_stop_no_exponent rest :
  number_stop rest = true -> parse_exponent rest = Some (0%Z, rest).
Proof.
  destruct rest as [ | c r ]; [ reflexivity | ]. cbn.
  destruct (c =? 101); [ rewrite andb_false_r; discriminate | ].
  destruct (c =? 69); [ rewrite andb_false_r; discriminate | reflexivity ].
Qed.

Lemma strip_zeros_length ds : (length (strip_zeros ds) <= length ds)%nat.
Proof.
  induction ds as [ | d ds IH ]; [ reflexivity | ]. cbn.
  destruct (d =? 0); cbn; lia.
Qed.

Lemma strip_zeros_head d ds : strip_zeros (d :: ds) = d :: ds -> d <> 0.
Proof.
  intros H ->. cbn in H. pose proof (strip_zeros_length ds) as Hlen.
  rewrite H in Hlen. cbn in Hlen. lia.
Qed.

Lemma parse_int_part_digits d ds rest :
  d <> 0 -> forallb (fun d => d <? 10) (d :: ds) = true -> no_digit_ahead rest ->
  parse_int_part (digit_chars (d :: ds) ++ rest) = Some (d :: ds, rest).
Proof.
  intros Hd Hall Hrest. unfold parse_int_part.
  rewrite (span_digits_chars (d :: ds) rest Hall Hrest).
  cbn [digit_chars map app].
  destruct (N.eqb_spec (48 + d) 48); [ lia | reflexivity ].
Qed.

Lemma parse_fraction_digits d ds rest :
  forallb (fun d => d <? 10) (d :: ds) = true -> no_digit_ahead rest ->
  parse_fraction (46 :: digit_chars (d :: ds) ++ rest) = Some (d :: ds, rest).
Proof.
  intros Hall Hrest. unfold parse_fraction. change (46 =? 46) with true. cbv iota.
  rewrite (span_digits_chars (d :: ds) rest Hall Hrest). reflexivity.
Qed.

Lemma parse_exponent_text e rest :
  no_digit_ahead rest -> parse_exponent (exponent_text e ++ rest) = Some (e, rest).
Proof.
  intros Hrest. unfold exponent_text, parse_exponent.
  pose proof (decimal_digits_nonempty (Z.to_N (Z.abs e))) as Hne.
  pose proof (span_digits_chars (decimal_digits (Z.to_N (Z.abs e))) rest
                (digits_of_uint_ok _) Hrest) as Hspan.
  pose proof (decimal_value_digits (Z.to_N (Z.abs e))) as Hval.
  js_norm. cbn [app]. change (101 =? 101) with true. cbn [orb].
  destruct (Z.ltb_spec e 0).
  - cbn [app]. change (45 =? 45) with true. cbv iota.
    rewrite Hspan. destruct (decimal_digits (Z.to_N (Z.abs e))); [ contradiction | ].
    rewrite Hval. f_equal. f_equal. lia.
  - cbn [app]. change (43 =? 45) with false. change (43 =? 43) with true. cbv iota.
    rewrite Hspan. destruct (decimal_digits (Z.to_N (Z.abs e))); [ contradiction | ].
    rewrite Hval. f_equal. f_equal. lia.
Qed.

Lemma exponent_text_head e t : exists r, exponent_text e ++ t = 101 :: r.
Proof. eexists. reflexivity. Qed.

Lemma strip_zeros_nonzero d ds : d <> 0 -> strip_zeros (d :: ds) = d :: ds.
Proof. intros Hd. cbn. destruct (N.eqb_spec d 0); [ contradiction | reflexivity ]. Qed.

(** The literal [0...0 d1...dk 0...0], split anywhere into integer and
    fraction digits, denotes the number with digits [d1...dk]. *)
Lemma number_of_literal_padded neg int frac ex p q d ds :
  strip_zeros (d :: ds) = d :: ds ->
  strip_trailing_zeros (d :: ds) = d :: ds ->
  int ++ frac = repeat 0 p ++ (d :: ds) ++ repeat 0 q ->
  number_of_literal neg int frac ex
  = Num neg (d :: ds) (Z.of_nat (length int) + ex - Z.of_nat p).
Proof.
  intros Hlead Htrail Hall. unfold number_of_literal. rewrite Hall.
  rewrite strip_zeros_repeat. cbn [app].
  rewrite (strip_zeros_nonzero d (ds ++ repeat 0 q) (strip_zeros_head d ds Hlead)).
  change (d :: ds ++ repeat 0 q) with ((d :: ds) ++ repeat 0 q).
  rewrite strip_trailing_zeros_repeat, Htrail.
  f_equal. rewrite !length_app, repeat_length. cbn [length]. lia.
Qed.

Lemma forallb_take {A} (f : A -> bool) n l : forallb f l = true -> forallb f (take n l) = true.
Proof.
  revert n. induction l as [ | a l IH ]; intros [ | n ] H; try reflexivity.
  cbn in *. apply andb_true_iff in H as [-> H]. cbn. auto.
Qed.

Lemma forallb_drop {A} (f : A -> bool) n l : forallb f l = true -> forallb f (drop n l) = true.
Proof.
  revert n. induction l as [ | a l IH ]; intros [ | n ] H; try reflexivity; [ exact H | ].
  cbn in *. apply andb_true_iff in H as [_ H]. auto.
Qed.

Lemma forallb_zeros_app m ds :
  forallb (fun d => d <? 10) ds = true ->
  forallb (fun d => d <? 10) (repeat 0 m ++ ds) = true.
Proof. intros H. induction m as [ | m IH ]; [ exact H | exact IH ]. Qed.

Lemma forallb_app_zeros ds m :
  forallb (fun d => d <? 10) ds = true ->
  forallb (fun d => d <? 10) (ds ++ repeat 0 m) = true.
Proof.
  intros H. rewrite forallb_app, H. cbn. induction m as [ | m IH ]; [ reflexivity | exact IH ].
Qed.

Lemma parse_unsigned_to_string neg d ds n rest :
  number_ok (Num neg (d :: ds) n) = true ->
  number_stop rest = true ->
  parse_unsigned neg (number_to_string (Num false (d :: ds) n) ++ rest)
  = Some (Num neg (d :: ds) n, rest).
Proof.
  unfold number_ok. cbn [digits negative point]. rewrite andb_true_r.
  intros Hok Hstop.
  apply andb_true_iff in Hok as [Hok Htrail]. apply andb_true_iff in Hok as [Hall Hlead].
  apply bool_decide_eq_true in Hlead, Htrail.
  pose proof (strip_zeros_head d ds Hlead) as Hd.
  pose proof (number_stop_no_digit rest Hstop) as Hnodigit.
  unfold number_to_string. cbn [digits negative point app].
  set (k := Z.of_nat (length (d :: ds))).
  destruct ((k <=? n) && (n <=? 21))%Z eqn:Hplain.
  { (* digits followed by zeros *)
    apply andb_true_iff in Hplain as [Hkn _]. apply Z.leb_le in Hkn.
    unfold parse_unsigned, zeros.
    change ((d :: ds) ++ repeat 0 (Z.to_nat (n - k)))
      with (d :: (ds ++ repeat 0 (Z.to_nat (n - k)))).
    rewrite parse_int_part_digits; [ | exact Hd | | exact Hnodigit ].
    2:{ change (d :: ds ++ repeat 0 (Z.to_nat (n - k)))
          with ((d :: ds) ++ repeat 0 (Z.to_nat (n - k))).
        apply forallb_app_zeros, Hall. }
    rewrite (number_stop_no_point rest Hstop), (number_stop_no_exponent rest Hstop).
    rewrite (number_of_literal_padded neg _ [] 0 0 (Z.to_nat (n - k)) d ds Hlead Htrail).
    - do 2 f_equal. f_equal. cbn [length]. rewrite length_app, repeat_length.
      subst k. cbn [length] in *. lia.
    - rewrite app_nil_r. reflexivity. }
  destruct ((0 <? n) && (n <=? 21))%Z eqn:Hpoint.
  { (* a decimal point inside the digits *)
    apply andb_true_iff in Hpoint as [Hn Hn21]. apply Z.ltb_lt in Hn.
    apply andb_false_iff in Hplain as [Hkn | Hbig]; [ apply Z.leb_gt in Hkn | congruence ].
    destruct (Z.to_nat n) as [ | m ] eqn:Hm; [ lia | ].
    assert (Hmlen : (m < length ds)%nat) by (subst k; cbn [length] in *; lia).
    cbn [take drop]. js_norm. rewrite <- app_assoc. cbn [app].
    unfold parse_unsigned.
    rewrite parse_int_part_digits; [ | exact Hd | | reflexivity ].
    2:{ apply (forallb_take _ (S m) (d :: ds)), Hall. }
    destruct (drop m ds) as [ | f fs ] eqn:Hdrop.
    { apply (f_equal length) in Hdrop. rewrite length_drop in Hdrop. cbn in Hdrop. lia. }
    rewrite parse_fraction_digits; [ | | exact Hnodigit ].
    2:{ rewrite <- Hdrop. apply (forallb_drop _ (S m) (d :: ds)), Hall. }
    rewrite (number_stop_no_exponent rest Hstop).
    rewrite (number_of_literal_padded neg _ _ 0 0 0 d ds Hlead Htrail).
    - do 2 f_equal. f_equal. cbn [length]. rewrite length_take. lia.
    - rewrite <- Hdrop. cbn [app repeat]. rewrite app_nil_r. f_equal. apply take_drop. }
  destruct ((-6 <? n) && (n <=? 0))%Z eqn:Hsmall.
  { (* zero, point, zeros, digits *)
    apply andb_true_iff in Hsmall as [_ Hn]. apply Z.leb_le in Hn.
    js_norm. cbn [app]. unfold parse_unsigned.
    change (parse_int_part (48 :: 46 :: digit_chars (zeros (- n) ++ d :: ds) ++ rest))
      with (Some ([0], 46 :: digit_chars (zeros (- n) ++ d :: ds) ++ rest)).
    cbv iota beta.
    assert (Hfrac : parse_fraction (46 :: digit_chars (zeros (- n) ++ d :: ds) ++ rest)
                    = Some (zeros (- n) ++ d :: ds, rest)).
    { pose proof (forallb_zeros_app (Z.to_nat (- n)) (d :: ds) Hall) as Hall'.
      unfold zeros. destruct (repeat 0 (Z.to_nat (- n)) ++ d :: ds) as [ | z zs ] eqn:Hz.
      - destruct (repeat 0 (Z.to_nat (- n))); discriminate.
      - apply parse_fraction_digits; assumption. }
    rewrite Hfrac, (number_stop_no_exponent rest Hstop).
    rewrite (number_of_literal_padded neg _ _ 0 (S (Z.to_nat (- n))) 0 d ds Hlead Htrail).
    - do 2 f_equal. f_equal. cbn [length]. lia.
    - cbn [app repeat]. rewrite app_nil_r. reflexivity. }
  (* exponent notation *)
  destruct ds as [ | f fs ].
  - unfold parse_unsigned.
    rewrite <- app_assoc.
    rewrite (parse_int_part_digits d [] _ Hd Hall); [ | reflexivity ].
    destruct (exponent_text_head (n - 1) rest) as [t Ht]. rewrite Ht at 1.
    change (parse_fraction (101 :: t)) with (Some (@nil N, 101 :: t)). cbv iota beta.
    rewrite <- Ht, (parse_exponent_text (n - 1) rest Hnodigit).
    rewrite (number_of_literal_padded neg _ _ _ 0 0 d [] Hlead Htrail); [ | reflexivity ].
    do 2 f_equal. f_equal. cbn [length]. lia.
  - unfold parse_unsigned. js_norm.
    rewrite <- !app_assoc. cbn [app].
    rewrite (parse_int_part_digits d [] (46 :: _) Hd); [ | | reflexivity ].
    2:{ cbn in Hall |- *. apply andb_true_iff in Hall as [-> _]. reflexivity. }
    rewrite parse_fraction_digits.
    + rewrite (parse_exponent_text (n - 1) rest Hnodigit).
      rewrite (number_of_literal_padded neg _ _ _ 0 0 d (f :: fs) Hlead Htrail).
      * do 2 f_equal. f_equal. cbn [length]. lia.
      * cbn [app repeat]. rewrite app_nil_r. reflexivity.
    + cbn in Hall |- *. apply andb_true_iff in Hall as [_ ->]. reflexivity.
    + destruct (exponent_text_head (n - 1) rest) as [t ->]. reflexivity.
Qed.

Lemma parse_number_to_string x rest :
  number_ok x = true -> number_stop rest = true ->
  parse_number (number_to_string x ++ rest) = Some (x, rest).
Proof.
  intros Hok Hstop. destruct x as [neg [ | d ds ] n].
  - (* zero *)
    unfold number_ok in Hok. cbn [digits negative point] in Hok.
    cbn in Hok. apply andb_true_iff in Hok as [Hneg Hn].
    destruct neg; [ discriminate | ]. apply Z.eqb_eq in Hn. subst n.
    change (number_to_string (Num false [] 0)) with [48]. cbn [app].
    unfold parse_number. change (48 =? 45) with false. cbv iota.
    unfold parse_unsigned. change (parse_int_part (48 :: rest)) with (Some ([0], rest)).
    cbv iota beta.
    rewrite (number_stop_no_point rest Hstop), (number_stop_no_exponent rest Hstop).
    reflexivity.
  - pose proof (parse_unsigned_to_string neg d ds n rest Hok Hstop) as Hu.
    destruct neg.
    + change (number_to_string (Num true (d :: ds) n))
        with (45 :: number_to_string (Num false (d :: ds) n)).
      cbn [app]. unfold parse_number. change (45 =? 45) with true. cbv iota. exact Hu.
    + assert (Hhead : exists c t, number_to_string (Num false (d :: ds) n) ++ rest = c :: t
                                  /\ (c =? 45) = false).
      { unfold number_to_string. cbn [digits negative point app].
        assert (H48 : (48 + d =? 45) = false) by (apply N.eqb_neq; lia).
        destruct ((_ <=? n) && (n <=? 21))%Z; [ eexists _, _; split; [ reflexivity | exact H48 ] | ].
        destruct ((0 <? n) && (n <=? 21))%Z.
        { destruct (Z.to_nat n); [ | eexists _, _; split; [ reflexivity | exact H48 ] ].
          eexists _, _; split; [ reflexivity | reflexivity ]. }
        destruct ((-6 <? n) && (n <=? 0))%Z; [ eexists _, _; split; reflexivity | ].
        destruct ds; eexists _, _; (split; [ reflexivity | exact H48 ]). }
      destruct Hhead as (c & t & Heq & Hc).
      unfold parse_number. rewrite Heq at 1. rewrite Hc. exact Hu.
Qed.

Lemma value_stop_number_stop rest : value_stop rest = true -> number_stop rest = true.
Proof.
  destruct rest as [ | c r ]; [ reflexivity | ]. cbn.
  intros H. apply orb_true_iff in H as [H | H]; [ apply orb_true_iff in H as [H | H] | ];
    apply N.eqb_eq in H; subst c; reflexivity.
Qed.

Lemma value_stop_skip_ws rest : value_stop rest = true -> skip_ws rest = rest.
Proof.
  destruct rest as [ | c r ]; [ reflexivity | ]. cbn.
  intros H. apply orb_true_iff in H as [H | H]; [ apply orb_true_iff in H as [H | H] | ];
    apply N.eqb_eq in H; subst c; reflexivity.
Qed.

Lemma number_to_string_start x rest :
  number_ok x = true ->
  exists c t, number_to_string x ++ rest = c :: t /\ number_start c = true.
Proof.
  intros Hok. destruct x as [neg [ | d ds ] n]; [ eexists _, _; split; reflexivity | ].
  destruct neg; [ eexists _, _; split; reflexivity | ].
  assert (Hd : number_start (48 + d) = true).
  { unfold number_ok in Hok. cbn [digits forallb] in Hok.
    apply andb_true_iff in Hok as [Hok _]. apply andb_true_iff in Hok as [Hok _].
    apply andb_true_iff in Hok as [Hok _]. apply andb_true_iff in Hok as [Hlt _].
    apply N.ltb_lt in Hlt. unfold number_start. rewrite is_digit_char by exact Hlt.
    apply orb_true_r. }
  unfold number_to_string. cbn [digits negative point app].
  destruct ((_ <=? n) && (n <=? 21))%Z; [ eexists _, _; split; [ reflexivity | exact Hd ] | ].
  destruct ((0 <? n) && (n <=? 21))%Z eqn:Hpoint.
  { apply andb_true_iff in Hpoint as [Hn _]. apply Z.ltb_lt in Hn.
    destruct (Z.to_nat n) eqn:Hm; [ lia | ].
    eexists _, _; split; [ reflexivity | exact Hd ]. }
  destruct ((-6 <? n) && (n <=? 0))%Z; [ eexists _, _; split; reflexivity | ].
  destruct ds; eexists _, _; (split; [ reflexivity | exact Hd ]).
Qed.

Lemma number_start_tests c :
  number_start c = true ->
  is_ws c = false /\ (c =? 123) = false /\ (c =? 91) = false /\ (c =? 34) = false
  /\ (c =? 116) = false /\ (c =? 102) = false /\ (c =? 110) = false.
Proof.
  unfold number_start, is_digit, is_ws. intros H.
  assert (Hc : c = 45 \/ (48 <= c /\ c <= 57)).
  { apply orb_true_iff in H as [H | H]; [ left; apply N.eqb_eq, H | right ].
    apply andb_true_iff in H as [H1 H2]. split; apply N.leb_le; assumption. }
  repeat split; repeat (apply orb_false_iff; split); apply N.eqb_neq; lia.
Qed.

Lemma parse_value_number fuel c t :
  number_start c = true ->
  parse_value (S fuel) (c :: t)
  = match parse_number (c :: t) with
    | Some (n, r) => Some (JNum n, r)
    | None => None
    end.
Proof.
  intros H. apply number_start_tests in H as (Hws & H1 & H2 & H3 & H4 & H5 & H6).
  cbn [parse_value skip_ws]. rewrite Hws, H1, H2, H3, H4, H5, H6. reflexivity.
Qed.

Lemma stringify_start v rest :
  well_formed v = true ->
  exists c t, stringify v ++ rest = c :: t /\ value_start c = true.
Proof.
  intros Hwf. destruct v as [ | [ | ] | n | s | vs | kvs ];
    try (eexists _, _; split; reflexivity).
  destruct (number_to_string_start n rest Hwf) as (c & t & Heq & Hc).
  exists c, t. split; [ exact Heq | ]. unfold value_start. rewrite Hc. reflexivity.
Qed.

Lemma value_start_tests c :
  value_start c = true -> is_ws c = false /\ (c =? 93) = false /\ (c =? 125) = false.
Proof.
  unfold value_start. intros H.
  repeat (apply orb_true_iff in H as [H | H]);
    try (apply N.eqb_eq in H; subst c; repeat split; reflexivity).
  unfold is_ws. apply andb_true_iff in H as [H1 H2].
  apply N.leb_le in H1, H2.
  repeat split; repeat (apply orb_false_iff; split); apply N.eqb_neq; lia.
Qed.

Lemma define_fresh kvs k v :
  k ∉ map fst kvs -> define kvs k v = kvs ++ [(k, v)].
Proof.
  induction kvs as [ | [k' v'] kvs IH ]; intros Hk; [ reflexivity | ].
  cbn in Hk |- *. apply not_elem_of_cons in Hk as [Hne Hk].
  unfold jstring_eqb. rewrite bool_decide_eq_false_2 by congruence.
  rewrite IH by exact Hk. reflexivity.
Qed.

Lemma fold_define acc kvs :
  NoDup (map fst (acc ++ kvs)) ->
  fold_left (fun o kv => define o (fst kv) (snd kv)) kvs acc = acc ++ kvs.
Proof.
  revert acc. induction kvs as [ | [k v] kvs IH ]; intros acc Hnd.
  - cbn. rewrite app_nil_r. reflexivity.
  - cbn [fold_left fst snd]. rewrite define_fresh.
    + rewrite IH; rewrite <- app_assoc; [ reflexivity | exact Hnd ].
    + rewrite map_app in Hnd. apply NoDup_app in Hnd as (_ & Hdisj & _).
      intros Hin. apply (Hdisj k Hin). cbn. apply elem_of_cons. left. reflexivity.
Qed.

Lemma object_of_members kvs : NoDup (map fst kvs) -> object_of kvs = JObj kvs.
Proof. intros Hnd. unfold object_of. rewrite (fold_define [] kvs Hnd). reflexivity. Qed.

Lemma parse_value_array fuel r :
  parse_value (S fuel) (91 :: r)
  = match skip_ws r with
    | c1 :: r1 =>
      if c1 =? 93 then Some (JArr [], r1)
      else match parse_elements fuel r with
           | Some (vs, r2) => Some (JArr vs, r2)
           | None => None
           end
    | [] => None
    end.
Proof. reflexivity. Qed.

Lemma parse_value_object fuel r :
  parse_value (S fuel) (123 :: r)
  = match skip_ws r with
    | c1 :: r1 =>
      if c1 =? 125 then Some (JObj [], r1)
      else match parse_members fuel r with
           | Some (kvs, r2) => Some (object_of kvs, r2)
           | None => None
           end
    | [] => None
    end.
Proof. reflexivity. Qed.

Lemma parse_value_string fuel r :
  parse_value (S fuel) (34 :: r)
  = match parse_string_body r with
    | Some (t, r1) => Some (JStr t, r1)
    | None => None
    end.
Proof. reflexivity. Qed.

Lemma parse_elements_S fuel s :
  parse_elements (S fuel) s
  = match parse_value fuel s with
    | None => None
    | Some (v, r) =>
      match skip_ws r with
      | c :: r1 =>
        if c =? 44 then
          match parse_elements fuel r1 with
          | Some (vs, r2) => Some (v :: vs, r2)
          | None => None
          end
        else if c =? 93 then Some ([v], r1)
        else None
      | [] => None
      end
    end.
Proof. reflexivity. Qed.

Lemma parse_members_S fuel r :
  parse_members (S fuel) (34 :: r)
  = match parse_string_body r with
    | None => None
    | Some (k, r1) =>
      match skip_ws r1 with
      | c1 :: r2 =>
        if c1 =? 58 then
          match parse_value fuel r2 with
          | None => None
          | Some (v, r3) =>
            match skip_ws r3 with
            | c2 :: r4 =>
              if c2 =? 44 then
                match parse_members fuel r4 with
                | Some (kvs, r5) => Some ((k, v) :: kvs, r5)
                | None => None
                end
              else if c2 =? 125 then Some ([(k, v)], r4)
              else None
            | [] => None
            end
          end
        else None
      | [] => None
      end
    end.
Proof. reflexivity. Qed.

Lemma parse_elements_join v vs fuel rest :
  Forall reads_back (v :: vs) ->
  forallb well_formed (v :: vs) = true ->
  (elements_size (v :: vs) <= fuel)%nat ->
  parse_elements fuel (join [44] (map stringify (v :: vs)) ++ 93 :: rest)
  = Some (v :: vs, rest).
Proof.
  revert v fuel. induction vs as [ | w ws IH ]; intros v fuel Hrb Hwf Hfuel.
  - apply Forall_cons_1 in Hrb as [Hv _]. cbn in Hwf. rewrite andb_true_r in Hwf.
    destruct fuel as [ | fuel ]; [ cbn in Hfuel; lia | ].
    rewrite parse_elements_S. cbn [map join].
    rewrite (Hv Hwf fuel (93 :: rest)); [ reflexivity | cbn in Hfuel; lia | reflexivity ].
  - apply Forall_cons_1 in Hrb as [Hv Hrb].
    cbn [forallb] in Hwf. apply andb_true_iff in Hwf as [Hwfv Hwf].
    destruct fuel as [ | fuel ]; [ cbn in Hfuel; lia | ].
    rewrite parse_elements_S.
    change (join [44] (map stringify (v :: w :: ws)))
      with (stringify v ++ [44] ++ join [44] (map stringify (w :: ws))).
    rewrite <- !app_assoc.
    change (elements_size (v :: w :: ws))
      with (S (size v) + elements_size (w :: ws))%nat in Hfuel.
    rewrite (Hv Hwfv fuel); [ | lia | reflexivity ].
    cbn [app skip_ws]. change (is_ws 44) with false. change (44 =? 44) with true.
    cbv iota. rewrite (IH w fuel Hrb Hwf); [ reflexivity | lia ].
Qed.

Lemma parse_members_join kv kvs fuel rest :
  Forall (fun kv => reads_back (snd kv)) (kv :: kvs) ->
  forallb (fun kv => well_formed (snd kv)) (kv :: kvs) = true ->
  (members_size (kv :: kvs) <= fuel)%nat ->
  parse_members fuel (join [44] (map (member_text stringify) (kv :: kvs)) ++ 125 :: rest)
  = Some (kv :: kvs, rest).
Proof.
  revert kv fuel. induction kvs as [ | kw kws IH ]; intros [k v] fuel Hrb Hwf Hfuel.
  - apply Forall_cons_1 in Hrb as [Hv _]. cbn in Hwf. rewrite andb_true_r in Hwf.
    destruct fuel as [ | fuel ]; [ cbn in Hfuel; lia | ].
    cbn [map join]. unfold member_text, quote. cbn [fst snd].
    js_norm. rewrite <- !app_assoc. cbn [app]. rewrite <- !app_assoc.
    rewrite parse_members_S. cbn [app]. rewrite parse_string_body_quote.
    cbn [skip_ws]. change (is_ws 58) with false. change (58 =? 58) with true. cbv iota.
    cbn in Hv. rewrite (Hv Hwf fuel (125 :: rest)); [ reflexivity | cbn in Hfuel; lia | reflexivity ].
  - apply Forall_cons_1 in Hrb as [Hv Hrb].
    cbn [forallb snd] in Hwf. apply andb_true_iff in Hwf as [Hwfv Hwf].
    destruct fuel as [ | fuel ]; [ cbn in Hfuel; lia | ].
    change (join [44] (map (member_text stringify) ((k, v) :: kw :: kws)))
      with (member_text stringify (k, v) ++ [44] ++ join [44] (map (member_text stringify) (kw :: kws))).
    change (members_size ((k, v) :: kw :: kws))
      with (S (size v) + members_size (kw :: kws))%nat in Hfuel.
    unfold member_text at 1, quote. cbn [fst snd].
    js_norm. rewrite <- !app_assoc. cbn [app]. rewrite <- !app_assoc.
    rewrite parse_members_S. cbn [app]. rewrite parse_string_body_quote.
    cbn [skip_ws]. change (is_ws 58) with false. change (58 =? 58) with true. cbv iota.
    cbn in Hv. rewrite (Hv Hwfv fuel); [ | lia | reflexivity ].
    cbn [skip_ws]. change (is_ws 44) with false. change (44 =? 44) with true.
    cbv iota. rewrite (IH kw fuel Hrb Hwf); [ reflexivity | lia ].
Qed.

Lemma parse_value_stringify v : reads_back v.
Proof.
  induction v as [ | b | n | s | vs IH | kvs IH ] using value_ind;
    intros Hwf fuel rest Hfuel Hstop;
    (destruct fuel as [ | fuel ]; [ cbn in Hfuel; lia | ]).
  - reflexivity.
  - destruct b; reflexivity.
  - cbn [stringify].
    destruct (number_to_string_start n rest Hwf) as (c & t & Heq & Hc).
    rewrite Heq, (parse_value_number fuel c t Hc), <- Heq.
    rewrite (parse_number_to_string n rest Hwf (value_stop_number_stop rest Hstop)).
    reflexivity.
  - cbn [stringify]. unfold quote. cbn [app]. rewrite parse_value_string.
    rewrite <- app_assoc. cbn [app]. rewrite parse_string_body_quote. reflexivity.
  - cbn [stringify]. js_norm. cbn [app]. rewrite parse_value_array, <- app_assoc.
    cbn [app]. destruct vs as [ | v vs ]; [ reflexivity | ].
    cbn [well_formed] in Hwf.
    rewrite (parse_elements_join v vs fuel rest IH Hwf); [ | cbn in Hfuel |- *; lia ].
    assert (Hhead : exists c t, join [44] (map stringify (v :: vs)) ++ 93 :: rest = c :: t
                                /\ value_start c = true).
    { cbn [forallb] in Hwf. apply andb_true_iff in Hwf as [Hwfv _].
      destruct vs as [ | w ws ].
      - apply (stringify_start v (93 :: rest) Hwfv).
      - change (join [44] (map stringify (v :: w :: ws)))
          with (stringify v ++ [44] ++ join [44] (map stringify (w :: ws))).
        rewrite <- app_assoc. apply (stringify_start v _ Hwfv). }
    destruct Hhead as (c & t & -> & Hc).
    apply value_start_tests in Hc as (Hws & H93 & _).
    cbn [skip_ws]. rewrite Hws, H93. reflexivity.
  - cbn [stringify]. js_norm. cbn [app]. rewrite parse_value_object, <- app_assoc.
    cbn [app]. destruct kvs as [ | kv kvs ]; [ reflexivity | ].
    cbn [well_formed] in Hwf. apply andb_true_iff in Hwf as [Hnd Hwf].
    apply bool_decide_eq_true in Hnd.
    rewrite (parse_members_join kv kvs fuel rest IH Hwf); [ | cbn in Hfuel |- *; lia ].
    rewrite (object_of_members _ Hnd).
    destruct kvs as [ | kw kws ]; reflexivity.
Qed.

Lemma size_le_length v : (size v <= length (stringify v))%nat.
Proof.
  induction v as [ | b | n | s | vs IH | kvs IH ] using value_ind.
  - cbn. lia.
  - destruct b; cbn; lia.
  - cbn [size stringify]. destruct n as [neg [ | d ds ] n]; [ cbn; lia | ].
    unfold number_to_string. cbn [digits negative point].
    rewrite length_app.
    destruct ((_ <=? n) && (n <=? 21))%Z; [ cbn; lia | ].
    destruct ((0 <? n) && (n <=? 21))%Z; [ rewrite !length_app; cbn; lia | ].
    destruct ((-6 <? n) && (n <=? 0))%Z; [ cbn; lia | ].
    destruct ds; cbn; lia.
  - cbn. lia.
  - cbn [size stringify]. js_norm. cbn [app]. cbn [length]. rewrite length_app. cbn [length].
    induction IH as [ | v vs Hv _ IHvs ]; [ cbn; lia | ].
    destruct vs as [ | w ws ]; [ cbn in *; lia | ].
    change (join [44] (map stringify (v :: w :: ws)))
      with (stringify v ++ [44] ++ join [44] (map stringify (w :: ws))).
    rewrite !length_app. cbn [fold_right length] in *. lia.
  - cbn [size stringify]. js_norm. cbn [app]. cbn [length]. rewrite length_app. cbn [length].
    induction IH as [ | [k v] kvs Hv _ IHkvs ]; [ cbn; lia | ].
    destruct kvs as [ | kw kws ].
    + cbn [map join fold_right]. unfold member_text. cbn [fst snd]. rewrite !length_app. cbn [snd] in Hv. cbn [length]. lia.
    + change (join [44] (map (member_text stringify) ((k, v) :: kw :: kws)))
        with (member_text stringify (k, v) ++ [44]
              ++ join [44] (map (member_text stringify) (kw :: kws))).
      rewrite !length_app. unfold member_text at 1. rewrite !length_app.
      cbn [fold_right length fst snd] in *. lia.
Qed.

(** JSON.parse inverts JSON.stringify. *)
Theorem parse_stringify v : well_formed v = true -> parse (stringify v) = Return v.
Proof.
  intros Hwf. unfold parse.
  pose proof (parse_value_stringify v Hwf (2 * length (stringify v) + 2)%nat []) as H.
  rewrite app_nil_r in H. rewrite H; [ reflexivity | | reflexivity ].
  pose proof (size_le_length v). lia.
Qed.

End JSONFacts.

(** ** The fuel of the parser *)

Module JSONFuel.
Import JSON.

Lemma skip_ws_length s : (length (skip_ws s) <= length s)%nat.
Proof.
  induction s as [ | c r IH ]; cbn [skip_ws]; [ lia | ].
  destruct (is_ws c); cbn [length] in *; lia.
Qed.

Lemma skip_ws_cons s c r : skip_ws s = c :: r -> (length r < length s)%nat.
Proof. intros H. pose proof (skip_ws_length s) as Hl. rewrite H in Hl. cbn [length] in Hl. lia. Qed.

Lemma parse_string_body_length s t r :
  parse_string_body s = Some (t, r) -> (length r < length s)%nat.
Proof.
  revert t r. induction s as [s IH] using (induction_ltof1 _ (@length N)). unfold ltof in IH.
  destruct s as [ | c s1 ]; [ discriminate | ]. cbn [parse_string_body].
  intros t r. destruct (c =? 34). { intros [= <- <-]. cbn [length]. lia. }
  destruct (c =? 92).
  - destruct s1 as [ | e s2 ]; [ discriminate | ].
    destruct (e =? 117).
    + destruct s2 as [ | h1 [ | h2 [ | h3 [ | h4 s3 ] ] ] ]; try discriminate.
      destruct (hex_val h1), (hex_val h2), (hex_val h3), (hex_val h4); try discriminate.
      destruct (parse_string_body s3) as [ [t2 r3] | ] eqn:H2; [ | discriminate ].
      intros [= <- <-]. apply IH in H2; cbn [length] in *; lia.
    + destruct (unescape e); [ | discriminate ].
      destruct (parse_string_body s2) as [ [t2 r3] | ] eqn:H2; [ | discriminate ].
      intros [= <- <-]. apply IH in H2; cbn [length] in *; lia.
  - destruct (c <? 32); [ discriminate | ].
    destruct (parse_string_body s1) as [ [t2 r3] | ] eqn:H2; [ | discriminate ].
    intros [= <- <-]. apply IH in H2; cbn [length] in *; lia.
Qed.

Lemma span_digits_length s ds r :
  span_digits s = (ds, r) -> (length r + length ds = length s)%nat.
Proof.
  revert ds r. induction s as [ | c s IH ]; intros ds r; cbn [span_digits].
  - intros [= <- <-]. reflexivity.
  - destruct (is_digit c).
    + destruct (span_digits s) as [ds' r'] eqn:H. intros [= <- <-].
      specialize (IH _ _ eq_refl). cbn [length]. lia.
    + intros [= <- <-]. cbn [length]. lia.
Qed.

Lemma parse_int_part_length s int r :
  parse_int_part s = Some (int, r) -> (length r < length s)%nat.
Proof.
  unfold parse_int_part. destruct s as [ | c s1 ]; [ discriminate | ].
  destruct (c =? 48). { intros [= <- <-]. cbn [length]. lia. }
  destruct (span_digits (c :: s1)) as [ [ | d ds ] r1 ] eqn:H; [ discriminate | ].
  intros [= <- <-]. apply span_digits_length in H. cbn [length] in *. lia.
Qed.

Lemma parse_fraction_length s frac r :
  parse_fraction s = Some (frac, r) -> (length r <= length s)%nat.
Proof.
  unfold parse_fraction. destruct s as [ | c s1 ]; [ intros [= <- <-]; lia | ].
  destruct (c =? 46).
  - destruct (span_digits s1) as [ [ | d ds ] r1 ] eqn:H; [ discriminate | ].
    intros [= <- <-]. apply span_digits_length in H. cbn [length] in *. lia.
  - intros [= <- <-]. lia.
Qed.

Lemma parse_exponent_length s ex r :
  parse_exponent s = Some (ex, r) -> (length r <= length s)%nat.
Proof.
  unfold parse_exponent. destruct s as [ | c s1 ]; [ intros [= <- <-]; lia | ].
  destruct ((c =? 101) || (c =? 69)); [ | intros [= <- <-]; lia ].
  assert (Hsign : (length (snd match s1 with
                               | c1 :: r' =>
                                 if (c1 =? 45)%N then ((-1)%Z, r')
                                 else if (c1 =? 43)%N then (1%Z, r') else (1%Z, s1)
                               | [] => (1%Z, s1)
                               end) <= length s1)%nat).
  { destruct s1 as [ | c1 r' ]; [ cbn; lia | ].
    destruct (c1 =? 45); [ cbn [snd length]; lia | ].
    destruct (c1 =? 43); cbn [snd length]; lia. }
  destruct (match s1 with [] => _ | _ => _ end) as [sign r1]. cbn [snd] in Hsign.
  destruct (span_digits r1) as [ [ | d ds ] r2 ] eqn:H; [ discriminate | ].
  intros [= <- <-]. apply span_digits_length in H. cbn [length] in *. lia.
Qed.

Lemma parse_unsigned_length neg s n r :
  parse_unsigned neg s = Some (n, r) -> (length r < length s)%nat.
Proof.
  unfold parse_unsigned.
  destruct (parse_int_part s) as [ [int s2] | ] eqn:H1; [ | discriminate ].
  destruct (parse_fraction s2) as [ [frac s3] | ] eqn:H2; [ | discriminate ].
  destruct (parse_exponent s3) as [ [ex s4] | ] eqn:H3; [ | discriminate ].
  intros [= <- <-]. apply parse_int_part_length in H1. apply parse_fraction_length in H2.
  apply parse_exponent_length in H3. lia.
Qed.

Lemma parse_number_length s n r : parse_number s = Some (n, r) -> (length r < length s)%nat.
Proof.
  unfold parse_number. destruct s as [ | c s1 ]; [ discriminate | ].
  destruct (c =? 45); intros H; apply parse_unsigned_length in H; cbn [length] in *; lia.
Qed.

Lemma strip_prefix_length p s r : strip_prefix p s = Some r -> (length r <= length s)%nat.
Proof.
  unfold strip_prefix. destruct (bool_decide _); [ | discriminate ].
  intros [= <-]. rewrite length_drop. lia.
Qed.

(** Fuel past twice the length of the text changes nothing: a value read
    with any fuel leaves less text than it was given and is read the same
    with that much. *)
Lemma enough_fuel fuel :
  (forall s v r, parse_value fuel s = Some (v, r) ->
     (length r < length s)%nat
     /\ forall g, (2 * length s <= g)%nat -> parse_value g s = Some (v, r))
  /\ (forall s vs r, parse_elements fuel s = Some (vs, r) ->
     (length r < length s)%nat
     /\ forall g, (2 * length s + 1 <= g)%nat -> parse_elements g s = Some (vs, r))
  /\ (forall s kvs r, parse_members fuel s = Some (kvs, r) ->
     (length r < length s)%nat
     /\ forall g, (2 * length s + 1 <= g)%nat -> parse_members g s = Some (kvs, r)).
Proof.
  induction fuel as [ | fuel (IHv & IHe & IHm) ].
  { repeat split; discriminate. }
  split; [ | split ].
  - intros s v r. cbn [parse_value].
    destruct (skip_ws s) as [ | c r0 ] eqn:Hs; [ discriminate | ].
    pose proof (skip_ws_cons _ _ _ Hs) as Hl.
    destruct (c =? 123) eqn:E1.
    { destruct (skip_ws r0) as [ | c1 r1 ] eqn:Hs1; [ discriminate | ].
      pose proof (skip_ws_cons _ _ _ Hs1) as Hl1.
      destruct (c1 =? 125) eqn:E2.
      - intros [= <- <-]. split; [ lia | ]. intros g Hg. destruct g as [ | g ]; [ lia | ].
        cbn [parse_value]. rewrite Hs, E1, Hs1, E2. reflexivity.
      - destruct (parse_members fuel r0) as [ [kvs r2] | ] eqn:Hm; [ | discriminate ].
        intros [= <- <-]. destruct (IHm _ _ _ Hm) as [Hl2 Hg2]. split; [ lia | ].
        intros g Hg. destruct g as [ | g ]; [ lia | ].
        cbn [parse_value]. rewrite Hs, E1, Hs1, E2, (Hg2 g) by lia. reflexivity. }
    destruct (c =? 91) eqn:E3.
    { destruct (skip_ws r0) as [ | c1 r1 ] eqn:Hs1; [ discriminate | ].
      pose proof (skip_ws_cons _ _ _ Hs1) as Hl1.
      destruct (c1 =? 93) eqn:E2.
      - intros [= <- <-]. split; [ lia | ]. intros g Hg. destruct g as [ | g ]; [ lia | ].
        cbn [parse_value]. rewrite Hs, E1, E3, Hs1, E2. reflexivity.
      - destruct (parse_elements fuel r0) as [ [vs r2] | ] eqn:Hm; [ | discriminate ].
        intros [= <- <-]. destruct (IHe _ _ _ Hm) as [Hl2 Hg2]. split; [ lia | ].
        intros g Hg. destruct g as [ | g ]; [ lia | ].
        cbn [parse_value]. rewrite Hs, E1, E3, Hs1, E2, (Hg2 g) by lia. reflexivity. }
    destruct (c =? 34) eqn:E4.
    { destruct (parse_string_body r0) as [ [t r1] | ] eqn:Hb; [ | discriminate ].
      intros [= <- <-]. apply parse_string_body_length in Hb as Hl1. split; [ lia | ].
      intros g Hg. destruct g as [ | g ]; [ lia | ].
      cbn [parse_value]. rewrite Hs, E1, E3, E4, Hb. reflexivity. }
    destruct (c =? 116) eqn:E5.
    { destruct (strip_prefix _ r0) as [ r1 | ] eqn:Hb; [ | discriminate ].
      intros [= <- <-]. apply strip_prefix_length in Hb as Hl1. split; [ lia | ].
      intros g Hg. destruct g as [ | g ]; [ lia | ].
      cbn [parse_value]. rewrite Hs, E1, E3, E4, E5, Hb. reflexivity. }
    destruct (c =? 102) eqn:E6.
    { destruct (strip_prefix _ r0) as [ r1 | ] eqn:Hb; [ | discriminate ].
      intros [= <- <-]. apply strip_prefix_length in Hb as Hl1. split; [ lia | ].
      intros g Hg. destruct g as [ | g ]; [ lia | ].
      cbn [parse_value]. rewrite Hs, E1, E3, E4, E5, E6, Hb. reflexivity. }
    destruct (c =? 110) eqn:E7.
    { destruct (strip_prefix _ r0) as [ r1 | ] eqn:Hb; [ | discriminate ].
      intros [= <- <-]. apply strip_prefix_length in Hb as Hl1. split; [ lia | ].
      intros g Hg. destruct g as [ | g ]; [ lia | ].
      cbn [parse_value]. rewrite Hs, E1, E3, E4, E5, E6, E7, Hb. reflexivity. }
    destruct (parse_number (c :: r0)) as [ [n r1] | ] eqn:Hb; [ | discriminate ].
    intros [= <- <-]. apply parse_number_length in Hb as Hl1. cbn [length] in Hl1.
    split; [ lia | ].
    intros g Hg. destruct g as [ | g ]; [ lia | ].
    cbn [parse_value]. rewrite Hs, E1, E3, E4, E5, E6, E7, Hb. reflexivity.
  - intros s vs r. cbn [parse_elements].
    destruct (parse_value fuel s) as [ [v r1] | ] eqn:Hv; [ | discriminate ].
    destruct (IHv _ _ _ Hv) as [Hl1 Hg1].
    destruct (skip_ws r1) as [ | c r2 ] eqn:Hs; [ discriminate | ].
    pose proof (skip_ws_cons _ _ _ Hs) as Hl2.
    destruct (c =? 44) eqn:E1.
    + destruct (parse_elements fuel r2) as [ [vs' r3] | ] eqn:He; [ | discriminate ].
      intros [= <- <-]. destruct (IHe _ _ _ He) as [Hl3 Hg3]. split; [ lia | ].
      intros g Hg. destruct g as [ | g ]; [ lia | ].
      cbn [parse_elements]. rewrite (Hg1 g) by lia. rewrite Hs, E1, (Hg3 g) by lia.
      reflexivity.
    + destruct (c =? 93) eqn:E2; [ | discriminate ].
      intros [= <- <-]. split; [ lia | ].
      intros g Hg. destruct g as [ | g ]; [ lia | ].
      cbn [parse_elements]. rewrite (Hg1 g) by lia. rewrite Hs, E1, E2. reflexivity.
  - intros s kvs r. cbn [parse_members].
    destruct (skip_ws s) as [ | c r0 ] eqn:Hs; [ discriminate | ].
    pose proof (skip_ws_cons _ _ _ Hs) as Hl.
    destruct (c =? 34) eqn:E1; [ | discriminate ].
    destruct (parse_string_body r0) as [ [k r1] | ] eqn:Hk; [ | discriminate ].
    apply parse_string_body_length in Hk as Hl1.
    destruct (skip_ws r1) as [ | c1 r2 ] eqn:Hs1; [ discriminate | ].
    pose proof (skip_ws_cons _ _ _ Hs1) as Hl2.
    destruct (c1 =? 58) eqn:E2; [ | discriminate ].
    destruct (parse_value fuel r2) as [ [v r3] | ] eqn:Hv; [ | discriminate ].
    destruct (IHv _ _ _ Hv) as [Hl3 Hg3].
    destruct (skip_ws r3) as [ | c2 r4 ] eqn:Hs3; [ discriminate | ].
    pose proof (skip_ws_cons _ _ _ Hs3) as Hl4.
    destruct (c2 =? 44) eqn:E3.
    + destruct (parse_members fuel r4) as [ [kvs' r5] | ] eqn:Hm; [ | discriminate ].
      intros [= <- <-]. destruct (IHm _ _ _ Hm) as [Hl5 Hg5]. split; [ lia | ].
      intros g Hg. destruct g as [ | g ]; [ lia | ].
      cbn [parse_members]. rewrite Hs, E1, Hk, Hs1, E2, (Hg3 g) by lia.
      rewrite Hs3, E3, (Hg5 g) by lia. reflexivity.
    + destruct (c2 =? 125) eqn:E4; [ | discriminate ].
      intros [= <- <-]. split; [ lia | ].
      intros g Hg. destruct g as [ | g ]; [ lia | ].
      cbn [parse_members]. rewrite Hs, E1, Hk, Hs1, E2, (Hg3 g) by lia.
      rewrite Hs3, E3, E4. reflexivity.
Qed.

(** The fuel that [parse] gives is enough for every text: whatever can be
    read with some fuel is read with it. *)
Theorem parse_fuel fuel text v r :
  parse_value fuel text = Some (v, r) ->
  parse_value (2 * length text + 2) text = Some (v, r).
Proof. intros H. apply (proj1 (enough_fuel fuel)) in H as [_ H]. apply H. lia. Qed.

(** Hence [parse] throws only on text that is no JSON value however much
    fuel is spent, or that goes on after the value. *)
Corollary parse_throws_for_good text e :
  parse text = Throw e ->
  forall fuel, match parse_value fuel text with
               | Some (v, r) => skip_ws r <> []
               | None => True
               end.
Proof.
  unfold parse. intros H fuel.
  destruct (parse_value fuel text) as [ [v r] | ] eqn:Hf; [ | exact I ].
  rewrite (parse_fuel _ _ _ _ Hf) in H. destruct (skip_ws r); [ discriminate | discriminate ].
Qed.

End JSONFuel.


(** ** The resolution routine *)


Lemma load_rows_app {R T} (rowLoader : R -> except T) rows acc data :
  Forall2 (fun row x => rowLoader row = Return x) rows data ->
  load_rows rowLoader rows acc = Return (acc ++ data).
Proof.
  intros H. revert acc. induction H as [ | row x rows data Hx _ IH ]; intros acc.
  - cbn. rewrite app_nil_r. reflexivity.
  - cbn. rewrite Hx. cbn. rewrite IH, <- app_assoc. reflexivity.
Qed.

Lemma load_rows_inv {R T} (rowLoader : R -> except T) rows acc out :
  load_rows rowLoader rows acc = Return out ->
  exists data, out = acc ++ data /\ Forall2 (fun row x => rowLoader row = Return x) rows data.
Proof.
  revert acc. induction rows as [ | row rows IH ]; intros acc H.
  - cbn in H. injection H as <-. exists []. rewrite app_nil_r. split; [ reflexivity | constructor ].
  - cbn in H. destruct (rowLoader row) as [ x | e ] eqn:Hx; [ | discriminate ].
    cbn in H. apply IH in H as (data & -> & Hdata).
    exists (x :: data). rewrite <- app_assoc. split; [ reflexivity | ].
    constructor; assumption.
Qed.

(** C8.  The resolution routine: a non-null error rejects the deferred
    with that error whatever the rows and the loader, which is not called;
    with no error and no loader the deferred is resolved with nothing; with
    no error and a loader that returns on every row, the deferred is
    resolved with the loaded records, one per row and in row order. *)
Theorem C8_resolve_contract {R T V} (as_value : resolution T -> V) :
  (forall (deferred : Deferred.state V) (error : Error) (rows : option (list R))
          (rowLoader : option (R -> except T)),
      resolve as_value deferred (Some error) rows rowLoader
      = Return (Deferred.reject error deferred)
      /\ resolve as_value Deferred.Pending (Some error) rows rowLoader
         = Return (Deferred.Rejected error))
  /\ (forall (deferred : Deferred.state V) (rows : option (list R)),
         resolve (T := T) as_value deferred None rows None
         = Return (Deferred.resolve (as_value Void) deferred)
         /\ resolve (T := T) as_value Deferred.Pending None rows None
            = Return (Deferred.Fulfilled (as_value Void)))
  /\ (forall (deferred : Deferred.state V) (rows : list R) (rowLoader : R -> except T)
             (data : list T),
         Forall2 (fun row x => rowLoader row = Return x) rows data ->
         resolve as_value deferred None (Some rows) (Some rowLoader)
         = Return (Deferred.resolve (as_value (Data data)) deferred)
         /\ resolve as_value Deferred.Pending None (Some rows) (Some rowLoader)
            = Return (Deferred.Fulfilled (as_value (Data data)))
         /\ length data = length rows).
Proof.
  split; [ | split ].
  - intros deferred error rows rowLoader. split; reflexivity.
  - intros deferred rows. split; reflexivity.
  - intros deferred rows rowLoader data Hdata. unfold resolve.
    rewrite (load_rows_app rowLoader rows [] data Hdata). cbn [app bind_except].
    split; [ reflexivity | split; [ reflexivity | ] ].
    symmetry. apply (Forall2_length _ _ _ Hdata).
Qed.

(** The routine at work on two rows of MetricData. *)
Lemma C8_resolve_contract_witness :
  let rows := [MetricDataRow.mk 1 SqlNull SqlNull SqlNull SqlNull None;
               MetricDataRow.mk 2 SqlNull SqlNull SqlNull SqlNull None] in
  let data := [MetricDataRecord.mk (new_Date 1) JSON.JNull JSON.JNull JSON.JNull JSON.JNull
                                   JSON.JNull;
               MetricDataRecord.mk (new_Date 2) JSON.JNull JSON.JNull JSON.JNull JSON.JNull
                                   JSON.JNull] in
  Forall2 (fun row x => returns loadMetricData row = Return x) rows data
  /\ resolve (held RMetrics) Deferred.Pending None (Some rows) (Some (returns loadMetricData))
     = Return (Deferred.resolve (RMetrics data) Deferred.Pending)
  /\ resolve (held RMetrics) Deferred.Pending None (Some rows) (Some (returns loadMetricData))
     = Return (Deferred.Fulfilled (RMetrics data))
  /\ length data = length rows.
Proof.
  intros rows data.
  assert (Hdata : Forall2 (fun row x => returns loadMetricData row = Return x) rows data)
    by (repeat constructor).
  split; [ exact Hdata | ].
  exact (proj2 (proj2 (C8_resolve_contract (held RMetrics))) Deferred.Pending rows
           (returns loadMetricData) data Hdata).
Defined.

(** ** States of the store *)

Lemma current_tables_Some W t :
  current_tables W = Some t ->
  exists f, db W = Some f /\ opened W = true /\ disk W !! f = Some (Some t).
Proof.
  unfold current_tables. destruct (opened W); [ | discriminate ].
  destruct (db W) as [ f | ]; [ | discriminate ].
  destruct (disk W !! f) as [ [ t' | ] | ] eqn:Hf; try discriminate.
  intros [= ->]. exists f. auto.
Qed.

Lemma consistent_fresh W a :
  consistent W = true -> a ∈ awaiting W -> fst a <> next_promise W.
Proof.
  unfold consistent. rewrite forallb_forall. intros H Hin.
  apply list_elem_of_In in Hin. specialize (H a Hin).
  apply andb_true_iff in H as [_ H]. apply Nat.ltb_lt in H. lia.
Qed.

Lemma filter_none {A} (f : A -> bool) l : (forall a, a ∈ l -> f a = false) -> List.filter f l = [].
Proof.
  induction l as [ | a l IH ]; intros H; [ reflexivity | ].
  cbn. rewrite (H a) by (apply elem_of_cons; auto).
  apply IH. intros b Hb. apply H, elem_of_cons. auto.
Qed.

Lemma filter_all {A} (f : A -> bool) l : (forall a, a ∈ l -> f a = true) -> List.filter f l = l.
Proof.
  induction l as [ | a l IH ]; intros H; [ reflexivity | ].
  cbn. rewrite (H a) by (apply elem_of_cons; auto).
  f_equal. apply IH. intros b Hb. apply H, elem_of_cons. auto.
Qed.

(** Settling a promise that nobody awaits changes that promise only. *)
Lemma update_promise_unawaited d f W :
  (forall a, a ∈ awaiting W -> fst a <> d) ->
  update_promise d f W = (Return tt, set_promises (alter f d) W).
Proof.
  intros Hfresh. unfold update_promise, modify, run_reactions.
  assert (Hready : List.filter (fun a => Nat.eqb (fst a) d) (awaiting W) = []).
  { apply filter_none. intros a Ha. apply Nat.eqb_neq, Hfresh, Ha. }
  assert (Hrest : List.filter (fun a => negb (Nat.eqb (fst a) d)) (awaiting W) = awaiting W).
  { apply filter_all. intros a Ha. apply negb_true_iff, Nat.eqb_neq, Hfresh, Ha. }
  destruct W; cbn in *.
  destruct (alter f d promises0 !! d) as [ [ | | ] | ]; cbn;
    rewrite ?Hready, ?Hrest; reflexivity.
Qed.

Lemma this_resolve_unawaited {R T} d (inj : list T -> result) error
    (rows : option (list R)) rowLoader W deferred :
  promises W !! d = Some deferred ->
  (forall a, a ∈ awaiting W -> fst a <> d) ->
  this_resolve d inj error rows rowLoader W
  = match resolve (held inj) deferred error rows rowLoader with
    | Return deferred' => (Return tt, set_promises (alter (fun _ => deferred') d) W)
    | Throw e => (Throw e, W)
    end.
Proof.
  intros Hd Hfresh. unfold this_resolve. rewrite Hd.
  destruct (resolve (held inj) deferred error rows rowLoader); [ | reflexivity ].
  apply update_promise_unawaited, Hfresh.
Qed.

Lemma load_rows_returns {R T} (f : R -> T) rows :
  load_rows (returns f) rows [] = Return (map f rows).
Proof.
  apply (load_rows_app (returns f) rows [] (map f rows)).
  induction rows; constructor; [ reflexivity | assumption ].
Qed.

(** Unfolds the state plumbing, leaving data and promises as they are. *)
Ltac world_simpl :=
  cbv beta iota zeta delta
    [promises next_promise awaiting db initTask directories disk opened queue submitted
     uncaught set_promises set_next_promise set_awaiting set_db set_initTask set_disk
     set_opened set_queue set_submitted set_uncaught allocate enqueue new_Deferred submit
     ret throw bind modify read complete run_job current_tables sqlite_all sqlite_run
     sqlite_open sqlite_exec sqlite_close on_done on_open on_exec resolve_initTask].

(** A query for trial job events, on a quiescent store. *)
Lemma all_event_resolves W t q :
  quiescent W t ->
  resolves_with (deferred <- new_Deferred ; submit (JobAllEvent q deferred) ;; ret deferred) W
                (REvents (map loadTrialJobEvent (all_event q t))).
Proof.
  intros (Hcons & Hqueue & Htables).
  destruct (current_tables_Some W t Htables) as (f & Hdb & Hopen & Hdisk).
  pose proof (fun a => consistent_fresh W a Hcons) as Hfresh.
  destruct W as [ps n aw dbh task dirs dk op q0 sub unc]. cbn in *. subst.
  eexists n, _. split.
  - world_simpl. reflexivity.
  - world_simpl. cbn [app]. world_simpl. rewrite Hdisk.
    erewrite this_resolve_unawaited; [ | apply lookup_insert_eq | exact Hfresh ].
    unfold resolve. rewrite load_rows_returns. cbn.
    rewrite lookup_alter_eq, lookup_insert_eq. reflexivity.
Qed.

Lemma all_metric_resolves W t q :
  quiescent W t ->
  resolves_with (deferred <- new_Deferred ; submit (JobAllMetric q deferred) ;; ret deferred) W
                (RMetrics (map loadMetricData (all_metric q t))).
Proof.
  intros (Hcons & Hqueue & Htables).
  destruct (current_tables_Some W t Htables) as (f & Hdb & Hopen & Hdisk).
  pose proof (fun a => consistent_fresh W a Hcons) as Hfresh.
  destruct W as [ps n aw dbh task dirs dk op q0 sub unc]. cbn in *. subst.
  eexists n, _. split.
  - world_simpl. reflexivity.
  - world_simpl. cbn [app]. world_simpl. rewrite Hdisk.
    erewrite this_resolve_unawaited; [ | apply lookup_insert_eq | exact Hfresh ].
    unfold resolve. rewrite load_rows_returns. cbn.
    rewrite lookup_alter_eq, lookup_insert_eq. reflexivity.
Qed.

Lemma all_profile_resolves W t q data :
  quiescent W t ->
  Forall2 (fun row x => loadExperimentProfile row = Return x) (all_profile q t) data ->
  resolves_with (deferred <- new_Deferred ; submit (JobAllProfile q deferred) ;; ret deferred) W
                (RProfiles data).
Proof.
  intros (Hcons & Hqueue & Htables) Hload.
  destruct (current_tables_Some W t Htables) as (f & Hdb & Hopen & Hdisk).
  pose proof (fun a => consistent_fresh W a Hcons) as Hfresh.
  destruct W as [ps n aw dbh task dirs dk op q0 sub unc]. cbn in *. subst.
  eexists n, _. split.
  - world_simpl. reflexivity.
  - world_simpl. cbn [app]. world_simpl. rewrite Hdisk.
    erewrite this_resolve_unawaited; [ | apply lookup_insert_eq | exact Hfresh ].
    unfold resolve. rewrite (load_rows_app _ _ [] data Hload). cbn.
    rewrite lookup_alter_eq, lookup_insert_eq. reflexivity.
Qed.

Lemma consistent_allocate W : consistent W = true -> consistent (allocate W) = true.
Proof.
  unfold consistent. rewrite !forallb_forall. intros H a Ha.
  destruct W as [ps n aw dbh task dirs dk op q0 sub unc].
  change (awaiting (allocate (mkWorld ps n aw dbh task dirs dk op q0 sub unc))) with aw in Ha.
  change (next_promise (allocate (mkWorld ps n aw dbh task dirs dk op q0 sub unc))) with (S n).
  change (awaiting (mkWorld ps n aw dbh task dirs dk op q0 sub unc)) with aw in H.
  change (next_promise (mkWorld ps n aw dbh task dirs dk op q0 sub unc)) with n in H.
  specialize (H a Ha).
  apply andb_true_iff in H as [H1 H2]. apply andb_true_iff. split; [ exact H1 | ].
  apply Nat.ltb_lt in H2. apply Nat.ltb_lt. lia.
Qed.

(** An insertion on a quiescent store: the row joins its table, the
    promise is fulfilled, and the store is quiescent again. *)
Lemma insert_resolves W t stmt :
  quiescent W t ->
  exists d W1,
    (deferred <- new_Deferred ; submit (JobRun stmt deferred) ;; ret deferred) W = (Return d, W1)
    /\ promises (complete None W1) !! d = Some (Deferred.Fulfilled RVoid)
    /\ quiescent (complete None W1) (run_insert stmt t).
Proof.
  intros (Hcons & Hqueue & Htables).
  destruct (current_tables_Some W t Htables) as (f & Hdb & Hopen & Hdisk).
  pose proof (fun a => consistent_fresh W a Hcons) as Hfresh.
  pose proof (consistent_allocate W Hcons) as Hcons'.
  destruct W as [ps n aw dbh task dirs dk op q0 sub unc]. cbn in *. subst.
  eexists n, _. split; [ world_simpl; reflexivity | ].
  world_simpl. cbn [app]. world_simpl. rewrite Hdisk. world_simpl.
  erewrite this_resolve_unawaited; [ | apply lookup_insert_eq | exact Hfresh ].
  cbn [resolve]. world_simpl. split.
  - cbn. rewrite lookup_alter_eq, lookup_insert_eq. reflexivity.
  - split; [ exact Hcons' | split; [ reflexivity | ] ].
    world_simpl. rewrite lookup_insert_eq. reflexivity.
Qed.

(** *** Sorting and filtering *)

Lemma insert_desc_perm {A} (key : A -> Z) r l : Permutation (insert_desc key r l) (r :: l).
Proof.
  induction l as [ | r' l IH ]; [ reflexivity | ]. cbn.
  destruct (key r' <? key r)%Z; [ reflexivity | ].
  rewrite IH. apply perm_swap.
Qed.

Lemma order_by_desc_perm {A} (key : A -> Z) l : Permutation (order_by_desc key l) l.
Proof.
  induction l as [ | r l IH ]; [ reflexivity | ].
  cbn. rewrite insert_desc_perm. constructor. exact IH.
Qed.

Lemma insert_desc_sorted {A} (key : A -> Z) r l :
  StronglySorted (descending key) l -> StronglySorted (descending key) (insert_desc key r l).
Proof.
  intros Hsorted. induction Hsorted as [ | r' l' Hl IH Hall ]; [ repeat constructor | ]. cbn.
  destruct (Z.ltb_spec (key r') (key r)) as [Hlt | Hge].
  - constructor; [ constructor; assumption | ].
    constructor; [ unfold descending; lia | ].
    eapply Forall_impl; [ exact Hall | intros x Hx ]. unfold descending in *. lia.
  - constructor; [ exact IH | ].
    rewrite insert_desc_perm. constructor; [ exact Hge | exact Hall ].
Qed.

Lemma order_by_desc_sorted {A} (key : A -> Z) l :
  StronglySorted (descending key) (order_by_desc key l).
Proof.
  induction l as [ | r l IH ]; [ constructor | ]. cbn. apply insert_desc_sorted, IH.
Qed.

Lemma insert_desc_map {A B} (g : A -> B) (key : B -> Z) r l :
  insert_desc key (g r) (map g l) = map g (insert_desc (fun a => key (g a)) r l).
Proof.
  induction l as [ | r' l IH ]; [ reflexivity | ]. cbn.
  destruct (key (g r') <? key (g r))%Z; [ reflexivity | ]. cbn. rewrite IH. reflexivity.
Qed.

Lemma order_by_desc_map {A B} (g : A -> B) (key : B -> Z) l :
  order_by_desc key (map g l) = map g (order_by_desc (fun a => key (g a)) l).
Proof.
  induction l as [ | r l IH ]; [ reflexivity | ]. cbn.
  change (fold_right (insert_desc key) [] (map g l)) with (order_by_desc key (map g l)).
  rewrite IH. apply insert_desc_map.
Qed.

Lemma filter_map_comm {A B} (g : A -> B) (f : B -> bool) l :
  List.filter f (map g l) = map g (List.filter (fun a => f (g a)) l).
Proof.
  induction l as [ | a l IH ]; [ reflexivity | ]. cbn.
  destruct (f (g a)); cbn; rewrite IH; reflexivity.
Qed.

(** *** What is stored is what is loaded *)

Lemma load_stored_profile exp :
  JSON.well_formed (ExperimentProfile.params exp) = true ->
  loadExperimentProfile (storeExperimentProfile_args exp) = Return exp.
Proof.
  intros Hwf. unfold loadExperimentProfile, storeExperimentProfile_args. cbn.
  rewrite (JSONFacts.parse_stringify _ Hwf). cbn.
  destruct exp as [params id execDuration [ [ s ] | ] [ [ e ] | ] revision]; reflexivity.
Qed.

Lemma load_stored_profiles ps :
  Forall (fun p => JSON.well_formed (ExperimentProfile.params p) = true) ps ->
  Forall2 (fun row x => loadExperimentProfile row = Return x)
          (map storeExperimentProfile_args ps) ps.
Proof.
  induction 1 as [ | p ps Hp _ IH ]; cbn; constructor;
    [ apply load_stored_profile, Hp | exact IH ].
Qed.

(** ** Experiment profiles *)

Lemma query_by_id_resolves W t ps id :
  quiescent W t -> stored t ps ->
  resolves_with (queryExperimentProfile id None) W
                (RProfiles (order_by_desc ExperimentProfile.revision (with_id id ps))).
Proof.
  intros Hq (Htable & Hwf). unfold queryExperimentProfile.
  apply (all_profile_resolves W t (ProfileById id) _ Hq).
  cbn [all_profile]. rewrite Htable, filter_map_comm, order_by_desc_map.
  apply load_stored_profiles.
  apply List.Forall_forall. intros p Hp.
  rewrite List.Forall_forall in Hwf. apply Hwf.
  rewrite (order_by_desc_perm _ _) in Hp.
  apply filter_In in Hp as [Hp _]. exact Hp.
Qed.

Lemma query_by_id_revision_resolves W t ps id revision :
  quiescent W t -> stored t ps ->
  resolves_with (queryExperimentProfile id (Some revision)) W
                (RProfiles (with_id_revision id revision ps)).
Proof.
  intros Hq (Htable & Hwf). unfold queryExperimentProfile.
  apply (all_profile_resolves W t (ProfileByIdRevision id revision) _ Hq).
  cbn [all_profile]. rewrite Htable, filter_map_comm.
  apply load_stored_profiles.
  apply List.Forall_forall. intros p Hp.
  rewrite List.Forall_forall in Hwf. apply Hwf.
  apply filter_In in Hp as [Hp _]. exact Hp.
Qed.

Lemma filter_unique {A K} `{EqDecision K} (key : A -> K) (k : K) (l : list A) :
  NoDup (map key l) ->
  (length (List.filter (fun a => bool_decide (key a = k)) l) <= 1)%nat.
Proof.
  induction l as [ | a l IH ]; intros Hnd; [ cbn; lia | ].
  cbn in Hnd. apply NoDup_cons in Hnd as [Hnotin Hnd]. cbn.
  destruct (bool_decide (key a = k)) eqn:Hk; [ | apply IH, Hnd ].
  apply bool_decide_eq_true in Hk. cbn.
  rewrite filter_none; [ cbn; lia | ].
  intros b Hb. apply bool_decide_eq_false. intros Hkb. apply Hnotin.
  rewrite Hk, <- Hkb. apply list_elem_of_fmap_2, Hb.
Qed.

(** C3 (amended).  On a store holding the rows of the profiles [ps]:
    [queryExperimentProfile(id)] is fulfilled with exactly the profiles whose
    id is [id], in descending order of revision;
    [queryExperimentProfile(id, revision)] is fulfilled with exactly the
    profiles matching both, in insertion order, and that is at most one
    profile when no two stored profiles share id and revision. *)
Theorem C3_queryExperimentProfile W t ps id :
  quiescent W t -> stored t ps ->
  (exists l,
      resolves_with (queryExperimentProfile id None) W (RProfiles l)
      /\ Permutation l (with_id id ps)
      /\ StronglySorted (descending ExperimentProfile.revision) l)
  /\ (forall revision,
         resolves_with (queryExperimentProfile id (Some revision)) W
                       (RProfiles (with_id_revision id revision ps))
         /\ (NoDup (map (fun p => (ExperimentProfile.id p, ExperimentProfile.revision p)) ps) ->
             (length (with_id_revision id revision ps) <= 1)%nat)).
Proof.
  intros Hq Hst. split.
  - exists (order_by_desc ExperimentProfile.revision (with_id id ps)).
    split; [ apply (query_by_id_resolves W t ps id Hq Hst) | ].
    split; [ apply order_by_desc_perm | apply order_by_desc_sorted ].
  - intros revision. split; [ apply (query_by_id_revision_resolves W t ps id revision Hq Hst) | ].
    intros Hnd.
    pose proof (filter_unique (fun p => (ExperimentProfile.id p, ExperimentProfile.revision p))
                              (id, revision) ps Hnd) as Hlen.
    unfold with_id_revision.
    erewrite filter_ext; [ exact Hlen | ].
    intros p. cbn. unfold jstring_eqb.
    destruct (Z.eqb_spec (ExperimentProfile.revision p) revision) as [Hr | Hr];
      destruct (decide (ExperimentProfile.id p = id)) as [Hi | Hi].
    + rewrite !bool_decide_eq_true_2 by congruence. reflexivity.
    + rewrite !bool_decide_eq_false_2 by congruence. reflexivity.
    + rewrite bool_decide_eq_true_2 by congruence.
      rewrite bool_decide_eq_false_2 by congruence. reflexivity.
    + rewrite !bool_decide_eq_false_2 by congruence. reflexivity.
Qed.

(** *** A store with three revisions of one experiment *)

Lemma three_revisions_quiescent : quiescent three_revisions_store three_revisions_tables.
Proof. repeat split; vm_compute; reflexivity. Qed.

Lemma three_revisions_stored : stored three_revisions_tables three_revisions.
Proof. split; [ reflexivity | repeat constructor ]. Qed.

(** The amended C3 on the store with revisions 2, 3 and 1 of "exp1". *)
Lemma C3_queryExperimentProfile_witness :
  quiescent three_revisions_store three_revisions_tables
  /\ stored three_revisions_tables three_revisions
  /\ (exists l,
      resolves_with (queryExperimentProfile (js "exp1") None) three_revisions_store (RProfiles l)
      /\ Permutation l (with_id (js "exp1") three_revisions)
      /\ StronglySorted (descending ExperimentProfile.revision) l)
  /\ (forall revision,
         resolves_with (queryExperimentProfile (js "exp1") (Some revision)) three_revisions_store
                       (RProfiles (with_id_revision (js "exp1") revision three_revisions))
         /\ (NoDup (map (fun p => (ExperimentProfile.id p, ExperimentProfile.revision p))
                        three_revisions) ->
             (length (with_id_revision (js "exp1") revision three_revisions) <= 1)%nat)).
Proof.
  split; [ exact three_revisions_quiescent | ].
  split; [ exact three_revisions_stored | ].
  exact (C3_queryExperimentProfile three_revisions_store three_revisions_tables three_revisions
           (js "exp1") three_revisions_quiescent three_revisions_stored).
Defined.

(** C3 as stated fails: with two rows stored for ("exp1", 1), the query by
    id and revision is fulfilled with both of them, not with zero or one. *)
Lemma C3_counterexample :
  resolves_with (queryExperimentProfile (js "exp1") (Some 1%Z))
                (store_all twice_revision_1 opened_store) (RProfiles twice_revision_1)
  /\ ~ (length twice_revision_1 <= 1)%nat.
Proof.
  split.
  - exists 3%nat, (snd (queryExperimentProfile (js "exp1") (Some 1%Z)
                          (store_all twice_revision_1 opened_store))).
    split; vm_compute; reflexivity.
  - cbn. lia.
Qed.

(** The async function behind [queryLatestExperimentProfile]: when the
    query it awaits is fulfilled with [l], its own promise is fulfilled
    with the first element of [l], if there is one. *)
Lemma latest_resolves W t ps id :
  quiescent W t -> stored t ps ->
  resolves_with (queryLatestExperimentProfile id) W
    (RProfile (head (order_by_desc ExperimentProfile.revision (with_id id ps)))).
Proof.
  intros (Hcons & Hqueue & Htables) (Htable & Hwf).
  destruct (current_tables_Some W t Htables) as (f & Hdb & Hopen & Hdisk).
  assert (Hload : Forall2 (fun row x => loadExperimentProfile row = Return x)
                          (all_profile (ProfileById id) t)
                          (order_by_desc ExperimentProfile.revision (with_id id ps))).
  { cbn [all_profile]. rewrite Htable, filter_map_comm, order_by_desc_map.
    apply load_stored_profiles.
    apply List.Forall_forall. intros p Hp.
    rewrite List.Forall_forall in Hwf. apply Hwf.
    rewrite (order_by_desc_perm _ _) in Hp.
    apply filter_In in Hp as [Hp _]. exact Hp. }
  assert (Hold : List.filter (fun a => Nat.eqb (fst a) (S (next_promise W))) (awaiting W) = []).
  { apply filter_none. intros a Ha. apply Nat.eqb_neq.
    unfold consistent in Hcons. rewrite forallb_forall in Hcons.
    apply list_elem_of_In in Ha. specialize (Hcons a Ha).
    apply andb_true_iff in Hcons as [_ Hlt]. apply Nat.ltb_lt in Hlt. lia. }
  destruct W as [ps0 n aw dbh task dirs dk op q0 sub unc]. cbn in Hqueue, Hdb, Hopen, Hdisk, Hold.
  subst.
  exists n. eexists. split.
  - unfold queryLatestExperimentProfile, queryExperimentProfile. world_simpl. reflexivity.
  - world_simpl. cbn [app]. world_simpl. rewrite Hdisk.
    unfold this_resolve. world_simpl. rewrite lookup_insert_eq.
    unfold resolve. rewrite (load_rows_app _ _ [] _ Hload). cbn [bind_except].
    unfold update_promise, modify, run_reactions. world_simpl.
    rewrite lookup_alter_eq, lookup_insert_eq. cbn [held Deferred.resolve fmap option_fmap
                                                      option_map].
    rewrite !List.filter_app, Hold. cbn [List.filter fst snd app].
    rewrite Nat.eqb_refl. cbn [negb fold_left app snd].
    rewrite lookup_alter_eq, lookup_alter_ne by lia.
    rewrite lookup_insert_ne by lia. rewrite lookup_insert_eq. reflexivity.
Qed.

Lemma head_sorted_max {A} (key : A -> Z) (l : list A) (top : A) :
  StronglySorted (descending key) l -> head l = Some top ->
  forall a, In a l -> (key a <= key top)%Z.
Proof.
  intros Hsorted Hhead a Ha. destruct l as [ | x l ]; [ discriminate | ].
  cbn in Hhead. injection Hhead as ->.
  apply StronglySorted_inv in Hsorted as [_ Hall].
  destruct Ha as [-> | Ha]; [ lia | ].
  rewrite List.Forall_forall in Hall. apply (Hall a Ha).
Qed.

(** C4.  On a store holding the rows of the profiles [ps],
    [queryLatestExperimentProfile(id)] is fulfilled, never rejected, with
    the first element of what [queryExperimentProfile(id)] is fulfilled
    with: a stored profile of that id whose revision no other of that id
    exceeds, or undefined when nothing is stored for [id]. *)
Theorem C4_queryLatestExperimentProfile W t ps id :
  quiescent W t -> stored t ps ->
  exists l latest,
    resolves_with (queryExperimentProfile id None) W (RProfiles l)
    /\ resolves_with (queryLatestExperimentProfile id) W (RProfile latest)
    /\ latest = head l
    /\ match latest with
       | Some p =>
         In p ps /\ ExperimentProfile.id p = id
         /\ forall q, In q ps -> ExperimentProfile.id q = id ->
                      (ExperimentProfile.revision q <= ExperimentProfile.revision p)%Z
       | None => forall q, In q ps -> ExperimentProfile.id q <> id
       end.
Proof.
  intros Hq Hst.
  set (l := order_by_desc ExperimentProfile.revision (with_id id ps)).
  exists l, (head l).
  split; [ apply (query_by_id_resolves W t ps id Hq Hst) | ].
  split; [ apply (latest_resolves W t ps id Hq Hst) | ].
  split; [ reflexivity | ].
  assert (Hmem : forall p, In p l <-> In p ps /\ ExperimentProfile.id p = id).
  { intros p. unfold l. rewrite (order_by_desc_perm _ _). unfold with_id.
    rewrite filter_In. unfold jstring_eqb. rewrite bool_decide_eq_true. reflexivity. }
  destruct (head l) as [ p | ] eqn:Hhead.
  - assert (Hp : In p l) by (destruct l; [ discriminate | injection Hhead as ->; left; reflexivity ]).
    apply Hmem in Hp as [Hp Hid]. split; [ exact Hp | split; [ exact Hid | ] ].
    intros q Hq' Hqid.
    apply (head_sorted_max ExperimentProfile.revision l p (order_by_desc_sorted _ _) Hhead).
    apply Hmem. auto.
  - intros q Hq' Hqid. destruct l as [ | x l' ]; [ | discriminate ].
    apply (proj2 (Hmem q)). auto.
Qed.

(** The C4 statement on the store with revisions 2, 3 and 1 of "exp1". *)
Lemma C4_queryLatestExperimentProfile_witness :
  quiescent three_revisions_store three_revisions_tables
  /\ stored three_revisions_tables three_revisions
  /\ exists l latest,
      resolves_with (queryExperimentProfile (js "exp1") None) three_revisions_store (RProfiles l)
      /\ resolves_with (queryLatestExperimentProfile (js "exp1")) three_revisions_store
                       (RProfile latest)
      /\ latest = head l
      /\ match latest with
         | Some p =>
           In p three_revisions /\ ExperimentProfile.id p = js "exp1"
           /\ forall q, In q three_revisions -> ExperimentProfile.id q = js "exp1" ->
                        (ExperimentProfile.revision q <= ExperimentProfile.revision p)%Z
         | None => forall q, In q three_revisions -> ExperimentProfile.id q <> js "exp1"
         end.
Proof.
  split; [ exact three_revisions_quiescent | ].
  split; [ exact three_revisions_stored | ].
  exact (C4_queryLatestExperimentProfile three_revisions_store three_revisions_tables
           three_revisions (js "exp1") three_revisions_quiescent three_revisions_stored).
Defined.

Lemma stored_insert t ps exp :
  stored t ps -> JSON.well_formed (ExperimentProfile.params exp) = true ->
  stored (run_insert (InsertExperimentProfile (storeExperimentProfile_args exp)) t)
         (ps ++ [exp]).
Proof.
  intros (Htable & Hwf) Hexp. split.
  - cbn. rewrite Htable, map_app. reflexivity.
  - apply Forall_app. split; [ exact Hwf | repeat constructor; exact Hexp ].
Qed.

(** C5.  A profile stored and then queried by its id and revision comes
    back: the list the query is fulfilled with holds a record with the
    stored params and revision, whose startTime and endTime are undefined
    where the stored profile's were; when no earlier row has that id and
    revision, the list is that record alone. *)
Theorem C5_profile_round_trip W t ps exp :
  quiescent W t -> stored t ps ->
  JSON.well_formed (ExperimentProfile.params exp) = true ->
  exists d W1 l,
    storeExperimentProfile exp W = (Return d, W1)
    /\ promises (complete None W1) !! d = Some (Deferred.Fulfilled RVoid)
    /\ resolves_with
         (queryExperimentProfile (ExperimentProfile.id exp) (Some (ExperimentProfile.revision exp)))
         (complete None W1) (RProfiles l)
    /\ (exists r, In r l
                  /\ ExperimentProfile.params r = ExperimentProfile.params exp
                  /\ ExperimentProfile.revision r = ExperimentProfile.revision exp
                  /\ (ExperimentProfile.startTime exp = None ->
                      ExperimentProfile.startTime r = None)
                  /\ (ExperimentProfile.endTime exp = None ->
                      ExperimentProfile.endTime r = None))
    /\ (with_id_revision (ExperimentProfile.id exp) (ExperimentProfile.revision exp) ps = [] ->
        l = [exp]).
Proof.
  intros Hq Hst Hwf.
  destruct (insert_resolves W t (InsertExperimentProfile (storeExperimentProfile_args exp)) Hq)
    as (d & W1 & Hcall & Hdone & Hq').
  pose proof (stored_insert t ps exp Hst Hwf) as Hst'.
  exists d, W1,
    (with_id_revision (ExperimentProfile.id exp) (ExperimentProfile.revision exp) (ps ++ [exp])).
  split; [ exact Hcall | ]. split; [ exact Hdone | ].
  split; [ apply (query_by_id_revision_resolves _ _ _ _ _ Hq' Hst') | ].
  assert (Hself : with_id_revision (ExperimentProfile.id exp) (ExperimentProfile.revision exp)
                                   [exp] = [exp]).
  { unfold with_id_revision, jstring_eqb. cbn.
    rewrite bool_decide_eq_true_2 by reflexivity. rewrite Z.eqb_refl. reflexivity. }
  unfold with_id_revision in *. rewrite List.filter_app, Hself. split.
  - exists exp. split; [ apply in_or_app; right; left; reflexivity | ]. auto.
  - intros ->. reflexivity.
Qed.

(** Storing revision 4 of "exp1", with no endTime, after the other three. *)
Lemma C5_profile_round_trip_witness :
  quiescent three_revisions_store three_revisions_tables
  /\ stored three_revisions_tables three_revisions
  /\ JSON.well_formed (ExperimentProfile.params (exp1 4)) = true
  /\ exists d W1 l,
      storeExperimentProfile (exp1 4) three_revisions_store = (Return d, W1)
      /\ promises (complete None W1) !! d = Some (Deferred.Fulfilled RVoid)
      /\ resolves_with (queryExperimentProfile (js "exp1") (Some 4%Z))
                       (complete None W1) (RProfiles l)
      /\ (exists r, In r l
                    /\ ExperimentProfile.params r = lr_params
                    /\ ExperimentProfile.revision r = 4%Z
                    /\ (ExperimentProfile.startTime (exp1 4) = None ->
                        ExperimentProfile.startTime r = None)
                    /\ (ExperimentProfile.endTime (exp1 4) = None ->
                        ExperimentProfile.endTime r = None))
      /\ (with_id_revision (js "exp1") 4 three_revisions = [] -> l = [exp1 4]).
Proof.
  split; [ exact three_revisions_quiescent | ].
  split; [ exact three_revisions_stored | ].
  split; [ reflexivity | ].
  exact (C5_profile_round_trip three_revisions_store three_revisions_tables three_revisions
           (exp1 4) three_revisions_quiescent three_revisions_stored eq_refl).
Defined.

(** ** Trial job events and metric data *)

Lemma all_event_matches trialJobId event t :
  all_event match trialJobId, event with
            | None, None => EventAll
            | None, Some event => EventByEvent event
            | Some trialJobId, None => EventByTrialJobId trialJobId
            | Some trialJobId, Some event => EventByTrialJobIdEvent trialJobId event
            end t
  = List.filter (fun r => matches jstring_eqb trialJobId (TrialJobEventRow.trialJobId r)
                          && matches jstring_eqb event (TrialJobEventRow.event r))
                (TrialJobEventTable t).
Proof.
  destruct trialJobId as [ trialJobId | ], event as [ event | ]; cbn [all_event matches].
  - reflexivity.
  - apply filter_ext. intros r. rewrite andb_true_r. reflexivity.
  - reflexivity.
  - symmetry. apply filter_all. reflexivity.
Qed.

Lemma all_metric_matches trialJobId metricType t :
  all_metric match metricType, trialJobId with
             | None, None => MetricAll
             | Some metricType, None => MetricByType metricType
             | None, Some trialJobId => MetricByTrialJobId trialJobId
             | Some metricType, Some trialJobId => MetricByTrialJobIdType trialJobId metricType
             end t
  = List.filter (fun r => matches text_eq trialJobId (MetricDataRow.trialJobId r)
                          && matches text_eq metricType (MetricDataRow.type r))
                (MetricDataTable t).
Proof.
  destruct trialJobId as [ trialJobId | ], metricType as [ metricType | ];
    cbn [all_metric matches].
  - reflexivity.
  - apply filter_ext. intros r. rewrite andb_true_r. reflexivity.
  - reflexivity.
  - symmetry. apply filter_all. reflexivity.
Qed.

(** C7.  On a quiescent store, [queryTrialJobEvent] is fulfilled with the
    records of exactly the rows of TrialJobEvent that match every filter
    given, in table order: all rows when neither is given, the rows with
    that event, the rows with that trialJobId, or the rows with both; and
    [queryMetricData] likewise over trialJobId and type on MetricData. *)
Theorem C7_query_filters W t :
  quiescent W t ->
  (forall trialJobId event,
      resolves_with (queryTrialJobEvent trialJobId event) W
        (REvents (map loadTrialJobEvent
                      (List.filter
                         (fun r => matches jstring_eqb trialJobId (TrialJobEventRow.trialJobId r)
                                   && matches jstring_eqb event (TrialJobEventRow.event r))
                         (TrialJobEventTable t)))))
  /\ resolves_with (queryTrialJobEvent None None) W
                   (REvents (map loadTrialJobEvent (TrialJobEventTable t)))
  /\ (forall trialJobId metricType,
         resolves_with (queryMetricData trialJobId metricType) W
           (RMetrics (map loadMetricData
                          (List.filter
                             (fun r => matches text_eq trialJobId (MetricDataRow.trialJobId r)
                                       && matches text_eq metricType (MetricDataRow.type r))
                             (MetricDataTable t)))))
  /\ resolves_with (queryMetricData None None) W
                   (RMetrics (map loadMetricData (MetricDataTable t))).
Proof.
  intros Hq. split; [ | split; [ | split ] ].
  - intros trialJobId event. rewrite <- all_event_matches. apply (all_event_resolves W t _ Hq).
  - apply (all_event_resolves W t EventAll Hq).
  - intros trialJobId metricType. rewrite <- all_metric_matches.
    apply (all_metric_resolves W t _ Hq).
  - apply (all_metric_resolves W t MetricAll Hq).
Qed.

(** *** A store with three trial job events and two metrics *)

Lemma busy_quiescent : quiescent busy_store busy_tables.
Proof. repeat split; vm_compute; reflexivity. Qed.

(** The C7 statement on the store with three events and two metrics. *)
Lemma C7_query_filters_witness :
  quiescent busy_store busy_tables
  /\ (forall trialJobId event,
         resolves_with (queryTrialJobEvent trialJobId event) busy_store
           (REvents (map loadTrialJobEvent
                         (List.filter
                            (fun r => matches jstring_eqb trialJobId (TrialJobEventRow.trialJobId r)
                                      && matches jstring_eqb event (TrialJobEventRow.event r))
                            (TrialJobEventTable busy_tables)))))
  /\ resolves_with (queryTrialJobEvent None None) busy_store
                   (REvents (map loadTrialJobEvent (TrialJobEventTable busy_tables)))
  /\ (forall trialJobId metricType,
         resolves_with (queryMetricData trialJobId metricType) busy_store
           (RMetrics (map loadMetricData
                          (List.filter
                             (fun r => matches text_eq trialJobId (MetricDataRow.trialJobId r)
                                       && matches text_eq metricType (MetricDataRow.type r))
                             (MetricDataTable busy_tables)))))
  /\ resolves_with (queryMetricData None None) busy_store
                   (RMetrics (map loadMetricData (MetricDataTable busy_tables))).
Proof.
  split; [ exact busy_quiescent | ].
  exact (C7_query_filters busy_store busy_tables busy_quiescent).
Defined.

(** Storing a metric whose parameter array could be computed. *)
Lemma storeMetricData_resolves W t now trialJobId data row :
  quiescent W t ->
  storeMetricData_args now data = Return row ->
  exists d W1,
    storeMetricData now trialJobId data W = (Return d, W1)
    /\ promises (complete None W1) !! d = Some (Deferred.Fulfilled RVoid)
    /\ quiescent (complete None W1) (run_insert (InsertMetricData row) t).
Proof.
  intros Hq Hargs.
  destruct (insert_resolves W t (InsertMetricData row) Hq) as (d & W1 & Hcall & Hdone & Hq').
  exists d, W1. split; [ | auto ].
  unfold storeMetricData. rewrite Hargs. exact Hcall.
Qed.

Lemma storeMetricData_args_object now data members :
  JSON.parse data = Return (JSON.JObj members) ->
  storeMetricData_args now data = Return (envelope_row now members).
Proof. intros Hparse. unfold storeMetricData_args. rewrite Hparse. reflexivity. Qed.

Lemma parse_throws data e : JSON.parse data = Throw e -> e = SyntaxError.
Proof.
  unfold JSON.parse. destruct (JSON.parse_value _ data) as [ [v r] | ]; [ | congruence ].
  destruct (JSON.skip_ws r); congruence.
Qed.

Lemma storeMetricData_args_value now data json :
  JSON.parse data = Return json -> json <> JSON.JNull ->
  storeMetricData_args now data = Return (envelope_row now (members_of json)).
Proof.
  intros Hparse Hnull. unfold storeMetricData_args. rewrite Hparse.
  destruct json; try reflexivity. contradiction.
Qed.

(** C6 (amended).  An input that is not parseable JSON makes
    [storeMetricData] throw the SyntaxError from the call itself, and the
    input [null] a TypeError: no promise is returned and nothing changes,
    so no row is inserted.  Every other input is accepted whatever fields
    it has or lacks: on a quiescent store the call returns a promise that
    is fulfilled, and the row inserted holds NULL in each column whose
    field is missing. *)
Theorem C6_storeMetricData_envelope now trialJobId data :
  (forall e W, JSON.parse data = Throw e ->
               e = SyntaxError
               /\ storeMetricData now trialJobId data W = (Throw SyntaxError, W))
  /\ (forall W, JSON.parse data = Return JSON.JNull ->
                storeMetricData now trialJobId data W = (Throw TypeError, W))
  /\ (forall json W t,
         JSON.parse data = Return json -> json <> JSON.JNull -> quiescent W t ->
         exists d W1,
           storeMetricData now trialJobId data W = (Return d, W1)
           /\ promises (complete None W1) !! d = Some (Deferred.Fulfilled RVoid)
           /\ current_tables (complete None W1)
              = Some (run_insert (InsertMetricData (envelope_row now (members_of json))) t)).
Proof.
  split; [ | split ].
  - intros e W Hparse. pose proof (parse_throws data e Hparse) as ->.
    split; [ reflexivity | ].
    unfold storeMetricData, storeMetricData_args. rewrite Hparse. reflexivity.
  - intros W Hparse.
    unfold storeMetricData, storeMetricData_args. rewrite Hparse. reflexivity.
  - intros json W t Hparse Hnull Hq.
    destruct (storeMetricData_resolves W t now trialJobId data _ Hq
                (storeMetricData_args_value now data json Hparse Hnull))
      as (d & W1 & Hcall & Hdone & _ & _ & Htables).
    exists d, W1. auto.
Qed.

(** Text that is not JSON, [null], and the empty object, on the opened
    store. *)
Lemma C6_storeMetricData_envelope_witness :
  JSON.parse (js "not valid json") = Throw SyntaxError
  /\ storeMetricData 7 (js "t1") (js "not valid json") opened_store
     = (Throw SyntaxError, opened_store)
  /\ JSON.parse (js "null") = Return JSON.JNull
  /\ storeMetricData 7 (js "t1") (js "null") opened_store = (Throw TypeError, opened_store)
  /\ JSON.parse (js "{}") = Return (JSON.JObj [])
  /\ quiescent opened_store no_rows
  /\ exists d W1,
      storeMetricData 7 (js "t1") (js "{}") opened_store = (Return d, W1)
      /\ promises (complete None W1) !! d = Some (Deferred.Fulfilled RVoid)
      /\ current_tables (complete None W1)
         = Some (run_insert (InsertMetricData (envelope_row 7 [])) no_rows).
Proof.
  assert (Hbad : JSON.parse (js "not valid json") = Throw SyntaxError) by reflexivity.
  assert (Hnull : JSON.parse (js "null") = Return JSON.JNull) by reflexivity.
  assert (Hempty : JSON.parse (js "{}") = Return (JSON.JObj [])) by reflexivity.
  assert (Hq : quiescent opened_store no_rows) by (repeat split; vm_compute; reflexivity).
  split; [ exact Hbad | ].
  split; [ exact (proj2 (proj1 (C6_storeMetricData_envelope 7 (js "t1") (js "not valid json"))
                           SyntaxError opened_store Hbad)) | ].
  split; [ exact Hnull | ].
  split; [ exact (proj1 (proj2 (C6_storeMetricData_envelope 7 (js "t1") (js "null")))
                    opened_store Hnull) | ].
  split; [ exact Hempty | ]. split; [ exact Hq | ].
  exact (proj2 (proj2 (C6_storeMetricData_envelope 7 (js "t1") (js "{}")))
           (JSON.JObj []) opened_store no_rows Hempty ltac:(discriminate) Hq).
Defined.

(** C6 as stated fails twice over.  The envelope "{}" lacks every field,
    yet the promise returned is fulfilled and a row of NULLs is inserted;
    and for text that is not JSON there is no promise to fail, the call
    itself throws. *)
Lemma C6_counterexample :
  resolves_with (storeMetricData 7 (js "t1") (js "{}")) opened_store RVoid
  /\ current_tables (complete None (snd (storeMetricData 7 (js "t1") (js "{}") opened_store)))
     = Some (mkTables [] [MetricDataRow.mk 7 SqlNull SqlNull SqlNull SqlNull None] [])
  /\ current_tables opened_store = Some (mkTables [] [] [])
  /\ fst (storeMetricData 7 (js "t1") (js "not valid json") opened_store) = Throw SyntaxError.
Proof.
  split; [ | split; [ | split ]; vm_compute; reflexivity ].
  exists 1%nat, (snd (storeMetricData 7 (js "t1") (js "{}") opened_store)).
  split; vm_compute; reflexivity.
Qed.

(** C9.  The first argument of [storeMetricData] is never read: two calls
    that differ in it alone return or throw the same and leave the same
    state, hence the same row, with the trialJobId bound from the envelope,
    and the same error once the driver has run; and so for whole runs. *)
Theorem C9_storeMetricData_ignores_trialJobId now trialJobId1 trialJobId2 data :
  (forall W, storeMetricData now trialJobId1 data W = storeMetricData now trialJobId2 data W)
  /\ (forall W members d W1,
         JSON.parse data = Return (JSON.JObj members) ->
         storeMetricData now trialJobId1 data W = (Return d, W1) ->
         exists row,
           submitted W1 = submitted W ++ [JobRun (InsertMetricData row) d]
           /\ MetricDataRow.trialJobId row = Sqlite.bind (own_property members (js "trialJobId")))
  /\ (forall before after W,
         map snd (fst (run (before ++ Call (StoreMetricData now trialJobId1 data) :: after) W))
         = map snd (fst (run (before ++ Call (StoreMetricData now trialJobId2 data) :: after) W))
         /\ snd (run (before ++ Call (StoreMetricData now trialJobId1 data) :: after) W)
            = snd (run (before ++ Call (StoreMetricData now trialJobId2 data) :: after) W)).
Proof.
  split; [ reflexivity | split ].
  - intros W members d W1 Hparse Hcall.
    unfold storeMetricData in Hcall.
    rewrite (storeMetricData_args_object now data members Hparse) in Hcall.
    exists (envelope_row now members). split; [ | reflexivity ].
    destruct W as [ps n aw dbh task dirs dk op q0 sub unc].
    revert Hcall. world_simpl. destruct dbh; [ | discriminate ].
    intros [= <- <-]. reflexivity.
  - intros before. induction before as [ | [ c | fault ] before IH ]; intros after W.
    + cbn [app run perform].
      change (storeMetricData now trialJobId1 data W)
        with (storeMetricData now trialJobId2 data W).
      destruct (storeMetricData now trialJobId2 data W) as [r W1].
      destruct (run after W1) as [rs W2]. split; reflexivity.
    + cbn [app run]. destruct (perform c W) as [r W1].
      destruct (IH after W1) as [Hres Hst].
      destruct (run (before ++ _ :: after) W1) as [rs1 Wa].
      destruct (run (before ++ _ :: after) W1) as [rs2 Wb].
      cbn in *. split; congruence.
    + cbn [app run]. apply IH.
Qed.

(** Two calls that differ in the first argument only, on the busy store. *)
Lemma C9_storeMetricData_ignores_trialJobId_witness :
  let data := envelope (js "t3") (js "FINAL") (JSON.Num false [2] 1) accuracy in
  (forall W, storeMetricData 600 (js "t3") data W = storeMetricData 600 (js "other") data W)
  /\ (forall W members d W1,
         JSON.parse data = Return (JSON.JObj members) ->
         storeMetricData 600 (js "t3") data W = (Return d, W1) ->
         exists row,
           submitted W1 = submitted W ++ [JobRun (InsertMetricData row) d]
           /\ MetricDataRow.trialJobId row = Sqlite.bind (own_property members (js "trialJobId")))
  /\ (forall before after W,
         map snd (fst (run (before ++ Call (StoreMetricData 600 (js "t3") data) :: after) W))
         = map snd (fst (run (before ++ Call (StoreMetricData 600 (js "other") data) :: after) W))
         /\ snd (run (before ++ Call (StoreMetricData 600 (js "t3") data) :: after) W)
            = snd (run (before ++ Call (StoreMetricData 600 (js "other") data) :: after) W)).
Proof.
  intros data.
  exact (C9_storeMetricData_ignores_trialJobId 600 (js "t3") (js "other") data).
Defined.

Lemma quote_unit_nonempty c : (1 <= length (JSON.quote_unit c))%nat.
Proof.
  unfold JSON.quote_unit.
  repeat match goal with |- context [if ?b then _ else _] => destruct b end; cbn; lia.
Qed.

Lemma quote_longer s : (length s < length (JSON.quote s))%nat.
Proof.
  unfold JSON.quote. cbn [length]. rewrite length_app. cbn [length].
  assert (length s <= length (concat (map JSON.quote_unit s)))%nat; [ | lia ].
  induction s as [ | c s IH ]; [ cbn; lia | ].
  cbn [map concat length]. rewrite length_app. pose proof (quote_unit_nonempty c). lia.
Qed.

(** A value is never the string of its own JSON text. *)
Lemma stringify_not_self v : JSON.JStr (JSON.stringify v) <> v.
Proof.
  destruct v as [ | b | n | s | vs | kvs ]; try discriminate.
  intros [= H]. pose proof (quote_longer s) as Hlen.
  cbn [JSON.stringify] in H. rewrite H in Hlen. lia.
Qed.

(** C10.  For an envelope that parses to an object with a data field, the
    row stored holds the JSON text of that field, and a later
    [queryMetricData] returns the column as it is: the record's data is the
    string [JSON.stringify(payload)], which differs from the payload. *)
Theorem C10_metric_data_is_text W t now trialJobId data members payload :
  quiescent W t ->
  JSON.parse data = Return (JSON.JObj members) ->
  own_property members (js "data") = Some payload ->
  exists d W1,
    storeMetricData now trialJobId data W = (Return d, W1)
    /\ current_tables (complete None W1)
       = Some (run_insert (InsertMetricData (envelope_row now members)) t)
    /\ MetricDataRow.data (envelope_row now members) = Some (JSON.stringify payload)
    /\ resolves_with (queryMetricData None None) (complete None W1)
         (RMetrics (map loadMetricData (MetricDataTable t)
                    ++ [loadMetricData (envelope_row now members)]))
    /\ MetricDataRecord.data (loadMetricData (envelope_row now members))
       = JSON.JStr (JSON.stringify payload)
    /\ JSON.JStr (JSON.stringify payload) <> payload.
Proof.
  intros Hq Hparse Hpayload.
  destruct (storeMetricData_resolves W t now trialJobId data _ Hq
              (storeMetricData_args_object now data members Hparse))
    as (d & W1 & Hcall & Hdone & Hq').
  exists d, W1. split; [ exact Hcall | ].
  split; [ apply Hq' | ].
  split; [ unfold envelope_row; cbn [MetricDataRow.data]; rewrite Hpayload; reflexivity | ].
  split.
  - pose proof (all_metric_resolves _ _ MetricAll Hq') as Hall.
    cbn [all_metric run_insert MetricDataTable] in Hall. rewrite map_app in Hall. exact Hall.
  - split; [ | apply stringify_not_self ].
    unfold loadMetricData, envelope_row. cbn [MetricDataRecord.data MetricDataRow.data].
    rewrite Hpayload. reflexivity.
Qed.

(** A metric with payload {"default": 0.93} stored on the busy store. *)
Lemma C10_metric_data_is_text_witness :
  let data := envelope (js "t3") (js "FINAL") (JSON.Num false [2] 1) accuracy in
  let members := [(js "parameterId", JSON.JStr (js "0"));
                  (js "trialJobId", JSON.JStr (js "t3"));
                  (js "type", JSON.JStr (js "FINAL"));
                  (js "sequence", JSON.JNum (JSON.Num false [2] 1));
                  (js "data", accuracy)] in
  quiescent busy_store busy_tables
  /\ JSON.parse data = Return (JSON.JObj members)
  /\ own_property members (js "data") = Some accuracy
  /\ exists d W1,
      storeMetricData 600 (js "t3") data busy_store = (Return d, W1)
      /\ current_tables (complete None W1)
         = Some (run_insert (InsertMetricData (envelope_row 600 members)) busy_tables)
      /\ MetricDataRow.data (envelope_row 600 members) = Some (JSON.stringify accuracy)
      /\ resolves_with (queryMetricData None None) (complete None W1)
           (RMetrics (map loadMetricData (MetricDataTable busy_tables)
                      ++ [loadMetricData (envelope_row 600 members)]))
      /\ MetricDataRecord.data (loadMetricData (envelope_row 600 members))
         = JSON.JStr (JSON.stringify accuracy)
      /\ JSON.JStr (JSON.stringify accuracy) <> accuracy.
Proof.
  intros data members.
  assert (Hparse : JSON.parse data = Return (JSON.JObj members)) by (vm_compute; reflexivity).
  assert (Hpayload : own_property members (js "data") = Some accuracy)
    by (vm_compute; reflexivity).
  split; [ exact busy_quiescent | ]. split; [ exact Hparse | ]. split; [ exact Hpayload | ].
  exact (C10_metric_data_is_text busy_store busy_tables 600 (js "t3") data members accuracy
           busy_quiescent Hparse Hpayload).
Defined.

(** ** The awaited promises along a run *)

Lemma keeps_awaiting_refl W : keeps_awaiting W W.
Proof. split; [ reflexivity | apply incl_refl ]. Qed.

Lemma keeps_awaiting_trans W1 W2 W3 :
  keeps_awaiting W1 W2 -> keeps_awaiting W2 W3 -> keeps_awaiting W1 W3.
Proof.
  intros [Hn1 Ha1] [Hn2 Ha2]. split; [ congruence | ].
  eapply incl_tran; eassumption.
Qed.

Lemma keeps_awaiting_consistent W W' :
  keeps_awaiting W W' -> consistent W = true -> consistent W' = true.
Proof.
  unfold consistent. intros [Hn Ha]. rewrite !forallb_forall. intros H a Hin.
  rewrite Hn. apply H, Ha, Hin.
Qed.

Lemma update_promise_keeps d f W :
  exists W', update_promise d f W = (Return tt, W') /\ keeps_awaiting W W'.
Proof.
  unfold update_promise, modify, run_reactions. eexists. split; [ reflexivity | ].
  destruct W as [ps n aw dbh task dirs dk op q0 sub unc]. cbn.
  destruct (alter f d ps !! d) as [ [ | | ] | ]; cbn; split; try reflexivity;
    try apply incl_refl; apply incl_filter.
Qed.

Lemma this_resolve_keeps {R T} d (inj : list T -> result) error (rows : option (list R))
    rowLoader W :
  exists r W', this_resolve d inj error rows rowLoader W = (r, W') /\ keeps_awaiting W W'.
Proof.
  unfold this_resolve. destruct (promises W !! d) as [ deferred | ].
  - destruct (resolve (held inj) deferred error rows rowLoader) as [ deferred' | e ].
    + destruct (update_promise_keeps d (fun _ => deferred') W) as (W' & -> & H).
      exists (Return tt), W'. auto.
    + exists (Throw e), W. split; [ reflexivity | apply keeps_awaiting_refl ].
  - exists (Throw TypeError), W. split; [ reflexivity | apply keeps_awaiting_refl ].
Qed.

Ltac crunch_awaiting W :=
  destruct W; cbv beta iota zeta delta
    [keeps_awaiting promises next_promise awaiting db initTask directories disk opened queue
     submitted uncaught set_promises set_next_promise set_awaiting set_db set_initTask
     set_disk set_opened set_queue set_submitted set_uncaught sqlite_open sqlite_exec
     sqlite_run sqlite_close current_tables];
  repeat match goal with
         | |- context [match ?x with _ => _ end] => destruct x
         | |- context [if ?x then _ else _] => destruct x
         end;
  eexists _, _; (split; [ reflexivity | ]); cbn; (split; [ reflexivity | apply incl_refl ]).

Lemma sqlite_open_keeps filename mode fault W :
  exists err W', sqlite_open filename mode fault W = (err, W') /\ keeps_awaiting W W'.
Proof. crunch_awaiting W. Qed.

Lemma sqlite_exec_keeps sql fault W :
  exists err W', sqlite_exec sql fault W = (err, W') /\ keeps_awaiting W W'.
Proof. crunch_awaiting W. Qed.

Lemma sqlite_run_keeps stmt fault W :
  exists err W', sqlite_run stmt fault W = (err, W') /\ keeps_awaiting W W'.
Proof. crunch_awaiting W. Qed.

Lemma sqlite_close_keeps fault W :
  exists err W', sqlite_close fault W = (err, W') /\ keeps_awaiting W W'.
Proof. crunch_awaiting W. Qed.

Lemma resolve_initTask_keeps err W :
  exists r W', resolve_initTask err W = (r, W') /\ keeps_awaiting W W'.
Proof.
  unfold resolve_initTask, bind, read, throw.
  destruct (initTask W) as [ t | ].
  - apply this_resolve_keeps.
  - exists (Throw TypeError), W. split; [ reflexivity | apply keeps_awaiting_refl ].
Qed.

Lemma on_open_keeps createNew err W :
  exists r W', on_open createNew err W = (r, W') /\ keeps_awaiting W W'.
Proof.
  unfold on_open. destruct err as [ e | ]; [ apply resolve_initTask_keeps | ].
  destruct createNew.
  - unfold submit. destruct (db W).
    + eexists _, _. split; [ reflexivity | ]. destruct W. split; [ reflexivity | apply incl_refl ].
    + eexists _, _. split; [ reflexivity | apply keeps_awaiting_refl ].
  - unfold bind, read, throw. destruct (initTask W) as [ t | ].
    + destruct (update_promise_keeps t (Deferred.resolve RVoid) W) as (W' & -> & H).
      eexists _, _. split; [ reflexivity | exact H ].
    + eexists _, _. split; [ reflexivity | apply keeps_awaiting_refl ].
Qed.

Lemma run_job_keeps fault j W :
  exists r W', run_job fault j W = (r, W') /\ keeps_awaiting W W'.
Proof.
  destruct j as [ f m c | sql err | d | stmt d | q d | q d | q d ]; unfold run_job.
  - destruct (sqlite_open_keeps f m fault W) as (err & W1 & -> & H1).
    destruct (on_open_keeps c err W1) as (r & W2 & Hr & H2).
    exists r, W2. split; [ exact Hr | eapply keeps_awaiting_trans; eassumption ].
  - destruct (sqlite_exec_keeps sql fault W) as (error & W1 & -> & H1).
    destruct (resolve_initTask_keeps err W1) as (r & W2 & Hr & H2).
    exists r, W2. split; [ exact Hr | eapply keeps_awaiting_trans; eassumption ].
  - destruct (sqlite_close_keeps fault W) as (err & W1 & -> & H1).
    destruct (this_resolve_keeps (R := unit) (T := unit) d (fun _ => RVoid) err None None W1)
      as (r & W2 & Hr & H2).
    exists r, W2. split; [ exact Hr | eapply keeps_awaiting_trans; eassumption ].
  - destruct (sqlite_run_keeps stmt fault W) as (err & W1 & -> & H1).
    destruct (this_resolve_keeps (R := unit) (T := unit) d (fun _ => RVoid) err None None W1)
      as (r & W2 & Hr & H2).
    exists r, W2. split; [ exact Hr | eapply keeps_awaiting_trans; eassumption ].
  - destruct (sqlite_all (all_profile q) fault W) as [err rows]. apply this_resolve_keeps.
  - destruct (sqlite_all (all_event q) fault W) as [err rows]. apply this_resolve_keeps.
  - destruct (sqlite_all (all_metric q) fault W) as [err rows]. apply this_resolve_keeps.
Qed.

Lemma complete_consistent fault W : consistent W = true -> consistent (complete fault W) = true.
Proof.
  intros H. unfold complete. destruct (queue W) as [ | j rest ] eqn:Hq; [ exact H | ].
  destruct (run_job_keeps fault j (set_queue rest W)) as (r & W' & -> & Hk).
  assert (H' : consistent W' = true).
  { eapply keeps_awaiting_consistent; [ exact Hk | ]. destruct W. exact H. }
  destruct r; [ exact H' | ]. destruct W'. exact H'.
Qed.

Lemma consistent_later W n :
  consistent W = true -> (next_promise W <= n)%nat -> consistent (set_next_promise n W) = true.
Proof.
  unfold consistent. rewrite !forallb_forall. intros H Hn a Hin.
  destruct W as [ps n0 aw dbh task dirs dk op q0 sub unc]. cbn in *.
  specialize (H a Hin). apply andb_true_iff in H as [H1 H2].
  apply andb_true_iff. split; [ exact H1 | ].
  apply Nat.ltb_lt in H2. apply Nat.ltb_lt. lia.
Qed.

Lemma submit_consistent (j : nat -> job) W r W' :
  consistent W = true ->
  (deferred <- new_Deferred ; submit (j deferred) ;; ret deferred) W = (r, W') ->
  consistent W' = true
  /\ (next_promise W' = S (next_promise W))
  /\ awaiting W' = awaiting W
  /\ forall d, r = Return d -> d = next_promise W.
Proof.
  intros H Hcall.
  pose proof (consistent_later W (S (next_promise W)) H ltac:(lia)) as H'.
  destruct W as [ps n aw dbh task dirs dk op q0 sub unc].
  revert Hcall. world_simpl. destruct dbh; intros [= <- <-]; cbn in *.
  - split; [ exact H' | ]. split; [ reflexivity | ]. split; [ reflexivity | ].
    intros d [= <-]. reflexivity.
  - split; [ exact H' | ]. split; [ reflexivity | ]. split; [ reflexivity | ].
    intros d [=].
Qed.

Lemma consistent_await W d own :
  consistent W = true -> (own < d)%nat -> (d < next_promise W)%nat ->
  consistent (set_awaiting (awaiting W ++ [(d, own)]) W) = true.
Proof.
  intros H Hown Hd. destruct W as [ps n aw dbh task dirs dk op q0 sub unc].
  unfold consistent in *. cbn [awaiting next_promise set_awaiting] in *.
  rewrite forallb_app, H. cbn [forallb fst snd andb].
  rewrite andb_true_r. apply andb_true_iff. split; apply Nat.ltb_lt; assumption.
Qed.

Lemma perform_consistent c W :
  consistent W = true -> consistent (snd (perform c W)) = true.
Proof.
  intros H.
  assert (Hjob : forall j : nat -> job,
             consistent
               (snd ((deferred <- new_Deferred ; submit (j deferred) ;; ret deferred) W)) = true).
  { intros j.
    destruct ((deferred <- new_Deferred ; submit (j deferred) ;; ret deferred) W)
      as [r W'] eqn:Hcall.
    apply (submit_consistent j W r W' H Hcall). }
  destruct c; cbn [perform]; try apply Hjob.
  - (* init *)
    pose proof (consistent_later W (S (next_promise W)) H ltac:(lia)) as H'.
    destruct W as [ps n aw dbh task dirs dk op q0 sub unc].
    unfold init. world_simpl. destruct task; [ exact H | ].
    destruct (bool_decide _); exact H'.
  - (* queryLatestExperimentProfile *)
    unfold queryLatestExperimentProfile.
    assert (Ha : consistent (allocate W) = true).
    { pose proof (consistent_later W (S (next_promise W)) H ltac:(lia)) as H'.
      destruct W. exact H'. }
    destruct (queryExperimentProfile experimentId None (allocate W)) as [r1 W1] eqn:Hq.
    destruct (submit_consistent (JobAllProfile (ProfileById experimentId)) (allocate W) r1 W1
                Ha Hq) as (Hc & Hn & Haw & Hd).
    destruct r1 as [ d | e ].
    + specialize (Hd d eq_refl). clear Hjob. cbn [snd].
      assert (Hnext : next_promise (allocate W) = S (next_promise W))
        by (destruct W; reflexivity).
      apply consistent_await; [ exact Hc | lia | lia ].
    + destruct W1. exact Hc.
  - (* storeMetricData *)
    unfold storeMetricData. destruct (storeMetricData_args now data); [ apply Hjob | exact H ].
Qed.

(** The promises awaited in a reachable state are in order. *)
Theorem run_consistent events W :
  consistent W = true -> consistent (snd (run events W)) = true.
Proof.
  revert W. induction events as [ | [ c | fault ] events IH ]; intros W H.
  - exact H.
  - cbn [run]. pose proof (perform_consistent c W H) as H1.
    destruct (perform c W) as [r W1]. specialize (IH W1 H1).
    destruct (run events W1) as [rs W2]. exact IH.
  - cbn [run]. apply IH, complete_consistent, H.
Qed.

Corollary reachable_consistent dirs files events :
  consistent (snd (run events (fresh dirs files))) = true.
Proof. apply run_consistent. reflexivity. Qed.

(** Hence a state reached from a store just constructed is quiescent as
    soon as the connection is open and the driver has worked off its
    queue. *)
Corollary reachable_quiescent dirs files events t :
  queue (snd (run events (fresh dirs files))) = [] ->
  current_tables (snd (run events (fresh dirs files))) = Some t ->
  quiescent (snd (run events (fresh dirs files))) t.
Proof. intros Hq Ht. split; [ apply reachable_consistent | split; assumption ]. Qed.

(** ** Initialisation *)

Lemma opens_app l j : opens (l ++ [j]) = (opens l + (if is_open j then 1 else 0))%nat.
Proof.
  unfold opens. rewrite List.filter_app, length_app. cbn. destruct (is_open j); reflexivity.
Qed.

Lemma execs_app l j : execs (l ++ [j]) = (execs l + (if is_exec j then 1 else 0))%nat.
Proof.
  unfold execs. rewrite List.filter_app, length_app. cbn. destruct (is_exec j); reflexivity.
Qed.

(** Settling a promise touches promises and suspended functions only. *)
Lemma update_promise_frame d f W :
  exists W', update_promise d f W = (Return tt, W')
             /\ initTask W' = initTask W /\ directories W' = directories W
             /\ submitted W' = submitted W /\ queue W' = queue W.
Proof.
  unfold update_promise, modify, run_reactions. eexists. split; [ reflexivity | ].
  destruct W as [ps n aw dbh task dirs dk op q0 sub unc]. cbn.
  destruct (alter f d ps !! d) as [ [ | | ] | ]; cbn; auto.
Qed.

Lemma this_resolve_frame {R T} d (inj : list T -> result) error (rows : option (list R))
    rowLoader W :
  exists r W', this_resolve d inj error rows rowLoader W = (r, W')
               /\ initTask W' = initTask W /\ directories W' = directories W
               /\ submitted W' = submitted W /\ queue W' = queue W.
Proof.
  unfold this_resolve. destruct (promises W !! d) as [ deferred | ].
  - destruct (resolve (held inj) deferred error rows rowLoader) as [ deferred' | e ].
    + destruct (update_promise_frame d (fun _ => deferred') W) as (W' & -> & H).
      exists (Return tt), W'. auto.
    + exists (Throw e), W. auto.
  - exists (Throw TypeError), W. auto.
Qed.

(** A job that is neither the open nor the script, given to the driver or
    not, keeps the counts. *)
Lemma submit_other (j : nat -> job) W r W' :
  (forall d, is_open (j d) = false) -> (forall d, is_exec (j d) = false) ->
  (deferred <- new_Deferred ; submit (j deferred) ;; ret deferred) W = (r, W') ->
  same_init W W'
  /\ opens (submitted W') = opens (submitted W)
  /\ execs (submitted W') = execs (submitted W)
  /\ opens (queue W') = opens (queue W).
Proof.
  intros Hopen Hexec Hcall.
  destruct W as [ps n aw dbh task dirs dk op q0 sub unc].
  revert Hcall. world_simpl. destruct dbh; intros [= <- <-]; cbn [initTask directories
    submitted queue]; unfold same_init; cbn [initTask directories];
    rewrite ?opens_app, ?execs_app, ?Hopen, ?Hexec; auto with arith.
Qed.

(** Every method but [init] keeps the counts and the init task. *)
Lemma perform_other c W r W' :
  (forall createNew dbDir, c <> Init createNew dbDir) ->
  perform c W = (r, W') ->
  same_init W W'
  /\ opens (submitted W') = opens (submitted W)
  /\ execs (submitted W') = execs (submitted W)
  /\ opens (queue W') = opens (queue W).
Proof.
  intros Hc Hcall.
  assert (Hjob : forall j : nat -> job,
             (forall d, is_open (j d) = false) -> (forall d, is_exec (j d) = false) ->
             (deferred <- new_Deferred ; submit (j deferred) ;; ret deferred) W = (r, W') ->
             same_init W W'
             /\ opens (submitted W') = opens (submitted W)
             /\ execs (submitted W') = execs (submitted W)
             /\ opens (queue W') = opens (queue W))
    by (intros j; apply submit_other).
  destruct c; cbn [perform] in Hcall.
  - exfalso. eapply Hc. reflexivity.
  - eapply Hjob; [ | | exact Hcall ]; reflexivity.
  - eapply Hjob; [ | | exact Hcall ]; reflexivity.
  - eapply Hjob; [ | | exact Hcall ]; reflexivity.
  - clear Hjob. unfold queryLatestExperimentProfile in Hcall.
    destruct (queryExperimentProfile experimentId None (allocate W)) as [r1 W1] eqn:Hq.
    apply (submit_other (JobAllProfile (ProfileById experimentId)) (allocate W) r1 W1)
      in Hq as (Hsame & Ho & He & Hq); [ | reflexivity | reflexivity ].
    destruct W as [ps n aw dbh task dirs dk op q0 sub unc].
    destruct W1 as [ps1 n1 aw1 dbh1 task1 dirs1 dk1 op1 q1 sub1 unc1].
    unfold same_init in *. cbn in Hsame, Ho, He, Hq.
    destruct r1; injection Hcall as <- <-; cbn; auto.
  - eapply Hjob; [ | | exact Hcall ]; reflexivity.
  - eapply Hjob; [ | | exact Hcall ]; reflexivity.
  - unfold storeMetricData in Hcall.
    destruct (storeMetricData_args now data) as [ args | e ].
    + eapply Hjob; [ | | exact Hcall ]; reflexivity.
    + injection Hcall as <- <-. unfold same_init. auto.
  - eapply Hjob; [ | | exact Hcall ]; reflexivity.
Qed.

Lemma same_jobs_trans W1 W2 W3 : same_jobs W1 W2 -> same_jobs W2 W3 -> same_jobs W1 W3.
Proof. unfold same_jobs. intros (? & ? & ? & ?) (? & ? & ? & ?). repeat split; congruence. Qed.

Ltac crunch_world W :=
  destruct W; cbv beta iota zeta delta
    [same_jobs promises next_promise awaiting db initTask directories disk opened queue
     submitted uncaught set_promises set_next_promise set_awaiting set_db set_initTask
     set_disk set_opened set_queue set_submitted set_uncaught sqlite_open sqlite_exec
     sqlite_run sqlite_close current_tables];
  repeat match goal with
         | |- context [match ?x with _ => _ end] => destruct x
         | |- context [if ?x then _ else _] => destruct x
         end;
  eexists _, _; (split; [ reflexivity | ]); cbn; auto.

Lemma sqlite_open_same filename mode fault W :
  exists err W', sqlite_open filename mode fault W = (err, W') /\ same_jobs W W'.
Proof. crunch_world W. Qed.

Lemma sqlite_exec_same sql fault W :
  exists err W', sqlite_exec sql fault W = (err, W') /\ same_jobs W W'.
Proof. crunch_world W. Qed.

Lemma sqlite_run_same stmt fault W :
  exists err W', sqlite_run stmt fault W = (err, W') /\ same_jobs W W'.
Proof. crunch_world W. Qed.

Lemma sqlite_close_same fault W :
  exists err W', sqlite_close fault W = (err, W') /\ same_jobs W W'.
Proof. crunch_world W. Qed.

Lemma this_resolve_same {R T} d (inj : list T -> result) error (rows : option (list R))
    rowLoader W :
  exists r W', this_resolve d inj error rows rowLoader W = (r, W') /\ same_jobs W W'.
Proof.
  destruct (this_resolve_frame d inj error rows rowLoader W) as (r & W' & Heq & H).
  exists r, W'. split; [ exact Heq | exact H ].
Qed.

Lemma resolve_initTask_same err W :
  exists r W', resolve_initTask err W = (r, W') /\ same_jobs W W'.
Proof.
  unfold resolve_initTask, bind, read, throw.
  destruct (initTask W) as [ t | ].
  - apply this_resolve_same.
  - exists (Throw TypeError), W. unfold same_jobs. auto.
Qed.

(** A callback other than that of the open submits nothing. *)
Lemma run_job_same fault j W :
  is_open j = false ->
  exists r W', run_job fault j W = (r, W') /\ same_jobs W W'.
Proof.
  intros Hj. destruct j as [ f m c | sql err | d | stmt d | q d | q d | q d ];
    [ discriminate | .. ]; unfold run_job.
  - destruct (sqlite_exec_same sql fault W) as (error & W1 & -> & H1).
    destruct (resolve_initTask_same err W1) as (r & W2 & Hr & H2).
    exists r, W2. split; [ exact Hr | eapply same_jobs_trans; eassumption ].
  - destruct (sqlite_close_same fault W) as (err & W1 & -> & H1).
    destruct (this_resolve_same (R := unit) (T := unit) d (fun _ => RVoid) err None None W1)
      as (r & W2 & Hr & H2).
    exists r, W2. split; [ exact Hr | eapply same_jobs_trans; eassumption ].
  - destruct (sqlite_run_same stmt fault W) as (err & W1 & -> & H1).
    destruct (this_resolve_same (R := unit) (T := unit) d (fun _ => RVoid) err None None W1)
      as (r & W2 & Hr & H2).
    exists r, W2. split; [ exact Hr | eapply same_jobs_trans; eassumption ].
  - destruct (sqlite_all (all_profile q) fault W) as [err rows]. apply this_resolve_same.
  - destruct (sqlite_all (all_event q) fault W) as [err rows]. apply this_resolve_same.
  - destruct (sqlite_all (all_metric q) fault W) as [err rows]. apply this_resolve_same.
Qed.

(** The callback of the open submits the script, once, or nothing. *)
Lemma run_job_open fault filename mode createNew W :
  exists r W', run_job fault (JobOpen filename mode createNew) W = (r, W')
    /\ initTask W' = initTask W /\ directories W' = directories W
    /\ ((submitted W' = submitted W /\ queue W' = queue W)
        \/ (exists err, submitted W' = submitted W ++ [JobExec createTables err]
                        /\ queue W' = queue W ++ [JobExec createTables err])).
Proof.
  unfold run_job.
  destruct (sqlite_open_same filename mode fault W) as (err & W1 & -> & (Hi & Hd & Hs & Hq)).
  unfold on_open. destruct err as [ e | ].
  - destruct (resolve_initTask_same (Some e) W1) as (r & W2 & Hr & (Hi2 & Hd2 & Hs2 & Hq2)).
    exists r, W2. split; [ exact Hr | ].
    split; [ congruence | split; [ congruence | ] ]. left. split; congruence.
  - destruct createNew.
    + unfold submit. destruct (db W1).
      * eexists _, _. split; [ reflexivity | ].
        destruct W1 as [ps n aw dbh task dirs dk op q0 sub unc].
        cbv beta iota delta [enqueue set_submitted set_queue submitted queue initTask
                             directories] in *.
        split; [ assumption | split; [ assumption | ] ].
        right. exists None. rewrite Hs, Hq. split; reflexivity.
      * eexists _, _. split; [ reflexivity | ].
        split; [ assumption | split; [ assumption | ] ]. left. auto.
    + unfold bind, read, throw. destruct (initTask W1) as [ t | ] eqn:Ht.
      * destruct (update_promise_frame t (Deferred.resolve RVoid) W1)
          as (W2 & -> & Hi2 & Hd2 & Hs2 & Hq2).
        eexists _, _. split; [ reflexivity | ].
        split; [ congruence | split; [ congruence | ] ]. left. split; congruence.
      * eexists _, _. split; [ reflexivity | ].
        split; [ congruence | split; [ congruence | ] ]. left. auto.
Qed.

Lemma complete_single_flight fault W :
  single_flight W -> single_flight (complete fault W) /\ same_init W (complete fault W).
Proof.
  intros (Hopens & Hexecs & Hnone). unfold complete.
  destruct (queue W) as [ | j rest ] eqn:Hqueue.
  { split; [ unfold single_flight; rewrite Hqueue; auto | split; reflexivity ]. }
  assert (Hpop : same_init W (set_queue rest W)
                 /\ submitted (set_queue rest W) = submitted W
                 /\ queue (set_queue rest W) = rest)
    by (destruct W; repeat split).
  destruct Hpop as ((Hi0 & Hd0) & Hs0 & Hq0).
  assert (Hcount : opens (j :: rest) = ((if is_open j then 1 else 0) + opens rest)%nat)
    by (unfold opens; cbn; destruct (is_open j); reflexivity).
  rewrite Hcount in *.
  assert (Huncaught : forall e W1, single_flight W1 /\ same_init W W1 ->
                                   single_flight (set_uncaught (uncaught W1 ++ [e]) W1)
                                   /\ same_init W (set_uncaught (uncaught W1 ++ [e]) W1))
    by (intros e W1; destruct W1; exact (fun H => H)).
  destruct (is_open j) eqn:Hj.
  - destruct j as [ f m c | | | | | | ]; try discriminate.
    destruct (run_job_open fault f m c (set_queue rest W))
      as (r & W1 & -> & Hi & Hd & Hjobs).
    assert (Hgoal : single_flight W1 /\ same_init W W1).
    { split; [ | split; congruence ].
      assert (Htask : exists t, initTask W = Some t).
      { destruct (initTask W) as [ t | ]; [ eauto | ]. destruct (Hnone eq_refl) as (_ & _ & H).
        discriminate. }
      destruct Htask as [t Htask].
      destruct Hjobs as [(Hs & Hq) | (err & Hs & Hq)]; unfold single_flight;
        rewrite Hs, Hq, ?Hs0, ?Hq0, ?opens_app, ?execs_app; cbn [is_open is_exec];
        (split; [ lia | split; [ lia | ] ]); rewrite Hi, Hi0, Htask; discriminate. }
    destruct r; [ exact Hgoal | apply Huncaught, Hgoal ].
  - destruct (run_job_same fault j (set_queue rest W) Hj) as (r & W1 & -> & Hi & Hd & Hs & Hq).
    assert (Hgoal : single_flight W1 /\ same_init W W1).
    { split; [ | split; congruence ].
      unfold single_flight. rewrite Hs, Hq, Hs0, Hq0, Hi, Hi0.
      split; [ lia | split; [ lia | ] ]. intros Htask. specialize (Hnone Htask). lia. }
    destruct r; [ exact Hgoal | apply Huncaught, Hgoal ].
Qed.

(** Once the init task exists, [init] returns its promise and does nothing
    else. *)
Lemma init_again W t createNew dbDir :
  initTask W = Some t -> init createNew dbDir W = (Return t, W).
Proof. intros H. unfold init, bind, read. rewrite H. reflexivity. Qed.

(** The first call creates the init task; where the directory exists it
    gives the file to the driver and returns the task's promise. *)
Lemma init_first W createNew dbDir :
  initTask W = None -> single_flight W ->
  exists r W',
    init createNew dbDir W = (r, W')
    /\ initTask W' = Some (next_promise W)
    /\ directories W' = directories W
    /\ single_flight W'
    /\ ((dbDir ∈ directories W /\ r = Return (next_promise W))
        \/ ((dbDir ∉ directories W) /\ r = Throw AssertionError)).
Proof.
  intros Htask (_ & _ & Hnone). destruct (Hnone Htask) as (Ho & He & Hq).
  destruct W as [ps n aw dbh task dirs dk op q0 sub unc].
  cbv beta iota delta [initTask submitted queue] in Htask, Ho, He, Hq. subst task.
  unfold init. world_simpl.
  destruct (bool_decide (dbDir ∈ dirs)) eqn:Hdir; cbv beta iota delta [negb].
  - eexists _, _. split; [ reflexivity | ].
    cbv beta iota delta [initTask directories submitted queue next_promise].
    split; [ reflexivity | split; [ reflexivity | split ] ].
    + unfold single_flight. cbv beta iota delta [initTask submitted queue].
      rewrite !opens_app, execs_app, Ho, He, Hq. cbn [is_open is_exec].
      split; [ lia | split; [ lia | discriminate ] ].
    + left. apply bool_decide_eq_true in Hdir. split; [ exact Hdir | reflexivity ].
  - eexists _, _. split; [ reflexivity | ].
    cbv beta iota delta [initTask directories submitted queue next_promise].
    split; [ reflexivity | split; [ reflexivity | split ] ].
    + unfold single_flight. cbv beta iota delta [initTask submitted queue].
      rewrite Ho, He, Hq. split; [ lia | split; [ lia | discriminate ] ].
    + right. apply bool_decide_eq_false in Hdir. split; [ exact Hdir | reflexivity ].
Qed.

(** Along a run: the init task, once created, stays; every later [init]
    returns its promise; the counts stay within bounds. *)
Lemma run_single_flight events :
  forall W trace W',
    single_flight W -> run events W = (trace, W') ->
    single_flight W' /\ directories W' = directories W
    /\ match initTask W with
       | Some t => initTask W' = Some t /\ Forall (fun c => snd c = Return t) (init_calls trace)
       | None =>
         match init_calls trace with
         | [] => initTask W' = None
         | (createNew, dbDir, first) :: later =>
           exists t, initTask W' = Some t
                     /\ Forall (fun c => snd c = Return t) later
                     /\ ((dbDir ∈ directories W /\ first = Return t)
                         \/ ((dbDir ∉ directories W) /\ first = Throw AssertionError))
         end
       end.
Proof.
  induction events as [ | [ c | fault ] events IH ]; intros W trace W' Hsf Hrun.
  - cbn in Hrun. injection Hrun as <- <-. split; [ exact Hsf | split; [ reflexivity | ] ].
    destruct (initTask W); [ split; [ reflexivity | constructor ] | reflexivity ].
  - cbn [run] in Hrun. destruct (perform c W) as [r W1] eqn:Hcall.
    destruct (run events W1) as [rs W2] eqn:Hrest. injection Hrun as <- <-.
    destruct c as [ createNew dbDir | | exp | i rv | i | now e t d l | t e | now t d | t m ].
    { (* a call of init *)
      cbn [perform] in Hcall. cbn [init_calls].
      destruct (initTask W) as [ t | ] eqn:Htask.
      - rewrite (init_again W t createNew dbDir Htask) in Hcall. injection Hcall as <- <-.
        destruct (IH W rs W2 Hsf Hrest) as (Hsf2 & Hdirs & Hlater). rewrite Htask in Hlater.
        split; [ exact Hsf2 | split; [ exact Hdirs | ] ].
        destruct Hlater as [Ht Hall]. split; [ exact Ht | constructor; [ reflexivity | exact Hall ] ].
      - destruct (init_first W createNew dbDir Htask Hsf)
          as (r' & W1' & Hcall' & Htask1 & Hdirs1 & Hsf1 & Hret).
        rewrite Hcall' in Hcall. injection Hcall as <- <-.
        destruct (IH W1' rs W2 Hsf1 Hrest) as (Hsf2 & Hdirs & Hlater). rewrite Htask1 in Hlater.
        split; [ exact Hsf2 | split; [ congruence | ] ].
        exists (next_promise W). destruct Hlater as [Ht Hall]. auto. }
    all: match type of Hcall with
         | perform ?c ?W0 = (?r0, ?W10) =>
           assert (Hother : forall createNew dbDir, c <> Init createNew dbDir) by discriminate;
           destruct (perform_other c W0 r0 W10 Hother Hcall) as ((Hi & Hd) & Ho & He & Hq)
         end;
      assert (Hsf1 : single_flight W1)
        by (destruct Hsf as (H1 & H2 & H3); unfold single_flight; rewrite Ho, He, Hq, Hi; auto);
      destruct (IH W1 rs W2 Hsf1 Hrest) as (Hsf2 & Hdirs & Hlater);
      rewrite Hi, Hd in *; cbn [init_calls]; auto.
  - cbn [run] in Hrun.
    destruct (complete_single_flight fault W Hsf) as (Hsf1 & Hi & Hd).
    destruct (IH (complete fault W) trace W' Hsf1 Hrun) as (Hsf2 & Hdirs & Hlater).
    rewrite Hi, Hd in *. auto.
Qed.

Lemma single_flight_fresh dirs files : single_flight (fresh dirs files).
Proof. unfold single_flight. cbn. repeat split; lia. Qed.

(** C2.  In every run of the store, whatever the calls and whatever the
    driver does in between: every call of [init] after the first returns
    the promise of the one init task, and so does the first call, which
    returns unless its directory is missing and the assertion throws; the
    driver is given the file to open at most once and the schema script at
    most once; and in the state reached a further call of [init] returns
    that same promise and changes nothing, so that the open and the script
    are the first call's alone. *)
Theorem C2_init_single_flight dirs files events trace W createNew dbDir first later :
  run events (fresh dirs files) = (trace, W) ->
  init_calls trace = (createNew, dbDir, first) :: later ->
  exists t,
    ((dbDir ∈ dirs /\ first = Return t) \/ ((dbDir ∉ dirs) /\ first = Throw AssertionError))
    /\ Forall (fun c => snd c = Return t) later
    /\ (opens (submitted W) <= 1)%nat
    /\ (execs (submitted W) <= 1)%nat
    /\ forall createNew' dbDir', init createNew' dbDir' W = (Return t, W).
Proof.
  intros Hrun Hcalls.
  destruct (run_single_flight events _ trace W (single_flight_fresh dirs files) Hrun)
    as ((Hopens & Hexecs & _) & _ & Hinit).
  cbn [initTask fresh] in Hinit. rewrite Hcalls in Hinit.
  destruct Hinit as (t & Htask & Hlater & Hfirst).
  exists t. split; [ exact Hfirst | ]. split; [ exact Hlater | ].
  split; [ exact Hopens | ]. split; [ lia | ].
  intros createNew' dbDir'. apply init_again, Htask.
Qed.

Lemma C2_init_single_flight_witness :
  init_calls (fst (run three_inits (fresh [data_dir] ∅)))
  = [(true, data_dir, Return 0%nat); (false, js "/elsewhere", Return 0%nat);
     (true, data_dir, Return 0%nat)]
  /\ exists t,
      ((data_dir ∈ [data_dir] /\ Return 0%nat = Return t)
       \/ ((data_dir ∉ [data_dir]) /\ Return 0%nat = Throw AssertionError))
      /\ Forall (fun c => snd c = Return t)
                [(false, js "/elsewhere", Return 0%nat); (true, data_dir, Return 0%nat)]
      /\ (opens (submitted (snd (run three_inits (fresh [data_dir] ∅)))) <= 1)%nat
      /\ (execs (submitted (snd (run three_inits (fresh [data_dir] ∅)))) <= 1)%nat
      /\ forall createNew' dbDir',
          init createNew' dbDir' (snd (run three_inits (fresh [data_dir] ∅)))
          = (Return t, snd (run three_inits (fresh [data_dir] ∅))).
Proof.
  assert (Hrun : run three_inits (fresh [data_dir] ∅)
                 = (fst (run three_inits (fresh [data_dir] ∅)),
                    snd (run three_inits (fresh [data_dir] ∅))))
    by apply surjective_pairing.
  assert (Hcalls : init_calls (fst (run three_inits (fresh [data_dir] ∅)))
                   = [(true, data_dir, Return 0%nat); (false, js "/elsewhere", Return 0%nat);
                      (true, data_dir, Return 0%nat)])
    by (vm_compute; reflexivity).
  split; [ exact Hcalls | ].
  exact (C2_init_single_flight [data_dir] ∅ three_inits _ _ true data_dir (Return 0%nat) _
           Hrun Hcalls).
Defined.

Lemma init_fresh createNew dbDir dirs files :
  init createNew dbDir (fresh (dbDir :: dirs) files)
  = (Return 0%nat, initialising createNew dbDir dirs files).
Proof.
  assert (Hdir : bool_decide (dbDir ∈ dbDir :: dirs) = true)
    by (apply bool_decide_eq_true, elem_of_cons; left; reflexivity).
  unfold init, fresh, initialising. world_simpl. rewrite Hdir. cbv beta iota delta [negb].
  world_simpl. reflexivity.
Qed.

(** The init task settles by the error its callback passes on. *)
Lemma resolve_initTask_pending err W t :
  initTask W = Some t -> promises W !! t = Some Deferred.Pending -> awaiting W = [] ->
  exists W',
    resolve_initTask err W = (Return tt, W')
    /\ promises W' !! t = Some match err with
                               | Some e => Deferred.Rejected e
                               | None => Deferred.Fulfilled RVoid
                               end
    /\ initTask W' = initTask W /\ queue W' = queue W /\ awaiting W' = [].
Proof.
  intros Htask Hpending Hawait.
  destruct W as [ps n aw dbh task dirs dk op q0 sub unc].
  cbv beta iota delta [initTask promises awaiting] in Htask, Hpending, Hawait. subst task aw.
  unfold resolve_initTask. world_simpl.
  erewrite this_resolve_unawaited; [ | exact Hpending | intros a Ha; inversion Ha ].
  destruct err as [ e | ]; (eexists; split; [ reflexivity | ]);
    world_simpl; rewrite lookup_alter_eq, Hpending; auto.
Qed.

(** When the open succeeds under [createNew], its callback hands the
    script to the driver and leaves the init task pending. *)
Lemma open_succeeds dbDir dirs files :
  let W := complete None (initialising true dbDir dirs files) in
  queue W = [JobExec createTables None]
  /\ initTask W = Some 0%nat
  /\ promises W !! 0%nat = Some Deferred.Pending
  /\ awaiting W = [].
Proof.
  unfold initialising, complete. world_simpl.
  destruct (files !! path_join dbDir (js "nni.sqlite")) as [ file | ].
  - world_simpl. cbn [app]. rewrite lookup_insert_eq. auto.
  - change (negb (Z.land (Z.lor OPEN_CREATE OPEN_READWRITE) OPEN_CREATE =? 0)%Z) with true.
    world_simpl. cbn [app]. rewrite lookup_insert_eq. auto.
Qed.

Ltac crunch_driver W :=
  destruct W; cbv beta iota zeta delta
    [driver_only promises next_promise awaiting db initTask directories disk opened queue
     submitted uncaught set_promises set_next_promise set_awaiting set_db set_initTask
     set_disk set_opened set_queue set_submitted set_uncaught sqlite_open sqlite_exec
     sqlite_run sqlite_close current_tables];
  repeat match goal with
         | |- context [match ?x with _ => _ end] => destruct x
         | |- context [if ?x then _ else _] => destruct x
         end;
  eexists _, _; (split; [ reflexivity | ]); auto.

Lemma sqlite_exec_driver_only sql fault W :
  exists err W', sqlite_exec sql fault W = (err, W') /\ driver_only W W'.
Proof. crunch_driver W. Qed.

(** The callback of the script: whatever [error] the driver reports, the
    init task is settled by [err]. *)
Lemma exec_completes W sql err fault t :
  queue W = [JobExec sql err] -> initTask W = Some t ->
  promises W !! t = Some Deferred.Pending -> awaiting W = [] ->
  promises (complete fault W) !! t = Some match err with
                                          | Some e => Deferred.Rejected e
                                          | None => Deferred.Fulfilled RVoid
                                          end
  /\ queue (complete fault W) = [].
Proof.
  intros Hqueue Htask Hpending Hawait. unfold complete. rewrite Hqueue.
  unfold run_job, on_exec.
  assert (H0 : promises (set_queue [] W) = promises W /\ awaiting (set_queue [] W) = awaiting W
               /\ initTask (set_queue [] W) = initTask W /\ queue (set_queue [] W) = [])
    by (destruct W; auto).
  destruct H0 as (Hp0 & Ha0 & Ht0 & Hq0).
  destruct (sqlite_exec_driver_only sql fault (set_queue [] W))
    as (e' & W1 & -> & Hp1 & Ha1 & Ht1 & Hq1).
  destruct (resolve_initTask_pending err W1 t) as (W2 & -> & Hp2 & _ & Hq2 & _);
    [ congruence | congruence | congruence | ].
  split; [ exact Hp2 | congruence ].
Qed.

(** When the open fails, its callback rejects the init task. *)
Lemma open_fails createNew dbDir dirs files error :
  promises (complete (Some error) (initialising createNew dbDir dirs files)) !! 0%nat
  = Some (Deferred.Rejected error).
Proof.
  unfold initialising, complete. world_simpl.
  erewrite this_resolve_unawaited;
    [ | apply lookup_insert_eq | intros a Ha; inversion Ha ].
  cbn [resolve]. world_simpl. rewrite lookup_alter_eq, lookup_insert_eq. reflexivity.
Qed.

(** C1 fails on the code.  After [init(true, dbDir)] on an existing
    directory, when the open succeeds and the driver then reports [error]
    for the schema script, the init task is resolved, not rejected: the
    callback of [exec] passes on the (null) error of the open.  When it is
    the open that fails with [error], the init task is rejected with it. *)
Theorem C1_init_exec_error_resolves dirs files dbDir error :
  let start := fresh (dbDir :: dirs) files in
  let exec_fails := run [Call (Init true dbDir); Complete None; Complete (Some error)] start in
  let open_fails := run [Call (Init true dbDir); Complete (Some error)] start in
  fst exec_fails = [(Init true dbDir, Return 0%nat)]
  /\ promises (snd exec_fails) !! 0%nat = Some (Deferred.Fulfilled RVoid)
  /\ queue (snd exec_fails) = []
  /\ fst open_fails = [(Init true dbDir, Return 0%nat)]
  /\ promises (snd open_fails) !! 0%nat = Some (Deferred.Rejected error).
Proof.
  intros start exec_fails open_fails. subst start exec_fails open_fails.
  cbn [run perform]. rewrite init_fresh. cbn [fst snd].
  destruct (open_succeeds dbDir dirs files) as (Hq & Ht & Hp & Ha).
  destruct (exec_completes _ createTables None (Some error) 0%nat Hq Ht Hp Ha) as (Hdone & Hq').
  split; [ reflexivity | ]. split; [ exact Hdone | ]. split; [ exact Hq' | ].
  split; [ reflexivity | ]. apply open_fails.
Qed.

(** ** Trial job events and metrics, stored and found *)

(** X1.  A trial job event stored on a quiescent store is found again: the
    promise of [storeTrialJobEvent] is fulfilled, and every later
    [queryTrialJobEvent] is fulfilled with the records it gave before,
    followed, when the event matches the filters given, by one record
    with the time of the call, the trialJobId and the event as passed,
    and data and logPath as passed or undefined when they were left out. *)
Theorem X1_trial_job_event_round_trip W t now event trialJobId data logPath :
  quiescent W t ->
  exists d W1,
    storeTrialJobEvent now event trialJobId data logPath W = (Return d, W1)
    /\ promises (complete None W1) !! d = Some (Deferred.Fulfilled RVoid)
    /\ forall byTrialJobId byEvent,
        resolves_with (queryTrialJobEvent byTrialJobId byEvent) (complete None W1)
          (REvents
             (map loadTrialJobEvent
                  (List.filter
                     (fun r => matches jstring_eqb byTrialJobId (TrialJobEventRow.trialJobId r)
                               && matches jstring_eqb byEvent (TrialJobEventRow.event r))
                     (TrialJobEventTable t))
              ++ if matches jstring_eqb byTrialJobId trialJobId
                    && matches jstring_eqb byEvent event
                 then [TrialJobEventRecord.mk (new_Date now) trialJobId event data logPath]
                 else [])).
Proof.
  intros Hq.
  destruct (insert_resolves W t
              (InsertTrialJobEvent (TrialJobEventRow.mk now trialJobId event data logPath)) Hq)
    as (d & W1 & Hcall & Hdone & Hq').
  exists d, W1. split; [ exact Hcall | ]. split; [ exact Hdone | ].
  intros byTrialJobId byEvent.
  pose proof (all_event_resolves _ _
                match byTrialJobId, byEvent with
                | None, None => EventAll
                | None, Some event => EventByEvent event
                | Some trialJobId, None => EventByTrialJobId trialJobId
                | Some trialJobId, Some event => EventByTrialJobIdEvent trialJobId event
                end Hq') as Hquery.
  rewrite all_event_matches in Hquery.
  cbn [run_insert TrialJobEventTable] in Hquery.
  rewrite List.filter_app, map_app in Hquery.
  cbn [List.filter TrialJobEventRow.trialJobId TrialJobEventRow.event] in Hquery.
  destruct (matches jstring_eqb byTrialJobId trialJobId && matches jstring_eqb byEvent event);
    [ | exact Hquery ].
  destruct data, logPath; exact Hquery.
Qed.

(** X1 on the store with three events, for an event without data and
    logPath. *)
Lemma X1_trial_job_event_round_trip_witness :
  quiescent busy_store busy_tables
  /\ exists d W1,
      storeTrialJobEvent 900 (js "FAILED") (js "t2") None None busy_store = (Return d, W1)
      /\ promises (complete None W1) !! d = Some (Deferred.Fulfilled RVoid)
      /\ forall byTrialJobId byEvent,
          resolves_with (queryTrialJobEvent byTrialJobId byEvent) (complete None W1)
            (REvents
               (map loadTrialJobEvent
                    (List.filter
                       (fun r => matches jstring_eqb byTrialJobId (TrialJobEventRow.trialJobId r)
                                 && matches jstring_eqb byEvent (TrialJobEventRow.event r))
                       (TrialJobEventTable busy_tables))
                ++ if matches jstring_eqb byTrialJobId (js "t2")
                      && matches jstring_eqb byEvent (js "FAILED")
                   then [TrialJobEventRecord.mk (new_Date 900) (js "t2") (js "FAILED") None None]
                   else [])).
Proof.
  split; [ exact busy_quiescent | ].
  exact (X1_trial_job_event_round_trip busy_store busy_tables 900 (js "FAILED") (js "t2")
           None None busy_quiescent).
Defined.

(** X2.  A metric whose envelope names its trial job and its type as
    strings is found under them: after [storeMetricData], whatever its
    first argument, every [queryMetricData] is fulfilled with the records
    it gave before, followed, when the envelope's trialJobId and type
    match the filters given, by the record of the new row, which carries
    those two strings and the time of the call. *)
Theorem X2_metric_found_by_envelope W t now trialJobId data members id type :
  quiescent W t ->
  JSON.parse data = Return (JSON.JObj members) ->
  own_property members (js "trialJobId") = Some (JSON.JStr id) ->
  own_property members (js "type") = Some (JSON.JStr type) ->
  exists d W1,
    storeMetricData now trialJobId data W = (Return d, W1)
    /\ promises (complete None W1) !! d = Some (Deferred.Fulfilled RVoid)
    /\ MetricDataRecord.trialJobId (loadMetricData (envelope_row now members)) = JSON.JStr id
    /\ MetricDataRecord.type (loadMetricData (envelope_row now members)) = JSON.JStr type
    /\ MetricDataRecord.timestamp (loadMetricData (envelope_row now members)) = new_Date now
    /\ forall byTrialJobId byType,
        resolves_with (queryMetricData byTrialJobId byType) (complete None W1)
          (RMetrics
             (map loadMetricData
                  (List.filter
                     (fun r => matches text_eq byTrialJobId (MetricDataRow.trialJobId r)
                               && matches text_eq byType (MetricDataRow.type r))
                     (MetricDataTable t))
              ++ if matches jstring_eqb byTrialJobId id && matches jstring_eqb byType type
                 then [loadMetricData (envelope_row now members)]
                 else [])).
Proof.
  intros Hq Hparse Hid Htype.
  destruct (storeMetricData_resolves W t now trialJobId data _ Hq
              (storeMetricData_args_object now data members Hparse))
    as (d & W1 & Hcall & Hdone & Hq').
  exists d, W1. split; [ exact Hcall | ]. split; [ exact Hdone | ].
  split.
  { unfold loadMetricData, envelope_row.
    cbn [MetricDataRecord.trialJobId MetricDataRow.trialJobId]. rewrite Hid. reflexivity. }
  split.
  { unfold loadMetricData, envelope_row.
    cbn [MetricDataRecord.type MetricDataRow.type]. rewrite Htype. reflexivity. }
  split; [ reflexivity | ].
  intros byTrialJobId byType.
  pose proof (all_metric_resolves _ _
                match byType, byTrialJobId with
                | None, None => MetricAll
                | Some metricType, None => MetricByType metricType
                | None, Some trialJobId => MetricByTrialJobId trialJobId
                | Some metricType, Some trialJobId =>
                  MetricByTrialJobIdType trialJobId metricType
                end Hq') as Hquery.
  rewrite all_metric_matches in Hquery.
  cbn [run_insert MetricDataTable] in Hquery.
  rewrite List.filter_app, map_app in Hquery.
  cbn [List.filter] in Hquery.
  assert (Hrow : forall given, matches text_eq given (Sqlite.bind (Some (JSON.JStr id)))
                               = matches jstring_eqb given id)
    by (intros [ x | ]; reflexivity).
  assert (Hrow' : forall given, matches text_eq given (Sqlite.bind (Some (JSON.JStr type)))
                                = matches jstring_eqb given type)
    by (intros [ x | ]; reflexivity).
  unfold envelope_row at 1 2 in Hquery.
  cbn [MetricDataRow.trialJobId MetricDataRow.type] in Hquery.
  rewrite Hid, Htype, Hrow, Hrow' in Hquery.
  destruct (matches jstring_eqb byTrialJobId id && matches jstring_eqb byType type);
    exact Hquery.
Qed.

(** X2 on the store with two metrics, for an envelope stored under
    another trial job's name. *)
Lemma X2_metric_found_by_envelope_witness :
  let data := envelope (js "t3") (js "FINAL") (JSON.Num false [2] 1) accuracy in
  let members := [(js "parameterId", JSON.JStr (js "0"));
                  (js "trialJobId", JSON.JStr (js "t3"));
                  (js "type", JSON.JStr (js "FINAL"));
                  (js "sequence", JSON.JNum (JSON.Num false [2] 1));
                  (js "data", accuracy)] in
  quiescent busy_store busy_tables
  /\ JSON.parse data = Return (JSON.JObj members)
  /\ own_property members (js "trialJobId") = Some (JSON.JStr (js "t3"))
  /\ own_property members (js "type") = Some (JSON.JStr (js "FINAL"))
  /\ exists d W1,
      storeMetricData 600 (js "another") data busy_store = (Return d, W1)
      /\ promises (complete None W1) !! d = Some (Deferred.Fulfilled RVoid)
      /\ MetricDataRecord.trialJobId (loadMetricData (envelope_row 600 members))
         = JSON.JStr (js "t3")
      /\ MetricDataRecord.type (loadMetricData (envelope_row 600 members))
         = JSON.JStr (js "FINAL")
      /\ MetricDataRecord.timestamp (loadMetricData (envelope_row 600 members)) = new_Date 600
      /\ forall byTrialJobId byType,
          resolves_with (queryMetricData byTrialJobId byType) (complete None W1)
            (RMetrics
               (map loadMetricData
                    (List.filter
                       (fun r => matches text_eq byTrialJobId (MetricDataRow.trialJobId r)
                                 && matches text_eq byType (MetricDataRow.type r))
                       (MetricDataTable busy_tables))
                ++ if matches jstring_eqb byTrialJobId (js "t3")
                      && matches jstring_eqb byType (js "FINAL")
                   then [loadMetricData (envelope_row 600 members)]
                   else [])).
Proof.
  intros data members.
  assert (Hparse : JSON.parse data = Return (JSON.JObj members)) by (vm_compute; reflexivity).
  assert (Hid : own_property members (js "trialJobId") = Some (JSON.JStr (js "t3")))
    by (vm_compute; reflexivity).
  assert (Htype : own_property members (js "type") = Some (JSON.JStr (js "FINAL")))
    by (vm_compute; reflexivity).
  split; [ exact busy_quiescent | ]. split; [ exact Hparse | ]. split; [ exact Hid | ].
  split; [ exact Htype | ].
  exact (X2_metric_found_by_envelope busy_store busy_tables 600 (js "another") data members
           (js "t3") (js "FINAL") busy_quiescent Hparse Hid Htype).
Defined.

(** ** Calls without a connection *)

(** X3.  Before [init] has set the connection, nothing reaches the
    driver or the files: every method but [init] throws a TypeError from
    the call itself, [storeMetricData] after the exception, if any, of
    reading its envelope; [queryLatestExperimentProfile], being async,
    returns a promise that is already rejected with the TypeError. *)
Theorem X3_calls_before_init c W r W' :
  db W = None -> (forall createNew dbDir, c <> Init createNew dbDir) ->
  perform c W = (r, W') ->
  submitted W' = submitted W /\ queue W' = queue W /\ disk W' = disk W
  /\ match c with
     | QueryLatestExperimentProfile _ =>
       r = Return (next_promise W)
       /\ promises W' !! next_promise W = Some (Deferred.Rejected TypeError)
     | StoreMetricData now _ data =>
       r = Throw match storeMetricData_args now data with
                 | Throw e => e
                 | Return _ => TypeError
                 end
     | _ => r = Throw TypeError
     end.
Proof.
  intros Hdb Hc Hcall.
  destruct W as [ps n aw dbh task dirs dk op q0 sub unc]. cbn [db] in Hdb. subst dbh.
  destruct c; cbn [perform] in Hcall;
    try solve [ revert Hcall; unfold close, storeExperimentProfile, queryExperimentProfile,
                  storeTrialJobEvent, queryTrialJobEvent, queryMetricData; world_simpl;
                intros [= <- <-]; auto ].
  - exfalso. eapply Hc. reflexivity.
  - revert Hcall. unfold queryLatestExperimentProfile, queryExperimentProfile. world_simpl.
    intros [= <- <-]. world_simpl. rewrite lookup_alter_eq.
    rewrite lookup_insert_ne by lia. rewrite lookup_insert_eq. auto.
  - revert Hcall. unfold storeMetricData.
    destruct (storeMetricData_args now data) as [ args | e ]; world_simpl;
      intros [= <- <-]; auto.
Qed.

(** X3 for [close] on a store just constructed. *)
Lemma X3_calls_before_init_witness :
  db (fresh [data_dir] ∅) = None
  /\ perform Close (fresh [data_dir] ∅) = (Throw TypeError, allocate (fresh [data_dir] ∅))
  /\ submitted (allocate (fresh [data_dir] ∅)) = submitted (fresh [data_dir] ∅)
  /\ queue (allocate (fresh [data_dir] ∅)) = queue (fresh [data_dir] ∅)
  /\ disk (allocate (fresh [data_dir] ∅)) = disk (fresh [data_dir] ∅)
  /\ Throw TypeError = Throw (A := nat) TypeError.
Proof.
  split; [ reflexivity | ]. split; [ reflexivity | ].
  exact (X3_calls_before_init Close (fresh [data_dir] ∅) (Throw TypeError)
           (allocate (fresh [data_dir] ∅)) eq_refl ltac:(discriminate) eq_refl).
Defined.

(** Whatever is called on a stuck store, it stays stuck, and [init]
    returns the pending init task. *)
Lemma stuck_perform files c W :
  stuck files W ->
  stuck files (snd (perform c W))
  /\ forall createNew dbDir, c = Init createNew dbDir -> fst (perform c W) = Return 0%nat.
Proof.
  intros (Htask & Hdb & Hq & Hsub & Hp & Hn & Hdisk).
  destruct W as [ps n aw dbh task dirs dk op q0 sub unc].
  cbv beta iota delta [initTask db queue submitted promises next_promise disk]
    in Htask, Hdb, Hq, Hsub, Hp, Hn, Hdisk. subst.
  assert (Hnew : <[n := Deferred.Pending]> ps !! 0%nat = Some Deferred.Pending)
    by (rewrite lookup_insert_ne by lia; exact Hp).
  unfold stuck.
  destruct c; cbn [perform];
    try solve [ unfold close, storeExperimentProfile, queryExperimentProfile,
                  storeTrialJobEvent, queryTrialJobEvent, queryMetricData; world_simpl;
                cbn [fst snd]; world_simpl;
                split; [ repeat split; first [ exact Hnew | lia ] | discriminate ] ].
  - unfold init. world_simpl. cbn [fst snd]. world_simpl.
    split; [ repeat split; first [ exact Hp | lia ] | reflexivity ].
  - unfold queryLatestExperimentProfile, queryExperimentProfile. world_simpl.
    cbn [fst snd]. world_simpl. split; [ | discriminate ].
    repeat split; try lia.
    rewrite lookup_alter_ne by lia. rewrite lookup_insert_ne by lia. exact Hnew.
  - unfold storeMetricData. destruct (storeMetricData_args now data) as [ args | e ];
      world_simpl; cbn [fst snd]; world_simpl;
      (split; [ repeat split; first [ exact Hnew | exact Hp | lia ] | discriminate ]).
Qed.

Lemma stuck_complete files fault W : stuck files W -> complete fault W = W.
Proof. intros (_ & _ & Hq & _). unfold complete. rewrite Hq. reflexivity. Qed.

Lemma stuck_run files events W :
  stuck files W ->
  stuck files (snd (run events W))
  /\ Forall (fun c => snd c = Return 0%nat) (init_calls (fst (run events W))).
Proof.
  revert W. induction events as [ | [ c | fault ] events IH ]; intros W H.
  - split; [ exact H | constructor ].
  - cbn [run]. destruct (stuck_perform files c W H) as [H1 Hinit].
    destruct (perform c W) as [r W1]. cbn [fst snd] in H1, Hinit.
    destruct (IH W1 H1) as [H2 Hall].
    destruct (run events W1) as [rs W2]. cbn [fst snd] in *.
    split; [ exact H2 | ].
    destruct c; cbn [init_calls]; try exact Hall.
    constructor; [ | exact Hall ]. cbn [snd]. eapply Hinit. reflexivity.
  - cbn [run]. rewrite (stuck_complete files fault W H). apply IH, H.
Qed.

(** X4.  An [init] on a directory that does not exist throws the
    assertion error after it has set the init task, and the store never
    recovers: in every continuation each further [init], whatever its
    arguments, returns that same promise, which stays pending; there is
    no connection, nothing is given to the driver and no file changes. *)
Theorem X4_init_missing_directory createNew dbDir dirs files events :
  dbDir ∉ dirs ->
  let outcome := run (Call (Init createNew dbDir) :: events) (fresh dirs files) in
  exists rest,
    fst outcome = (Init createNew dbDir, Throw AssertionError) :: rest
    /\ Forall (fun c => snd c = Return 0%nat) (init_calls rest)
    /\ promises (snd outcome) !! 0%nat = Some Deferred.Pending
    /\ db (snd outcome) = None
    /\ submitted (snd outcome) = []
    /\ disk (snd outcome) = files.
Proof.
  intros Hdir outcome. subst outcome. cbn [run perform].
  assert (Hinit : init createNew dbDir (fresh dirs files)
                  = (Throw AssertionError,
                     mkWorld (<[0%nat := Deferred.Pending]> ∅) 1 [] None (Some 0%nat) dirs files
                             false [] [] [])).
  { unfold init, fresh. world_simpl. rewrite (bool_decide_eq_false_2 _ Hdir).
    reflexivity. }
  rewrite Hinit.
  set (W0 := mkWorld _ _ _ _ _ _ _ _ _ _ _).
  assert (H0 : stuck files W0).
  { unfold stuck, W0. cbn. rewrite lookup_insert_eq. repeat split; lia. }
  destruct (stuck_run files events W0 H0) as [(_ & Hdb & _ & Hsub & Hp & _ & Hdisk) Hall].
  destruct (run events W0) as [rs W1]. cbn [fst snd] in *.
  exists rs. auto 10.
Qed.

(** X4 for a first call on "/nowhere" followed by calls on the
    directory that exists. *)
Lemma X4_init_missing_directory_witness :
  (js "/nowhere" ∉ [data_dir])
  /\ exists rest,
      fst (run [Call (Init true (js "/nowhere")); Call (Init true data_dir); Complete None;
                Call (QueryLatestExperimentProfile (js "exp1")); Call (Init false data_dir)]
               (fresh [data_dir] ∅))
      = (Init true (js "/nowhere"), Throw AssertionError) :: rest
      /\ Forall (fun c => snd c = Return 0%nat) (init_calls rest)
      /\ promises (snd (run [Call (Init true (js "/nowhere")); Call (Init true data_dir);
                             Complete None;
                             Call (QueryLatestExperimentProfile (js "exp1"));
                             Call (Init false data_dir)]
                            (fresh [data_dir] ∅))) !! 0%nat = Some Deferred.Pending
      /\ db (snd (run [Call (Init true (js "/nowhere")); Call (Init true data_dir);
                       Complete None;
                       Call (QueryLatestExperimentProfile (js "exp1"));
                       Call (Init false data_dir)]
                      (fresh [data_dir] ∅))) = None
      /\ submitted (snd (run [Call (Init true (js "/nowhere")); Call (Init true data_dir);
                              Complete None;
                              Call (QueryLatestExperimentProfile (js "exp1"));
                              Call (Init false data_dir)]
                             (fresh [data_dir] ∅))) = []
      /\ disk (snd (run [Call (Init true (js "/nowhere")); Call (Init true data_dir);
                         Complete None;
                         Call (QueryLatestExperimentProfile (js "exp1"));
                         Call (Init false data_dir)]
                        (fresh [data_dir] ∅))) = ∅.
Proof.
  assert (Hdir : js "/nowhere" ∉ [data_dir]) 
    by (apply (proj1 (bool_decide_eq_false (js "/nowhere" ∈ [data_dir]))); vm_compute;
        reflexivity).
  split; [ exact Hdir | ].
  exact (X4_init_missing_directory true (js "/nowhere") [data_dir] ∅
           [Call (Init true data_dir); Complete None;
            Call (QueryLatestExperimentProfile (js "exp1")); Call (Init false data_dir)] Hdir).
Defined.

(** ** Opening the database *)

(** The state right after the first [init(createNew, dbDir)] of a store
    just constructed, when the directory exists. *)
Lemma init_on_fresh createNew dbDir dirs files :
  dbDir ∈ dirs ->
  init createNew dbDir (fresh dirs files)
  = (Return 0%nat,
     let dbFileName := path_join dbDir (js "nni.sqlite") in
     let mode := if createNew then Z.lor OPEN_CREATE OPEN_READWRITE else OPEN_READWRITE in
     mkWorld (<[0%nat := Deferred.Pending]> ∅) 1 [] (Some dbFileName) (Some 0%nat) dirs files
             false [JobOpen dbFileName mode createNew] [JobOpen dbFileName mode createNew] []).
Proof.
  intros Hdir. unfold init, fresh. world_simpl. rewrite (bool_decide_eq_true_2 _ Hdir).
  cbv beta iota delta [negb]. world_simpl. reflexivity.
Qed.

Lemma jstring_eqb_refl s : jstring_eqb s s = true.
Proof. apply bool_decide_eq_true_2. reflexivity. Qed.

(** X5.  [init(false, dbDir)] on an existing directory opens the
    database file as it is and creates nothing: the schema script is not
    run and no file changes.  When the file exists the init task is
    fulfilled and the tables are those of the file; when it does not, the
    init task is rejected with the driver's SQLITE_CANTOPEN. *)
Theorem X5_init_without_createNew dbDir dirs files :
  dbDir ∈ dirs ->
  let W := snd (run [Call (Init false dbDir); Complete None] (fresh dirs files)) in
  disk W = files /\ queue W = [] /\ execs (submitted W) = 0%nat
  /\ match files !! path_join dbDir (js "nni.sqlite") with
     | Some database =>
       promises W !! 0%nat = Some (Deferred.Fulfilled RVoid)
       /\ current_tables W = database
     | None =>
       promises W !! 0%nat = Some (Deferred.Rejected SQLITE_CANTOPEN)
       /\ current_tables W = None
     end.
Proof.
  intros Hdir W. subst W. cbn [run perform]. rewrite (init_on_fresh false dbDir dirs files Hdir).
  cbn [fst snd]. generalize (path_join dbDir (js "nni.sqlite")). intros dbFileName.
  world_simpl. unfold Database in *.
  destruct (files !! dbFileName) as [ database | ] eqn:Hfile.
  - world_simpl.
    rewrite update_promise_unawaited by (intros a Ha; inversion Ha).
    world_simpl. unfold Database in *. rewrite lookup_alter_eq, lookup_insert_eq, Hfile.
    destruct database; auto.
  - change (negb (Z.land OPEN_READWRITE OPEN_CREATE =? 0)%Z) with false.
    world_simpl.
    erewrite this_resolve_unawaited; [ | apply lookup_insert_eq | intros a Ha; inversion Ha ].
    cbn [resolve]. world_simpl. rewrite lookup_alter_eq, lookup_insert_eq. auto.
Qed.

(** X5 on a directory holding the database of the busy store. *)
Lemma X5_init_without_createNew_witness :
  data_dir ∈ [data_dir]
  /\ let W := snd (run [Call (Init false data_dir); Complete None]
                       (fresh [data_dir] {[ data_file := Some busy_tables ]})) in
     disk W = {[ data_file := Some busy_tables ]} /\ queue W = []
     /\ execs (submitted W) = 0%nat
     /\ match ({[ data_file := Some busy_tables ]} : gmap jstring Database)
              !! path_join data_dir (js "nni.sqlite") with
        | Some database =>
          promises W !! 0%nat = Some (Deferred.Fulfilled RVoid)
          /\ current_tables W = database
        | None =>
          promises W !! 0%nat = Some (Deferred.Rejected SQLITE_CANTOPEN)
          /\ current_tables W = None
        end.
Proof.
  assert (Hdir : data_dir ∈ [data_dir]) by (apply elem_of_cons; left; reflexivity).
  split; [ exact Hdir | ].
  exact (X5_init_without_createNew data_dir [data_dir] {[ data_file := Some busy_tables ]} Hdir).
Defined.

(** X6.  [init(true, dbDir)] on an existing directory settles the init
    task only after the schema script: it is pending after the open and
    fulfilled after the script.  A database that had its tables keeps
    them with their rows (the script fails on it, and the failure is not
    passed on); otherwise the file afterwards holds the three tables,
    empty. *)
Theorem X6_init_with_createNew dbDir dirs files :
  dbDir ∈ dirs ->
  let dbFileName := path_join dbDir (js "nni.sqlite") in
  let W1 := snd (run [Call (Init true dbDir); Complete None] (fresh dirs files)) in
  let W := complete None W1 in
  promises W1 !! 0%nat = Some Deferred.Pending
  /\ promises W !! 0%nat = Some (Deferred.Fulfilled RVoid)
  /\ queue W = []
  /\ match files !! dbFileName with
     | Some (Some t) => quiescent W t /\ disk W = files
     | _ => quiescent W no_rows /\ disk W = <[dbFileName := Some no_rows]> files
     end.
Proof.
  intros Hdir dbFileName W1 W. subst W W1. cbn [run perform].
  rewrite (init_on_fresh true dbDir dirs files Hdir). cbn [fst snd].
  fold dbFileName. generalize dbFileName. clear dbFileName. intros dbFileName.
  world_simpl. unfold Database in *.
  change (negb (Z.land (Z.lor OPEN_CREATE OPEN_READWRITE) OPEN_CREATE =? 0)%Z) with true.
  destruct (files !! dbFileName) as [ [ t | ] | ] eqn:Hfile;
    world_simpl; cbn [app]; world_simpl; rewrite jstring_eqb_refl; cbv beta iota delta [negb];
    unfold Database in *; rewrite ?lookup_insert_eq, ?Hfile.
  - erewrite this_resolve_unawaited; [ | apply lookup_insert_eq | intros a Ha; inversion Ha ].
    cbn [resolve]. unfold quiescent, consistent. world_simpl. unfold Database in *.
    rewrite lookup_alter_eq, lookup_insert_eq, Hfile. repeat split.
  - world_simpl.
    erewrite this_resolve_unawaited; [ | apply lookup_insert_eq | intros a Ha; inversion Ha ].
    cbn [resolve]. unfold quiescent, consistent. world_simpl. unfold Database in *.
    rewrite lookup_alter_eq, !lookup_insert_eq. repeat split.
  - world_simpl.
    erewrite this_resolve_unawaited; [ | apply lookup_insert_eq | intros a Ha; inversion Ha ].
    cbn [resolve]. unfold quiescent, consistent. world_simpl. unfold Database in *.
    rewrite lookup_alter_eq, !lookup_insert_eq. repeat split.
    rewrite insert_insert_eq. reflexivity.
Qed.

(** X6 on an empty directory. *)
Lemma X6_init_with_createNew_witness :
  data_dir ∈ [data_dir]
  /\ let dbFileName := path_join data_dir (js "nni.sqlite") in
     let W1 := snd (run [Call (Init true data_dir); Complete None] (fresh [data_dir] ∅)) in
     let W := complete None W1 in
     promises W1 !! 0%nat = Some Deferred.Pending
     /\ promises W !! 0%nat = Some (Deferred.Fulfilled RVoid)
     /\ queue W = []
     /\ match (∅ : gmap jstring Database) !! dbFileName with
        | Some (Some t) => quiescent W t /\ disk W = ∅
        | _ => quiescent W no_rows /\ disk W = <[dbFileName := Some no_rows]> ∅
        end.
Proof.
  assert (Hdir : data_dir ∈ [data_dir]) by (apply elem_of_cons; left; reflexivity).
  split; [ exact Hdir | ].
  exact (X6_init_with_createNew data_dir [data_dir] ∅ Hdir).
Defined.

(** ** The files only grow *)

Lemma extends_refl t : extends t t.
Proof. repeat split; reflexivity. Qed.

Lemma extends_trans t1 t2 t3 : extends t1 t2 -> extends t2 t3 -> extends t1 t3.
Proof. intros (? & ? & ?) (? & ? & ?). repeat split; etrans; eassumption. Qed.

Lemma extends_insert stmt t : extends t (run_insert stmt t).
Proof.
  destruct stmt; repeat split; cbn [run_insert TrialJobEventTable MetricDataTable
                                     ExperimentProfileTable];
    first [ reflexivity | apply prefix_app_r; reflexivity ].
Qed.

Lemma only_grows_refl files : only_grows files files.
Proof.
  intros f. unfold Database in *.
  destruct (files !! f) as [ [ t | ] | ] eqn:Hf; [ | eauto | exact I ].
  exists t. split; [ reflexivity | apply extends_refl ].
Qed.

Lemma only_grows_trans f1 f2 f3 : only_grows f1 f2 -> only_grows f2 f3 -> only_grows f1 f3.
Proof.
  intros H12 H23 f. specialize (H12 f). specialize (H23 f). unfold Database in *.
  destruct (f1 !! f) as [ [ t | ] | ]; [ | | exact I ].
  - destruct H12 as (t2 & Hf2 & He). rewrite Hf2 in H23.
    destruct H23 as (t3 & Hf3 & He'). exists t3. split; [ exact Hf3 | ].
    eapply extends_trans; eassumption.
  - destruct H12 as [ x Hf2 ]. rewrite Hf2 in H23.
    destruct x as [ t2 | ]; [ | exact H23 ].
    destruct H23 as (t3 & Hf3 & _). eauto.
Qed.

(** Writing [new] over what file [f] holds, when that only adds to it. *)
Lemma only_grows_insert files f new :
  match files !! f with
  | Some (Some t) => exists t', new = Some t' /\ extends t t'
  | _ => True
  end ->
  only_grows files (<[f := new]> files).
Proof.
  intros Hnew g. unfold Database in *. destruct (decide (g = f)) as [ -> | Hne ].
  - rewrite lookup_insert_eq. destruct (files !! f) as [ [ t | ] | ]; [ | eauto | exact I ].
    destruct Hnew as (t' & -> & He). eauto.
  - rewrite lookup_insert_ne by congruence.
    destruct (files !! g) as [ [ t | ] | ] eqn:Hg; [ | eauto | exact I ].
    exists t. split; [ reflexivity | apply extends_refl ].
Qed.

Lemma same_files_refl W : same_files W W.
Proof. repeat split. Qed.

Lemma same_files_trans W1 W2 W3 : same_files W1 W2 -> same_files W2 W3 -> same_files W1 W3.
Proof. unfold same_files. intros (? & ? & ?) (? & ? & ?). repeat split; congruence. Qed.

Lemma update_promise_files d f W :
  exists W', update_promise d f W = (Return tt, W') /\ same_files W W'.
Proof.
  unfold update_promise, modify, run_reactions. eexists. split; [ reflexivity | ].
  destruct W as [ps n aw dbh task dirs dk op q0 sub unc]. cbn.
  destruct (alter f d ps !! d) as [ [ | | ] | ]; repeat split.
Qed.

Lemma this_resolve_files {R T} d (inj : list T -> result) error (rows : option (list R))
    rowLoader W :
  exists r W', this_resolve d inj error rows rowLoader W = (r, W') /\ same_files W W'.
Proof.
  unfold this_resolve. destruct (promises W !! d) as [ deferred | ].
  - destruct (resolve (held inj) deferred error rows rowLoader) as [ deferred' | e ].
    + destruct (update_promise_files d (fun _ => deferred') W) as (W' & -> & H).
      exists (Return tt), W'. auto.
    + exists (Throw e), W. split; [ reflexivity | apply same_files_refl ].
  - exists (Throw TypeError), W. split; [ reflexivity | apply same_files_refl ].
Qed.

Lemma resolve_initTask_files err W :
  exists r W', resolve_initTask err W = (r, W') /\ same_files W W'.
Proof.
  unfold resolve_initTask, bind, read, throw.
  destruct (initTask W) as [ t | ].
  - apply this_resolve_files.
  - exists (Throw TypeError), W. split; [ reflexivity | apply same_files_refl ].
Qed.

Lemma on_open_files createNew err W :
  exists r W', on_open createNew err W = (r, W') /\ same_files W W'.
Proof.
  unfold on_open. destruct err as [ e | ]; [ apply resolve_initTask_files | ].
  destruct createNew.
  - unfold submit. destruct (db W).
    + eexists _, _. split; [ reflexivity | ]. destruct W. repeat split.
    + eexists _, _. split; [ reflexivity | apply same_files_refl ].
  - unfold bind, read, throw. destruct (initTask W) as [ t | ].
    + destruct (update_promise_files t (Deferred.resolve RVoid) W) as (W' & -> & H).
      eexists _, _. split; [ reflexivity | exact H ].
    + eexists _, _. split; [ reflexivity | apply same_files_refl ].
Qed.

(** The driver's own part of a job only adds to the files. *)
Lemma sqlite_open_grows filename mode fault W :
  only_grows (disk W) (disk (snd (sqlite_open filename mode fault W))).
Proof.
  unfold sqlite_open. destruct fault; [ apply only_grows_refl | ].
  destruct (disk W !! filename) eqn:Hf.
  - destruct W; apply only_grows_refl.
  - destruct (negb _); [ | apply only_grows_refl ].
    destruct W as [ps n aw dbh task dirs dk op q0 sub unc]. cbn in *.
    apply only_grows_insert. unfold Database in *. rewrite Hf. exact I.
Qed.

Lemma sqlite_exec_grows sql fault W :
  only_grows (disk W) (disk (snd (sqlite_exec sql fault W))).
Proof.
  unfold sqlite_exec. destruct fault; [ apply only_grows_refl | ].
  destruct (negb (opened W)); [ apply only_grows_refl | ].
  destruct (negb _); [ apply only_grows_refl | ].
  destruct (db W) as [ f | ]; [ | apply only_grows_refl ].
  destruct (disk W !! f) as [ [ t | ] | ] eqn:Hf; try apply only_grows_refl.
  destruct W as [ps n aw dbh task dirs dk op q0 sub unc]. cbn in *.
  apply only_grows_insert. unfold Database in *. rewrite Hf. exact I.
Qed.

Lemma sqlite_run_grows stmt fault W :
  only_grows (disk W) (disk (snd (sqlite_run stmt fault W))).
Proof.
  unfold sqlite_run. destruct fault; [ apply only_grows_refl | ].
  destruct (db W) as [ f | ] eqn:Hdb; [ | apply only_grows_refl ].
  destruct (current_tables W) as [ t | ] eqn:Ht; [ | apply only_grows_refl ].
  apply current_tables_Some in Ht as (f' & Hdb' & _ & Hf).
  assert (f' = f) by congruence. subst f'.
  destruct W as [ps n aw dbh task dirs dk op q0 sub unc]. cbn in *.
  apply only_grows_insert. unfold Database in *. rewrite Hf.
  eexists. split; [ reflexivity | apply extends_insert ].
Qed.

Lemma sqlite_close_grows fault W :
  only_grows (disk W) (disk (snd (sqlite_close fault W))).
Proof.
  unfold sqlite_close. destruct fault; [ apply only_grows_refl | ].
  destruct (opened W); [ destruct W | ]; apply only_grows_refl.
Qed.

Lemma run_job_grows fault j W :
  only_grows (disk W) (disk (snd (run_job fault j W))).
Proof.
  destruct j as [ f m c | sql err | d | stmt d | q d | q d | q d ]; unfold run_job.
  - pose proof (sqlite_open_grows f m fault W) as Hg.
    destruct (sqlite_open f m fault W) as [err W1]. cbn [snd] in Hg.
    destruct (on_open_files c err W1) as (r & W2 & -> & (Hd & _)). cbn [snd]. rewrite Hd. exact Hg.
  - pose proof (sqlite_exec_grows sql fault W) as Hg.
    destruct (sqlite_exec sql fault W) as [error W1]. cbn [snd] in Hg.
    unfold on_exec.
    destruct (resolve_initTask_files err W1) as (r & W2 & -> & (Hd & _)). cbn [snd]. rewrite Hd. exact Hg.
  - pose proof (sqlite_close_grows fault W) as Hg.
    destruct (sqlite_close fault W) as [err W1]. cbn [snd] in Hg. unfold on_done.
    destruct (this_resolve_files (R := unit) (T := unit) d (fun _ => RVoid) err None None W1)
      as (r & W2 & -> & (Hd & _)). cbn [snd]. rewrite Hd. exact Hg.
  - pose proof (sqlite_run_grows stmt fault W) as Hg.
    destruct (sqlite_run stmt fault W) as [err W1]. cbn [snd] in Hg. unfold on_done.
    destruct (this_resolve_files (R := unit) (T := unit) d (fun _ => RVoid) err None None W1)
      as (r & W2 & -> & (Hd & _)). cbn [snd]. rewrite Hd. exact Hg.
  - destruct (sqlite_all (all_profile q) fault W) as [err rows].
    destruct (this_resolve_files d RProfiles err rows (Some loadExperimentProfile) W)
      as (r & W2 & -> & (Hd & _)). cbn [snd]. rewrite Hd. apply only_grows_refl.
  - destruct (sqlite_all (all_event q) fault W) as [err rows].
    destruct (this_resolve_files d REvents err rows (Some (returns loadTrialJobEvent)) W)
      as (r & W2 & -> & (Hd & _)). cbn [snd]. rewrite Hd. apply only_grows_refl.
  - destruct (sqlite_all (all_metric q) fault W) as [err rows].
    destruct (this_resolve_files d RMetrics err rows (Some (returns loadMetricData)) W)
      as (r & W2 & -> & (Hd & _)). cbn [snd]. rewrite Hd. apply only_grows_refl.
Qed.

Lemma complete_grows fault W : only_grows (disk W) (disk (complete fault W)).
Proof.
  unfold complete. destruct (queue W) as [ | j rest ]; [ apply only_grows_refl | ].
  pose proof (run_job_grows fault j (set_queue rest W)) as Hg.
  destruct (run_job fault j (set_queue rest W)) as [ [ [] | e ] W1 ]; cbn [snd] in Hg;
    destruct W, W1; exact Hg.
Qed.

(** A method call writes to no file: all it does is hand a job to the
    driver. *)
Lemma submit_disk (j : nat -> job) W :
  disk (snd ((deferred <- new_Deferred ; submit (j deferred) ;; ret deferred) W)) = disk W.
Proof.
  destruct W as [ps n aw dbh task dirs dk op q0 sub unc]. world_simpl.
  destruct dbh; reflexivity.
Qed.

Lemma perform_disk c W : disk (snd (perform c W)) = disk W.
Proof.
  destruct c; cbn [perform]; try apply submit_disk.
  - destruct W as [ps n aw dbh task dirs dk op q0 sub unc]. unfold init. world_simpl.
    destruct task; [ reflexivity | ]. destruct (negb _); reflexivity.
  - unfold queryLatestExperimentProfile.
    pose proof (submit_disk (JobAllProfile (ProfileById experimentId)) (allocate W)) as Hd.
    fold (queryExperimentProfile experimentId None) in Hd.
    destruct (queryExperimentProfile experimentId None (allocate W)) as [ [ d | e ] W1 ];
      cbn [snd] in *; destruct W, W1; exact Hd.
  - unfold storeMetricData. destruct (storeMetricData_args now data); [ | reflexivity ].
    apply submit_disk.
Qed.

(** X7.  The store only ever adds: in every run, from any state, with
    any faults, a file that existed still exists afterwards, a database
    that had its tables still has them, and each table starts with the
    rows it had, unchanged and in place. *)
Theorem X7_append_only events W :
  only_grows (disk W) (disk (snd (run events W))).
Proof.
  revert W. induction events as [ | [ c | fault ] events IH ]; intros W.
  - apply only_grows_refl.
  - cbn [run]. pose proof (perform_disk c W) as Hd.
    destruct (perform c W) as [r W1]. cbn [snd] in Hd. specialize (IH W1).
    destruct (run events W1) as [rs W2]. cbn [snd] in *. rewrite <- Hd. exact IH.
  - cbn [run]. eapply only_grows_trans; [ apply complete_grows | apply IH ].
Qed.

(** ** Errors of the driver, and closing *)

Lemma unawaited_next W a : consistent W = true -> a ∈ awaiting W -> fst a <> S (next_promise W).
Proof.
  unfold consistent. rewrite forallb_forall. intros H Hin.
  apply list_elem_of_In in Hin. specialize (H a Hin).
  apply andb_true_iff in H as [_ H]. apply Nat.ltb_lt in H. lia.
Qed.

(** A job the driver refuses: the promise of the call is rejected with the
    driver's error and no file changes. *)
Lemma refused_call c W f fault e d W1 :
  consistent W = true -> queue W = [] -> db W = Some f ->
  refuses fault W e ->
  (forall createNew dbDir, c <> Init createNew dbDir) ->
  perform c W = (Return d, W1) ->
  promises (complete fault W1) !! d = Some (Deferred.Rejected e)
  /\ disk (complete fault W1) = disk W
  /\ opened (complete fault W1) = opened W
  /\ queue (complete fault W1) = [].
Proof.
  intros Hcons Hqueue Hdb Hrefuses Hc Hcall.
  pose proof (fun a => consistent_fresh W a Hcons) as Hfresh.
  pose proof (fun a => unawaited_next W a Hcons) as Hnext.
  assert (Hold : List.filter (fun a => Nat.eqb (fst a) (S (next_promise W))) (awaiting W) = []).
  { apply filter_none. intros a Ha. apply Nat.eqb_neq, Hnext, Ha. }
  destruct W as [ps n aw dbh task dirs dk op q0 sub unc].
  cbv beta iota delta [queue db awaiting next_promise opened refuses] in *. subst q0 dbh.
  destruct c; cbn [perform] in Hcall;
    try (revert Hcall; unfold close, storeExperimentProfile, queryExperimentProfile,
           storeTrialJobEvent, queryTrialJobEvent, queryMetricData, storeMetricData;
         try destruct (storeMetricData_args _ _); try discriminate;
         world_simpl; intros [= <- <-];
         destruct Hrefuses as [ -> | (-> & -> & ->) ];
         world_simpl; cbn [app]; world_simpl;
         (erewrite this_resolve_unawaited; [ | apply lookup_insert_eq | exact Hfresh ]);
         cbn [resolve]; world_simpl;
         rewrite lookup_alter_eq, lookup_insert_eq; auto).
  - exfalso. eapply Hc. reflexivity.
  - revert Hcall. unfold queryLatestExperimentProfile, queryExperimentProfile.
    world_simpl. intros [= <- <-].
    destruct Hrefuses as [ -> | (-> & -> & ->) ];
      world_simpl; cbn [app]; world_simpl;
      unfold this_resolve; world_simpl; rewrite lookup_insert_eq;
      cbn [resolve]; unfold update_promise, modify, run_reactions; world_simpl;
      rewrite lookup_alter_eq, lookup_insert_eq;
      cbn [held Deferred.reject fmap option_fmap option_map];
      rewrite !List.filter_app, Hold; cbn [List.filter fst snd app];
      rewrite Nat.eqb_refl; cbn [negb fold_left app snd];
      rewrite lookup_alter_eq, lookup_alter_ne by lia;
      rewrite lookup_insert_ne by lia; rewrite lookup_insert_eq; auto.
Qed.

(** X8.  An error of the driver is passed on and nothing else happens:
    when the job of a call other than [init], made with no job waiting,
    fails with [e], the promise the call returned is rejected with [e],
    for [queryLatestExperimentProfile] through its await, and no file
    changes. *)
Theorem X8_driver_error_rejects c W f e d W1 :
  consistent W = true -> queue W = [] -> db W = Some f ->
  (forall createNew dbDir, c <> Init createNew dbDir) ->
  perform c W = (Return d, W1) ->
  promises (complete (Some e) W1) !! d = Some (Deferred.Rejected e)
  /\ disk (complete (Some e) W1) = disk W
  /\ queue (complete (Some e) W1) = [].
Proof.
  intros Hcons Hqueue Hdb Hc Hcall.
  destruct (refused_call c W f (Some e) e d W1 Hcons Hqueue Hdb (or_introl eq_refl) Hc Hcall)
    as (Hd & Hdisk & _ & Hq).
  auto.
Qed.

(** X8 for [queryLatestExperimentProfile] on the busy store. *)
Lemma X8_driver_error_rejects_witness :
  consistent busy_store = true /\ queue busy_store = [] /\ db busy_store = Some data_file
  /\ perform (QueryLatestExperimentProfile (js "exp1")) busy_store
     = (Return 6%nat, snd (perform (QueryLatestExperimentProfile (js "exp1")) busy_store))
  /\ promises (complete (Some SQLITE_BUSY)
                (snd (perform (QueryLatestExperimentProfile (js "exp1")) busy_store))) !! 6%nat
     = Some (Deferred.Rejected SQLITE_BUSY)
  /\ disk (complete (Some SQLITE_BUSY)
             (snd (perform (QueryLatestExperimentProfile (js "exp1")) busy_store)))
     = disk busy_store
  /\ queue (complete (Some SQLITE_BUSY)
              (snd (perform (QueryLatestExperimentProfile (js "exp1")) busy_store))) = [].
Proof.
  assert (Hcons : consistent busy_store = true) by (vm_compute; reflexivity).
  assert (Hqueue : queue busy_store = []) by (vm_compute; reflexivity).
  assert (Hdb : db busy_store = Some data_file) by (vm_compute; reflexivity).
  assert (Hcall : perform (QueryLatestExperimentProfile (js "exp1")) busy_store
                  = (Return 6%nat,
                     snd (perform (QueryLatestExperimentProfile (js "exp1")) busy_store)))
    by (vm_compute; reflexivity).
  split; [ exact Hcons | ]. split; [ exact Hqueue | ]. split; [ exact Hdb | ].
  split; [ exact Hcall | ].
  exact (X8_driver_error_rejects (QueryLatestExperimentProfile (js "exp1")) busy_store data_file
           SQLITE_BUSY 6%nat _ Hcons Hqueue Hdb ltac:(discriminate) Hcall).
Defined.

(** X9.  [close] on a quiescent store: its promise is fulfilled, the
    files stay as they are and the connection is closed for good.  Every
    later call but [init] returns a promise that is rejected with the
    driver's SQLITE_MISUSE and changes no file, and [init] does not open
    the database again: it returns the init task of before. *)
Theorem X9_close W t :
  quiescent W t ->
  exists d W1,
    close W = (Return d, W1)
    /\ promises (complete None W1) !! d = Some (Deferred.Fulfilled RVoid)
    /\ disk (complete None W1) = disk W
    /\ current_tables (complete None W1) = None
    /\ queue (complete None W1) = []
    /\ (forall c d' W3,
           (forall createNew dbDir, c <> Init createNew dbDir) ->
           perform c (complete None W1) = (Return d', W3) ->
           promises (complete None W3) !! d' = Some (Deferred.Rejected SQLITE_MISUSE)
           /\ disk (complete None W3) = disk W)
    /\ (forall task createNew dbDir,
           initTask W = Some task ->
           init createNew dbDir (complete None W1) = (Return task, complete None W1)).
Proof.
  intros (Hcons & Hqueue & Htables).
  destruct (current_tables_Some W t Htables) as (f & Hdb & Hopen & Hdisk).
  pose proof (fun a => consistent_fresh W a Hcons) as Hfresh.
  pose proof (consistent_allocate W Hcons) as Hcons'.
  destruct W as [ps n aw dbh task dirs dk op q0 sub unc].
  cbv beta iota delta [queue db opened disk awaiting next_promise] in Hqueue, Hdb, Hopen, Hdisk,
    Hfresh.
  subst q0 dbh op.
  eexists n, _. split; [ unfold close; world_simpl; reflexivity | ].
  world_simpl. cbn [app]. world_simpl.
  erewrite this_resolve_unawaited; [ | apply lookup_insert_eq | exact Hfresh ].
  cbn [resolve]. world_simpl.
  split; [ rewrite lookup_alter_eq, lookup_insert_eq; reflexivity | ].
  split; [ reflexivity | ]. split; [ reflexivity | ]. split; [ reflexivity | ].
  split.
  - intros c d' W3 Hc Hcall.
    match type of Hcall with
    | perform c ?W2 = _ =>
      destruct (refused_call c W2 f None SQLITE_MISUSE d' W3) as (Hd & Hdk & _);
        [ exact Hcons' | reflexivity | reflexivity
        | right; repeat split | exact Hc | exact Hcall | ]
    end.
    split; [ exact Hd | exact Hdk ].
  - intros task0 createNew dbDir Htask. apply init_again. exact Htask.
Qed.

(** X9 on the busy store. *)
Lemma X9_close_witness :
  quiescent busy_store busy_tables
  /\ exists d W1,
      close busy_store = (Return d, W1)
      /\ promises (complete None W1) !! d = Some (Deferred.Fulfilled RVoid)
      /\ disk (complete None W1) = disk busy_store
      /\ current_tables (complete None W1) = None
      /\ queue (complete None W1) = []
      /\ (forall c d' W3,
             (forall createNew dbDir, c <> Init createNew dbDir) ->
             perform c (complete None W1) = (Return d', W3) ->
             promises (complete None W3) !! d' = Some (Deferred.Rejected SQLITE_MISUSE)
             /\ disk (complete None W3) = disk busy_store)
      /\ (forall task createNew dbDir,
             initTask busy_store = Some task ->
             init createNew dbDir (complete None W1) = (Return task, complete None W1)).
Proof.
  split; [ exact busy_quiescent | ].
  exact (X9_close busy_store busy_tables busy_quiescent).
Defined.

(** ** Parameters that are not JSON, and the newest profile *)

(** The loop over the rows stops at the first row the loader throws on. *)
Lemma load_rows_throws rows data :
  Exists (fun row => JSON.parse (ExperimentProfileRow.params row) = Throw SyntaxError) rows ->
  load_rows loadExperimentProfile rows data = Throw SyntaxError.
Proof.
  revert data. induction rows as [ | row rows IH ]; intros data Hbad.
  - inversion Hbad.
  - cbn [load_rows]. unfold loadExperimentProfile at 1.
    destruct (JSON.parse (ExperimentProfileRow.params row)) as [ params | e ] eqn:Hparse.
    + cbn [bind_except]. apply IH. inversion Hbad; subst; [ congruence | assumption ].
    + cbn [bind_except]. rewrite (parse_throws _ _ Hparse). reflexivity.
Qed.

(** X10.  One stored profile whose params column is not JSON text makes
    the query that selects it hang: the loader throws inside the driver's
    callback, so the promise of [queryExperimentProfile] stays pending
    with no job left to settle it, and the SyntaxError leaves the
    callback uncaught. *)
Theorem X10_unreadable_params W t id revision :
  quiescent W t ->
  Exists (fun row => ExperimentProfileRow.id row = id
                     /\ match revision with
                        | Some revision => ExperimentProfileRow.revision row = revision
                        | None => True
                        end
                     /\ JSON.parse (ExperimentProfileRow.params row) = Throw SyntaxError)
         (ExperimentProfileTable t) ->
  exists d W1,
    queryExperimentProfile id revision W = (Return d, W1)
    /\ promises (complete None W1) !! d = Some Deferred.Pending
    /\ queue (complete None W1) = []
    /\ uncaught (complete None W1) = uncaught W ++ [SyntaxError].
Proof.
  intros (Hcons & Hqueue & Htables) Hbad.
  destruct (current_tables_Some W t Htables) as (f & Hdb & Hopen & Hdisk).
  pose proof (fun a => consistent_fresh W a Hcons) as Hfresh.
  assert (Hrows : Exists (fun row => JSON.parse (ExperimentProfileRow.params row)
                                     = Throw SyntaxError)
                         (all_profile match revision with
                                      | None => ProfileById id
                                      | Some revision => ProfileByIdRevision id revision
                                      end t)).
  { apply List.Exists_exists in Hbad as (row & Hin & Hid & Hrev & Hparse).
    apply List.Exists_exists. exists row. split; [ | exact Hparse ].
    destruct revision as [ revision | ]; cbn [all_profile].
    - apply filter_In. split; [ exact Hin | ].
      apply andb_true_iff. split; [ apply bool_decide_eq_true_2, Hid | apply Z.eqb_eq, Hrev ].
    - eapply Permutation_in; [ symmetry; apply order_by_desc_perm | ].
      apply filter_In. split; [ exact Hin | apply bool_decide_eq_true_2, Hid ]. }
  destruct W as [ps n aw dbh task dirs dk op q0 sub unc].
  cbv beta iota delta [queue db opened disk awaiting next_promise] in Hqueue, Hdb, Hopen, Hdisk,
    Hfresh.
  subst q0 dbh op.
  eexists n, _. split; [ unfold queryExperimentProfile; world_simpl; reflexivity | ].
  world_simpl. cbn [app]. world_simpl. unfold Database in *. rewrite Hdisk.
  erewrite this_resolve_unawaited; [ | apply lookup_insert_eq | exact Hfresh ].
  unfold resolve. rewrite (load_rows_throws _ [] Hrows). cbn [bind_except]. world_simpl.
  rewrite lookup_insert_eq. auto.
Qed.

(** X10 on the database written by another program. *)
Lemma X10_unreadable_params_witness :
  quiescent foreign_store foreign_tables
  /\ Exists (fun row => ExperimentProfileRow.id row = js "exp1"
                        /\ True
                        /\ JSON.parse (ExperimentProfileRow.params row) = Throw SyntaxError)
            (ExperimentProfileTable foreign_tables)
  /\ exists d W1,
      queryExperimentProfile (js "exp1") None foreign_store = (Return d, W1)
      /\ promises (complete None W1) !! d = Some Deferred.Pending
      /\ queue (complete None W1) = []
      /\ uncaught (complete None W1) = uncaught foreign_store ++ [SyntaxError].
Proof.
  assert (Hq : quiescent foreign_store foreign_tables) by (repeat split; vm_compute; reflexivity).
  assert (Hbad : Exists (fun row => ExperimentProfileRow.id row = js "exp1"
                                    /\ True
                                    /\ JSON.parse (ExperimentProfileRow.params row)
                                       = Throw SyntaxError)
                        (ExperimentProfileTable foreign_tables)).
  { apply Exists_cons_tl, Exists_cons_hd. repeat split. }
  split; [ exact Hq | ]. split; [ exact Hbad | ].
  exact (X10_unreadable_params foreign_store foreign_tables (js "exp1") None Hq Hbad).
Defined.

(** The newest revision goes to the head of the descending order. *)
Lemma order_by_desc_newest {A} (key : A -> Z) (l : list A) (x : A) (s : list A) :
  Forall (fun a => (key a < key x)%Z) l ->
  fold_right (insert_desc key) (x :: s) l = x :: fold_right (insert_desc key) s l.
Proof.
  induction 1 as [ | a l Ha _ IH ]; [ reflexivity | ].
  cbn [fold_right]. rewrite IH. cbn [insert_desc].
  destruct (key x <? key a)%Z eqn:Hlt; [ apply Z.ltb_lt in Hlt; lia | reflexivity ].
Qed.

(** X11.  After a profile is stored whose revision exceeds every
    revision stored for its id, [queryLatestExperimentProfile] is
    fulfilled with that very profile. *)
Theorem X11_latest_after_store W t ps exp :
  quiescent W t -> stored t ps ->
  JSON.well_formed (ExperimentProfile.params exp) = true ->
  (forall p, In p ps -> ExperimentProfile.id p = ExperimentProfile.id exp ->
             (ExperimentProfile.revision p < ExperimentProfile.revision exp)%Z) ->
  exists d W1,
    storeExperimentProfile exp W = (Return d, W1)
    /\ promises (complete None W1) !! d = Some (Deferred.Fulfilled RVoid)
    /\ resolves_with (queryLatestExperimentProfile (ExperimentProfile.id exp))
                     (complete None W1) (RProfile (Some exp)).
Proof.
  intros Hq Hst Hwf Hnew.
  destruct (insert_resolves W t (InsertExperimentProfile (storeExperimentProfile_args exp)) Hq)
    as (d & W1 & Hcall & Hdone & Hq').
  exists d, W1. split; [ exact Hcall | ]. split; [ exact Hdone | ].
  pose proof (latest_resolves _ _ (ps ++ [exp]) (ExperimentProfile.id exp) Hq'
                (stored_insert t ps exp Hst Hwf)) as Hlatest.
  assert (Hhead : head (order_by_desc ExperimentProfile.revision
                          (with_id (ExperimentProfile.id exp) (ps ++ [exp]))) = Some exp).
  { unfold with_id, order_by_desc. rewrite List.filter_app. cbn [List.filter].
    rewrite jstring_eqb_refl. rewrite fold_right_app. cbn [fold_right insert_desc].
    rewrite order_by_desc_newest; [ reflexivity | ].
    apply List.Forall_forall. intros p Hp. apply filter_In in Hp as [Hp Hid].
    apply Hnew; [ exact Hp | ]. apply bool_decide_eq_true in Hid. exact Hid. }
  rewrite Hhead in Hlatest. exact Hlatest.
Qed.

(** X11 for revision 4 of "exp1" after revisions 2, 3 and 1. *)
Lemma X11_latest_after_store_witness :
  quiescent three_revisions_store three_revisions_tables
  /\ stored three_revisions_tables three_revisions
  /\ JSON.well_formed (ExperimentProfile.params (exp1 4)) = true
  /\ (forall p, In p three_revisions ->
                ExperimentProfile.id p = ExperimentProfile.id (exp1 4) ->
                (ExperimentProfile.revision p < ExperimentProfile.revision (exp1 4))%Z)
  /\ exists d W1,
      storeExperimentProfile (exp1 4) three_revisions_store = (Return d, W1)
      /\ promises (complete None W1) !! d = Some (Deferred.Fulfilled RVoid)
      /\ resolves_with (queryLatestExperimentProfile (ExperimentProfile.id (exp1 4)))
                       (complete None W1) (RProfile (Some (exp1 4))).
Proof.
  assert (Hnew : forall p, In p three_revisions ->
                           ExperimentProfile.id p = ExperimentProfile.id (exp1 4) ->
                           (ExperimentProfile.revision p
                            < ExperimentProfile.revision (exp1 4))%Z).
  { intros p [ <- | [ <- | [ <- | [ <- | [] ] ] ] ] Hid; cbn; try lia.
    vm_compute in Hid. discriminate. }
  split; [ exact three_revisions_quiescent | ].
  split; [ exact three_revisions_stored | ].
  split; [ reflexivity | ]. split; [ exact Hnew | ].
  exact (X11_latest_after_store three_revisions_store three_revisions_tables three_revisions
           (exp1 4) three_revisions_quiescent three_revisions_stored eq_refl Hnew).
Defined.

(** ** No callback throws *)

Lemma only_settles_refl W : only_settles W W.
Proof. repeat split; auto. Qed.

Lemma alter_reactions_is_Some st (ready : list (nat * nat))
    (ps : gmap nat (Deferred.state result)) d :
  is_Some (ps !! d) ->
  is_Some (fold_left (fun ps a => alter (resume_latest st) (snd a) ps) ready ps !! d).
Proof.
  revert ps. induction ready as [ | a ready IH ]; intros ps Hd; [ exact Hd | ].
  cbn [fold_left]. apply IH.
  destruct (decide (snd a = d)) as [ -> | Hne ].
  - rewrite lookup_alter_eq. destruct Hd as [x ->]. eauto.
  - rewrite lookup_alter_ne by exact Hne. exact Hd.
Qed.

Lemma update_promise_settles d f W :
  exists W', update_promise d f W = (Return tt, W') /\ only_settles W W'.
Proof.
  unfold update_promise, modify, run_reactions. eexists. split; [ reflexivity | ].
  assert (Halter : forall d', is_Some (promises W !! d') ->
                              is_Some (alter f d (promises W) !! d')).
  { intros d' [x Hx]. destruct (decide (d = d')) as [ -> | Hne ].
    - rewrite lookup_alter_eq, Hx. eauto.
    - rewrite lookup_alter_ne by exact Hne. eauto. }
  destruct W as [ps n aw dbh task dirs dk op q0 sub unc].
  cbv beta iota delta [promises set_promises] in *.
  destruct (alter f d ps !! d) as [ [ | v | e ] | ];
    unfold only_settles; cbn; repeat split; auto;
    intros d' Hd'; apply alter_reactions_is_Some, Halter, Hd'.
Qed.

(** A callback that finds its deferred and whose loader returns on every
    row returns, having settled promises only. *)
Lemma this_resolve_settles {R T} d (inj : list T -> result) error (rows : list R)
    (rowLoader : option (R -> except T)) W :
  is_Some (promises W !! d) ->
  (forall loader, rowLoader = Some loader -> error = None ->
                  exists data, load_rows loader rows [] = Return data) ->
  exists W',
    this_resolve d inj error (match error with None => Some rows | Some _ => None end)
                 rowLoader W = (Return tt, W')
    /\ only_settles W W'.
Proof.
  intros [deferred Hd] Hload. unfold this_resolve. rewrite Hd.
  destruct error as [ e | ]; cbn [resolve].
  - apply update_promise_settles.
  - destruct rowLoader as [ loader | ]; [ | apply update_promise_settles ].
    destruct (Hload loader eq_refl eq_refl) as [data ->]. cbn [bind_except].
    apply update_promise_settles.
Qed.

Lemma done_settles d error W :
  is_Some (promises W !! d) ->
  exists W', on_done d error W = (Return tt, W') /\ only_settles W W'.
Proof.
  intros Hd. unfold on_done, this_resolve. destruct Hd as [deferred ->].
  destruct error as [ e | ]; cbn [resolve]; apply update_promise_settles.
Qed.

Lemma resolve_initTask_settles err W t :
  initTask W = Some t -> is_Some (promises W !! t) ->
  exists W', resolve_initTask err W = (Return tt, W') /\ only_settles W W'.
Proof.
  intros Ht Hp. unfold resolve_initTask, bind, read. rewrite Ht.
  apply (done_settles t err W Hp).
Qed.

(** What the driver returns for a query: an error and no rows, or rows of
    the current tables. *)
Lemma sqlite_all_rows {R} (q : Tables -> list R) fault W :
  exists error rows,
    sqlite_all q fault W = (error, match error with None => Some rows | Some _ => None end)
    /\ (error = None -> exists t, current_tables W = Some t /\ rows = q t).
Proof.
  unfold sqlite_all. destruct fault as [ e | ].
  - exists (Some e), []. split; [ reflexivity | discriminate ].
  - destruct (current_tables W) as [ t | ].
    + exists None, (q t). split; [ reflexivity | eauto ].
    + eexists (Some _), []. split; [ reflexivity | discriminate ].
Qed.

Lemma load_rows_readable rows data :
  readable_rows rows -> exists out, load_rows loadExperimentProfile rows data = Return out.
Proof.
  intros Hrows. revert data. induction Hrows as [ | row rows [v Hv] _ IH ]; intros data.
  - eexists. reflexivity.
  - cbn [load_rows]. unfold loadExperimentProfile at 1. rewrite Hv. cbn [bind_except].
    apply IH.
Qed.

Lemma readable_rows_incl rows rows' :
  (forall row, In row rows' -> In row rows) -> readable_rows rows -> readable_rows rows'.
Proof.
  unfold readable_rows. rewrite !List.Forall_forall. intros Hincl H row Hin.
  apply H, Hincl, Hin.
Qed.

Lemma all_profile_readable q t :
  readable_rows (ExperimentProfileTable t) -> readable_rows (all_profile q t).
Proof.
  apply readable_rows_incl. intros row. destruct q as [ id | id revision ]; cbn [all_profile].
  - intros Hin. eapply Permutation_in in Hin; [ | apply order_by_desc_perm ].
    apply filter_In in Hin as [Hin _]. exact Hin.
  - intros Hin. apply filter_In in Hin as [Hin _]. exact Hin.
Qed.

Lemma readable_insert files f new :
  readable files ->
  match new with
  | Some t => readable_rows (ExperimentProfileTable t)
  | None => True
  end ->
  readable (<[f := new]> files).
Proof.
  intros Hfiles Hnew g t. unfold Database in *.
  destruct (decide (f = g)) as [ -> | Hne ].
  - rewrite lookup_insert_eq. intros [= ->]. exact Hnew.
  - rewrite lookup_insert_ne by exact Hne. apply Hfiles.
Qed.

Lemma readable_rows_insert stmt t :
  writes_readable (JobRun stmt 0%nat) ->
  readable_rows (ExperimentProfileTable t) ->
  readable_rows (ExperimentProfileTable (run_insert stmt t)).
Proof.
  intros Hstmt Ht. destruct stmt as [ row | row | row ];
    cbn [run_insert ExperimentProfileTable]; try exact Ht.
  apply Forall_app. split; [ exact Ht | ]. constructor; [ exact Hstmt | constructor ].
Qed.

Lemma healthy_settles W W' : only_settles W W' -> healthy W -> healthy W'.
Proof.
  intros (Hn & Hdb & Ht & Hdisk & _ & Hq & Hu & Hdom) (H1 & H2 & H3 & H4 & H5 & H6 & H7).
  unfold healthy. rewrite Hn, Hdb, Ht, Hdisk, Hq, Hu.
  repeat split; auto.
Qed.

Lemma sqlite_open_files filename mode fault W :
  readable (disk W) ->
  exists err W', sqlite_open filename mode fault W = (err, W')
                 /\ only_files W W' /\ readable (disk W').
Proof.
  intros Hr. destruct W as [ps n aw dbh task dirs dk op q0 sub unc].
  unfold sqlite_open. cbv beta iota delta [disk] in *.
  destruct fault; [ eexists _, _; split; [ reflexivity | split; [ repeat split | exact Hr ] ] | ].
  destruct (dk !! filename).
  - eexists _, _. split; [ reflexivity | split; [ repeat split | exact Hr ] ].
  - destruct (negb _); eexists _, _; (split; [ reflexivity | split; [ repeat split | ] ]);
      [ apply readable_insert; [ exact Hr | exact I ] | exact Hr ].
Qed.

Lemma sqlite_exec_files sql fault W :
  readable (disk W) ->
  exists err W', sqlite_exec sql fault W = (err, W')
                 /\ only_files W W' /\ readable (disk W').
Proof.
  intros Hr. destruct W as [ps n aw dbh task dirs dk op q0 sub unc].
  unfold sqlite_exec. cbv beta iota delta [disk db opened] in *.
  destruct fault; [ eexists _, _; split; [ reflexivity | split; [ repeat split | exact Hr ] ] | ].
  destruct (negb op);
    [ eexists _, _; split; [ reflexivity | split; [ repeat split | exact Hr ] ] | ].
  destruct (negb _);
    [ eexists _, _; split; [ reflexivity | split; [ repeat split | exact Hr ] ] | ].
  destruct dbh as [ f | ];
    [ | eexists _, _; split; [ reflexivity | split; [ repeat split | exact Hr ] ] ].
  destruct (dk !! f) as [ [ t | ] | ];
    eexists _, _; (split; [ reflexivity | split; [ repeat split | ] ]); try exact Hr.
  apply readable_insert; [ exact Hr | constructor ].
Qed.

Lemma sqlite_run_files stmt fault W :
  readable (disk W) -> writes_readable (JobRun stmt 0%nat) ->
  exists err W', sqlite_run stmt fault W = (err, W')
                 /\ only_files W W' /\ readable (disk W').
Proof.
  intros Hr Hstmt. unfold sqlite_run.
  destruct fault;
    [ eexists _, _; split; [ reflexivity | split; [ repeat split | exact Hr ] ] | ].
  destruct (db W) as [ f | ] eqn:Hdb;
    [ | eexists _, _; split; [ reflexivity | split; [ repeat split | exact Hr ] ] ].
  destruct (current_tables W) as [ t | ] eqn:Ht;
    [ | eexists _, _; split; [ reflexivity | split; [ repeat split | exact Hr ] ] ].
  apply current_tables_Some in Ht as (f' & Hdb' & _ & Hf).
  destruct W as [ps n aw dbh task dirs dk op q0 sub unc]. cbv beta iota delta [disk db] in *.
  eexists _, _. split; [ reflexivity | split; [ repeat split | ] ].
  cbn [disk set_disk]. apply readable_insert; [ exact Hr | ].
  apply readable_rows_insert; [ exact Hstmt | ]. apply (Hr f' t Hf).
Qed.

Lemma sqlite_close_files fault W :
  exists err W', sqlite_close fault W = (err, W') /\ only_files W W' /\ disk W' = disk W.
Proof.
  destruct W as [ps n aw dbh task dirs dk op q0 sub unc]. unfold sqlite_close.
  destruct fault; [ eexists _, _; split; [ reflexivity | split; [ repeat split | reflexivity ] ] | ].
  cbv beta iota delta [opened]. destruct op;
    eexists _, _; (split; [ reflexivity | split; [ repeat split | reflexivity ] ]).
Qed.

Lemma healthy_files W W' :
  only_files W W' -> readable (disk W') -> healthy W -> healthy W'.
Proof.
  intros (Hp & Hn & _ & Hdb & Ht & Hq & _ & Hu) Hr (H1 & H2 & H3 & H4 & H5 & H6 & H7).
  unfold healthy. rewrite Hp, Hn, Hdb, Ht, Hq, Hu. repeat split; auto.
Qed.

(** Taking the oldest job off the queue. *)
Lemma healthy_pop W j rest :
  healthy W -> queue W = j :: rest ->
  let W0 := set_queue rest W in
  uncaught W0 = [] /\ readable (disk W0) /\ Forall writes_readable rest
  /\ db W0 <> None
  /\ (exists t, initTask W0 = Some t /\ (t < next_promise W0)%nat)
  /\ (forall d, (d < next_promise W0)%nat -> is_Some (promises W0 !! d))
  /\ Forall (fun j => forall d, deferred_of j = Some d -> (d < next_promise W0)%nat) rest
  /\ writes_readable j
  /\ (forall d, deferred_of j = Some d -> (d < next_promise W0)%nat)
  /\ queue W0 = rest.
Proof.
  intros (H1 & H2 & H3 & H4 & H5 & H6 & H7) Hq.
  destruct W as [ps n aw dbh task dirs dk op q0 sub unc].
  cbv beta iota delta [uncaught disk queue db initTask next_promise promises set_queue] in *.
  subst q0. apply Forall_cons in H3 as [Hj H3]. apply Forall_cons in H7 as [Hd H7].
  assert (Hdb : dbh <> None) by (apply H4; discriminate).
  repeat split; auto.
Qed.

(** A state that is healthy but for its queue, which is given apart. *)
Lemma healthy_queue W rest :
  uncaught W = [] -> readable (disk W) -> Forall writes_readable rest ->
  db W <> None ->
  (exists t, initTask W = Some t /\ (t < next_promise W)%nat) ->
  (forall d, (d < next_promise W)%nat -> is_Some (promises W !! d)) ->
  Forall (fun j => forall d, deferred_of j = Some d -> (d < next_promise W)%nat) rest ->
  queue W = rest ->
  healthy W.
Proof. intros. unfold healthy. subst rest. repeat split; auto. Qed.

Lemma complete_healthy fault W : healthy W -> healthy (complete fault W).
Proof.
  intros H. unfold complete. destruct (queue W) as [ | j rest ] eqn:Hq; [ exact H | ].
  destruct (healthy_pop W j rest H Hq)
    as (H1 & H2 & H3 & Hdb & (t & Ht & Hlt) & H6 & H7 & Hj & Hd & Hq0).
  assert (H0 : healthy (set_queue rest W)) by (apply (healthy_queue _ rest); eauto).
  clear H Hq. generalize dependent (set_queue rest W). intros W0 H1 H2 Hdb Ht Hlt H6 H7 Hd Hq0 H0.
  destruct j as [ f m c | sql err | d | stmt d | q d | q d | q d ]; unfold run_job.
  - destruct (sqlite_open_files f m fault W0 H2) as (err & W1 & -> & Hf & Hr).
    pose proof (healthy_files _ _ Hf Hr H0) as Hh1.
    destruct Hf as (Hp1 & Hn1 & _ & Hdb1 & Ht1 & Hq1 & _ & Hu1).
    assert (Htask : initTask W1 = Some t) by congruence.
    assert (Hprom : is_Some (promises W1 !! t)) by (rewrite Hp1; apply H6, Hlt).
    unfold on_open. destruct err as [ e | ].
    + destruct (resolve_initTask_settles (Some e) W1 t Htask Hprom) as (W2 & -> & Hs).
      apply (healthy_settles _ _ Hs Hh1).
    + destruct c.
      * unfold submit. destruct (db W1) as [ g | ] eqn:Hdb1'; [ | congruence ].
        destruct Hh1 as (G1 & G2 & G3 & G4 & G5 & G6 & G7).
        destruct W1 as [ps n aw dbh task dirs dk op q0 sub unc].
        cbv beta iota delta [healthy enqueue uncaught disk queue db initTask next_promise
                               promises set_queue set_submitted submitted] in *.
        split; [ exact G1 | ]. split; [ exact G2 | ].
        split; [ apply Forall_app; split; [ exact G3 | repeat constructor ] | ].
        split; [ intros _; rewrite Hdb1'; discriminate | ].
        split; [ exact G5 | ]. split; [ exact G6 | ].
        apply Forall_app. split; [ exact G7 | ]. constructor; [ discriminate | constructor ].
      * unfold bind, read. rewrite Htask.
        destruct (update_promise_settles t (Deferred.resolve RVoid) W1) as (W2 & -> & Hs).
        apply (healthy_settles _ _ Hs Hh1).
  - destruct (sqlite_exec_files sql fault W0 H2) as (error & W1 & -> & Hf & Hr).
    pose proof (healthy_files _ _ Hf Hr H0) as Hh1.
    destruct Hf as (Hp1 & Hn1 & _ & Hdb1 & Ht1 & Hq1 & _ & Hu1).
    assert (Htask : initTask W1 = Some t) by congruence.
    assert (Hprom : is_Some (promises W1 !! t)) by (rewrite Hp1; apply H6, Hlt).
    unfold on_exec.
    destruct (resolve_initTask_settles err W1 t Htask Hprom) as (W2 & -> & Hs).
    apply (healthy_settles _ _ Hs Hh1).
  - destruct (sqlite_close_files fault W0) as (err & W1 & -> & Hf & Hdisk).
    assert (Hr : readable (disk W1)) by (rewrite Hdisk; exact H2).
    pose proof (healthy_files _ _ Hf Hr H0) as Hh1.
    destruct Hf as (Hp1 & _).
    assert (Hprom : is_Some (promises W1 !! d)) by (rewrite Hp1; apply H6, Hd; reflexivity).
    destruct (done_settles d err W1 Hprom) as (W2 & -> & Hs).
    apply (healthy_settles _ _ Hs Hh1).
  - destruct (sqlite_run_files stmt fault W0 H2 Hj) as (err & W1 & -> & Hf & Hr).
    pose proof (healthy_files _ _ Hf Hr H0) as Hh1.
    destruct Hf as (Hp1 & _).
    assert (Hprom : is_Some (promises W1 !! d)) by (rewrite Hp1; apply H6, Hd; reflexivity).
    destruct (done_settles d err W1 Hprom) as (W2 & -> & Hs).
    apply (healthy_settles _ _ Hs Hh1).
  - destruct (sqlite_all_rows (all_profile q) fault W0) as (error & rows & -> & Hrows).
    destruct (this_resolve_settles d RProfiles error rows (Some loadExperimentProfile) W0)
      as (W2 & -> & Hs); [ apply H6, Hd; reflexivity | | apply (healthy_settles _ _ Hs H0) ].
    intros loader [= <-] Herr. destruct (Hrows Herr) as (tb & Htb & ->).
    apply load_rows_readable, all_profile_readable.
    apply current_tables_Some in Htb as (g & _ & _ & Hg). apply (H2 g tb Hg).
  - destruct (sqlite_all_rows (all_event q) fault W0) as (error & rows & -> & Hrows).
    destruct (this_resolve_settles d REvents error rows (Some (returns loadTrialJobEvent)) W0)
      as (W2 & -> & Hs); [ apply H6, Hd; reflexivity | | apply (healthy_settles _ _ Hs H0) ].
    intros loader [= <-] _. rewrite load_rows_returns. eauto.
  - destruct (sqlite_all_rows (all_metric q) fault W0) as (error & rows & -> & Hrows).
    destruct (this_resolve_settles d RMetrics error rows (Some (returns loadMetricData)) W0)
      as (W2 & -> & Hs); [ apply H6, Hd; reflexivity | | apply (healthy_settles _ _ Hs H0) ].
    intros loader [= <-] _. rewrite load_rows_returns. eauto.
Qed.

Lemma alter_is_Some (f : Deferred.state result -> Deferred.state result) k
    (ps : gmap nat (Deferred.state result)) d :
  is_Some (ps !! d) -> is_Some (alter f k ps !! d).
Proof.
  intros [x Hx]. destruct (decide (k = d)) as [ -> | Hne ].
  - rewrite lookup_alter_eq, Hx. eauto.
  - rewrite lookup_alter_ne by exact Hne. eauto.
Qed.

Lemma healthy_allocate W : healthy W -> healthy (allocate W).
Proof.
  intros (H1 & H2 & H3 & H4 & H5 & H6 & H7).
  destruct W as [ps n aw dbh task dirs dk op q0 sub unc].
  cbv beta iota delta [healthy allocate uncaught disk queue db initTask next_promise promises
                         set_next_promise set_promises] in *.
  split; [ exact H1 | ]. split; [ exact H2 | ]. split; [ exact H3 | ]. split; [ exact H4 | ].
  split; [ intros Hdb; destruct (H5 Hdb) as (t & Ht & Hlt); exists t; split; [ exact Ht | lia ] | ].
  split.
  - intros d Hd. destruct (decide (d = n)) as [ -> | Hne ].
    + rewrite lookup_insert_eq. eauto.
    + rewrite lookup_insert_ne by congruence. apply H6. lia.
  - eapply Forall_impl; [ exact H7 | ]. intros j Hj d Hd. specialize (Hj d Hd). lia.
Qed.

(** A call that hands job [j] to the driver under a new deferred. *)
Lemma submit_healthy (j : nat -> job) W :
  healthy W ->
  (forall d, writes_readable (j d)) ->
  (forall d d', deferred_of (j d) = Some d' -> d' = d) ->
  healthy (snd ((deferred <- new_Deferred ; submit (j deferred) ;; ret deferred) W)).
Proof.
  intros H Hj Hd. pose proof (healthy_allocate W H) as (H1 & H2 & H3 & H4 & H5 & H6 & H7).
  destruct W as [ps n aw dbh task dirs dk op q0 sub unc]. world_simpl.
  cbv beta iota delta [healthy allocate uncaught disk queue db initTask next_promise promises
                         set_next_promise set_promises] in *.
  destruct dbh as [ f | ]; cbn [snd]; world_simpl.
  - split; [ exact H1 | ]. split; [ exact H2 | ].
    split; [ apply Forall_app; split; [ exact H3 | constructor; [ apply Hj | constructor ] ] | ].
    split; [ intros _; discriminate | ]. split; [ exact H5 | ]. split; [ exact H6 | ].
    apply Forall_app. split; [ exact H7 | ]. constructor; [ | constructor ].
    intros d Hdj. apply Hd in Hdj. lia.
  - repeat split; auto.
Qed.

Lemma perform_healthy c W :
  healthy W ->
  match c with
  | StoreExperimentProfile exp => JSON.well_formed (ExperimentProfile.params exp) = true
  | _ => True
  end ->
  healthy (snd (perform c W)).
Proof.
  intros H Hc.
  destruct c; cbn [perform];
    try solve [ apply submit_healthy;
                [ exact H | intros d; exact I | intros d d' [= <-]; reflexivity ] ].
  - (* init *)
    pose proof (healthy_allocate W H) as (H1 & H2 & H3 & H4 & H5 & H6 & H7).
    destruct H as (G1 & G2 & G3 & G4 & G5 & G6 & G7).
    destruct W as [ps n aw dbh task dirs dk op q0 sub unc]. unfold init. world_simpl.
    cbv beta iota delta [healthy allocate uncaught disk queue db initTask next_promise promises
                           set_next_promise set_promises] in *.
    destruct task as [ t | ]; [ cbn [snd]; repeat split; auto | ].
    assert (Hdb : dbh = None).
    { destruct dbh; [ | reflexivity ]. destruct G5 as (t & Ht & _); discriminate. }
    subst dbh.
    assert (Hq : q0 = []).
    { destruct q0; [ reflexivity | ]. exfalso. apply G4; [ discriminate | reflexivity ]. }
    subst q0.
    destruct (negb _); cbn [snd]; world_simpl.
    + split; [ exact H1 | ]. split; [ exact H2 | ]. split; [ exact H3 | ].
      split; [ intros Hne; contradiction | ].
      split; [ intros Hne; contradiction | ]. split; [ exact H6 | exact H7 ].
    + split; [ exact H1 | ]. split; [ exact H2 | ].
      split; [ repeat constructor | ]. split; [ intros _; discriminate | ].
      split; [ intros _; exists n; split; [ reflexivity | lia ] | ].
      split; [ exact H6 | ]. constructor; [ discriminate | constructor ].
  - (* storeExperimentProfile *)
    apply submit_healthy; [ exact H | | intros d d' [= <-]; reflexivity ].
    intros d. cbn [writes_readable storeExperimentProfile_args ExperimentProfileRow.params].
    exists (ExperimentProfile.params exp). apply JSONFacts.parse_stringify, Hc.
  - (* queryLatestExperimentProfile *)
    unfold queryLatestExperimentProfile.
    pose proof (submit_healthy (JobAllProfile (ProfileById experimentId)) (allocate W)
                  (healthy_allocate W H) (fun _ => I)
                  (fun d d' (E : Some d = Some d') => eq_sym (f_equal (default d) E))) as Hq.
    fold (queryExperimentProfile experimentId None) in Hq.
    destruct (queryExperimentProfile experimentId None (allocate W)) as [ [ d | e ] W1 ];
      cbn [snd] in *.
    + destruct W1. exact Hq.
    + destruct Hq as (G1 & G2 & G3 & G4 & G5 & G6 & G7).
      destruct W1 as [ps n aw dbh task dirs dk op q0 sub unc].
      cbv beta iota delta [healthy uncaught disk queue db initTask next_promise promises
                             set_promises] in *.
      repeat split; auto.
      intros d Hd. apply alter_is_Some, G6, Hd.
  - (* storeMetricData *)
    unfold storeMetricData. destruct (storeMetricData_args now data); [ | exact H ].
    apply submit_healthy; [ exact H | intros d; exact I | intros d d' [= <-]; reflexivity ].
Qed.

Lemma run_healthy events W :
  healthy W -> stores_well_formed events -> healthy (snd (run events W)).
Proof.
  revert W. induction events as [ | [ c | fault ] events IH ]; intros W H Hwf.
  - exact H.
  - apply Forall_cons in Hwf as [Hc Hwf].
    cbn [run]. pose proof (perform_healthy c W H) as H1.
    destruct (perform c W) as [r W1]. cbn [snd] in H1.
    assert (Hc' : match c with
                  | StoreExperimentProfile exp =>
                    JSON.well_formed (ExperimentProfile.params exp) = true
                  | _ => True
                  end) by (destruct c; first [ exact Hc | exact I ]).
    specialize (IH W1 (H1 Hc') Hwf). destruct (run events W1) as [rs W2]. exact IH.
  - apply Forall_cons in Hwf as [_ Hwf]. cbn [run]. apply IH; [ | exact Hwf ].
    apply complete_healthy, H.
Qed.

Lemma healthy_fresh dirs files : readable files -> healthy (fresh dirs files).
Proof.
  intros Hr. unfold healthy, fresh. cbn.
  split; [ reflexivity | ]. split; [ exact Hr | ]. split; [ constructor | ].
  split; [ intros Hq; contradiction | ]. split; [ intros Hdb; contradiction | ].
  split; [ intros d Hd; lia | constructor ].
Qed.

(** X12.  On files whose stored params are JSON text, a store that is
    given profiles with well-formed params never lets an exception leave
    a callback, in any run with any faults, and leaves the files
    readable. *)
Theorem X12_no_callback_throws dirs files events :
  readable files -> stores_well_formed events ->
  uncaught (snd (run events (fresh dirs files))) = []
  /\ readable (disk (snd (run events (fresh dirs files)))).
Proof.
  intros Hr Hwf.
  destruct (run_healthy events (fresh dirs files) (healthy_fresh dirs files Hr) Hwf)
    as (H1 & H2 & _).
  auto.
Qed.

Lemma readable_empty : readable ∅.
Proof. intros f t Hf. unfold Database in *. rewrite lookup_empty in Hf. discriminate. Qed.

Lemma session_well_formed : stores_well_formed session.
Proof. repeat constructor. Qed.

(** X12 for the example session. *)
Lemma X12_no_callback_throws_witness :
  readable ∅ /\ stores_well_formed session
  /\ uncaught (snd (run session (fresh [data_dir] ∅))) = []
  /\ readable (disk (snd (run session (fresh [data_dir] ∅)))).
Proof.
  split; [ exact readable_empty | ]. split; [ exact session_well_formed | ].
  exact (X12_no_callback_throws [data_dir] ∅ session readable_empty session_well_formed).
Defined.

(** ** No call hangs *)
























(** ** A later instance on the same directory *)

(** Closing writes to no file. *)
Lemma close_keeps_files W t :
  quiescent W t -> disk (complete None (snd (close W))) = disk W.
Proof.
  intros (Hcons & Hqueue & Htables).
  destruct (current_tables_Some W t Htables) as (f & Hdb & Hopen & Hdisk).
  pose proof (fun a => consistent_fresh W a Hcons) as Hfresh.
  destruct W as [ps n aw dbh task dirs dk op q0 sub unc].
  cbv beta iota delta [queue db opened disk awaiting next_promise] in Hqueue, Hdb, Hopen, Hdisk,
    Hfresh.
  subst q0 dbh op. unfold close. world_simpl. cbn [app snd]. world_simpl.
  erewrite this_resolve_unawaited; [ | apply lookup_insert_eq | exact Hfresh ].
  cbn [resolve]. world_simpl. reflexivity.
Qed.

(** A new instance that opens, without [createNew], the database another
    instance wrote. *)
Lemma reopened dbDir dirs files t :
  dbDir ∈ dirs ->
  files !! path_join dbDir (js "nni.sqlite") = Some (Some t) ->
  let W := snd (run [Call (Init false dbDir); Complete None] (fresh dirs files)) in
  promises W !! 0%nat = Some (Deferred.Fulfilled RVoid) /\ quiescent W t.
Proof.
  intros Hdir Hfile W. subst W. cbn [run perform].
  rewrite (init_on_fresh false dbDir dirs files Hdir).
  cbn [fst snd]. revert Hfile. generalize (path_join dbDir (js "nni.sqlite")).
  intros dbFileName Hfile. unfold quiescent, consistent. world_simpl. unfold Database in *.
  rewrite Hfile. world_simpl.
  rewrite update_promise_unawaited by (intros a Ha; inversion Ha).
  world_simpl. unfold Database in *. rewrite lookup_alter_eq, lookup_insert_eq, Hfile.
  repeat split.
Qed.

(** X14.  What one instance stored, the next one reads: after the
    instance is closed, a new instance that opens the same directory
    without [createNew] has its init task fulfilled and answers
    [queryExperimentProfile], by id and by id and revision, with the
    profiles the first instance stored. *)
Theorem X14_stored_profiles_survive W t ps dbDir dirs :
  quiescent W t -> stored t ps ->
  db W = Some (path_join dbDir (js "nni.sqlite")) -> dbDir ∈ dirs ->
  let closed := complete None (snd (close W)) in
  let W' := snd (run [Call (Init false dbDir); Complete None] (fresh dirs (disk closed))) in
  promises W' !! 0%nat = Some (Deferred.Fulfilled RVoid)
  /\ forall id,
      (exists l,
          resolves_with (queryExperimentProfile id None) W' (RProfiles l)
          /\ Permutation l (with_id id ps)
          /\ StronglySorted (descending ExperimentProfile.revision) l)
      /\ forall revision,
          resolves_with (queryExperimentProfile id (Some revision)) W'
                        (RProfiles (with_id_revision id revision ps)).
Proof.
  intros Hq Hst Hdb Hdir closed W'.
  assert (Hfile : disk closed !! path_join dbDir (js "nni.sqlite") = Some (Some t)).
  { pose proof Hq as Hq'. destruct Hq as (_ & _ & Htables).
    destruct (current_tables_Some W t Htables) as (f & Hdb' & _ & Hdisk).
    assert (f = path_join dbDir (js "nni.sqlite")) by congruence. subst f.
    subst closed. rewrite (close_keeps_files W t Hq'). exact Hdisk. }
  destruct (reopened dbDir dirs (disk closed) t Hdir Hfile) as [Hinit Hq'].
  fold W' in Hinit, Hq'. split; [ exact Hinit | ].
  intros id. split.
  - exists (order_by_desc ExperimentProfile.revision (with_id id ps)).
    split; [ apply (query_by_id_resolves W' t ps id Hq' Hst) | ].
    split; [ apply order_by_desc_perm | apply order_by_desc_sorted ].
  - intros revision. apply (query_by_id_revision_resolves W' t ps id revision Hq' Hst).
Qed.

(** X14 for the store with three revisions. *)
Lemma X14_stored_profiles_survive_witness :
  quiescent three_revisions_store three_revisions_tables
  /\ stored three_revisions_tables three_revisions
  /\ db three_revisions_store = Some (path_join data_dir (js "nni.sqlite"))
  /\ data_dir ∈ [data_dir]
  /\ let closed := complete None (snd (close three_revisions_store)) in
     let W' := snd (run [Call (Init false data_dir); Complete None]
                        (fresh [data_dir] (disk closed))) in
     promises W' !! 0%nat = Some (Deferred.Fulfilled RVoid)
     /\ forall id,
         (exists l,
             resolves_with (queryExperimentProfile id None) W' (RProfiles l)
             /\ Permutation l (with_id id three_revisions)
             /\ StronglySorted (descending ExperimentProfile.revision) l)
         /\ forall revision,
             resolves_with (queryExperimentProfile id (Some revision)) W'
                           (RProfiles (with_id_revision id revision three_revisions)).
Proof.
  assert (Hdb : db three_revisions_store = Some (path_join data_dir (js "nni.sqlite")))
    by (vm_compute; reflexivity).
  assert (Hdir : data_dir ∈ [data_dir]) by (apply elem_of_cons; left; reflexivity).
  split; [ exact three_revisions_quiescent | ]. split; [ exact three_revisions_stored | ].
  split; [ exact Hdb | ]. split; [ exact Hdir | ].
  exact (X14_stored_profiles_survive three_revisions_store three_revisions_tables three_revisions
           data_dir [data_dir] three_revisions_quiescent three_revisions_stored Hdb Hdir).
Defined.
